(** * UniSync: one-way folder synchronisation (functions.py)

    A shallow embedding of [functions.py] and of the part of the Python
    runtime it calls ([os.path], [os.walk], [os.remove], [shutil], [logging],
    [time.sleep], [hashlib]), followed by the properties of the
    synchronisation algorithm.

    Layout:
    - [PosixPath]  : path strings, [os.path.join], [normpath], [relpath];
    - [Tree]       : the directory tree and its pure operations;
    - world, exceptions and the state-and-exception monad of the program;
    - [Os]         : the runtime calls, as transitions of the world;
    - the functions of [functions.py], one definition per function;
    - the vocabulary of the statements and the concrete scenarios;
    - properties of the runtime model, of single items and of the two
      phases of a cycle, then one theorem per claim of the specification.

    Modelling assumptions (the runtime is the environment of the program):
    - no symbolic links; ["."] and [".."] are resolved lexically, the way
      [os.path.normpath] does;
    - the environment can make a call fail ([faults]) and can alter the bytes
      a copy has just written ([tamper]);
    - [shutil.rmtree] goes through the tree and stops at the first object
      that cannot be removed; [shutil.copytree] is atomic and looks for
      faults at its source and at its destination only, and [os.walk] lists
      every directory it finds: what a copy of a directory delivers and how
      many entries a walk lists is stated where nothing fails;
    - the recursion limit of the interpreter is not part of the model: that
      a walk, a removal or a copy of a tree returns is stated for trees
      within [recursion_budget], and for a copy whose destination does not
      lie in its source;
    - a loop without an exit ends when the process is interrupted. *)

From Stdlib Require Import String Ascii List Bool Arith ZArith Lia.
Import ListNotations.
Set Warnings "-register-all".
Local Open Scope string_scope.
Local Open Scope list_scope.

(** ** Path strings *)

Module PosixPath.

Definition slash : ascii := "/"%char.

Definition startswith_slash (p : string) : bool :=
  match p with
  | String c _ => Ascii.eqb c slash
  | EmptyString => false
  end.

Fixpoint endswith_slash (p : string) : bool :=
  match p with
  | EmptyString => false
  | String c EmptyString => Ascii.eqb c slash
  | String _ rest => endswith_slash rest
  end.

(** [os.path.isabs] *)
Definition isabs (p : string) : bool := startswith_slash p.

(** [os.path.join a b]: an absolute [b] discards [a]; otherwise the two
    are concatenated, with a separator unless [a] is empty or already ends
    with one. *)
Definition join (a b : string) : string :=
  if startswith_slash b then b
  else if (String.eqb a "" || endswith_slash a)%bool then a ++ b
  else a ++ "/" ++ b.

(** [p.split('/')] *)
Fixpoint split (p : string) : list string :=
  match p with
  | EmptyString => [""]
  | String c rest =>
      if Ascii.eqb c slash then "" :: split rest
      else match split rest with
           | [] => [String c ""]
           | w :: ws => String c w :: ws
           end
  end.

(** ['/'.join(comps)] *)
Fixpoint unsplit (comps : list string) : string :=
  match comps with
  | [] => ""
  | [c] => c
  | c :: cs => c ++ "/" ++ unsplit cs
  end.

(** One step of the component loop of [normpath] for a rooted path:
    empty and ["."] components are skipped, [".."] pops. *)
Definition norm_step (stack : list string) (comp : string) : list string :=
  if (String.eqb comp "" || String.eqb comp ".")%bool then stack
  else if String.eqb comp ".." then removelast stack
  else (stack ++ [comp])%list.

(** The components of [os.path.abspath p] when the working directory has
    components [cwd]. *)
Definition abs_components (cwd : list string) (p : string) : list string :=
  fold_left norm_step (split p) (if isabs p then [] else cwd).

Fixpoint strip_common (start path : list string) : list string * list string :=
  match start, path with
  | s :: start', c :: path' =>
      if String.eqb s c then strip_common start' path' else (start, path)
  | _, _ => (start, path)
  end.

(** [os.path.relpath path start] *)
Definition relpath (cwd : list string) (path start : string) : string :=
  let '(up, down) := strip_common (abs_components cwd start)
                                  (abs_components cwd path) in
  match (map (fun _ => "..") up ++ down)%list with
  | [] => "."
  | rel_list => unsplit rel_list
  end.

(** [os.path.basename] *)
Definition basename (p : string) : string := last (split p) "".

End PosixPath.

(** ** The directory tree *)

Module Tree.

Definition content := list Byte.byte.

(** A file with its bytes, or a directory with its entries in listing
    order. *)
Inductive node : Type :=
| File (data : content)
| Dir (entries : list (string * node)).

(** A location: the names leading from the root of the file system to an
    object. *)
Definition loc := list string.

Fixpoint loc_eqb (a b : loc) : bool :=
  match a, b with
  | [], [] => true
  | x :: a', y :: b' => (String.eqb x y && loc_eqb a' b')%bool
  | _, _ => false
  end.

Fixpoint assoc (name : string) (es : list (string * node)) : option node :=
  match es with
  | [] => None
  | (n, c) :: es' => if String.eqb n name then Some c else assoc name es'
  end.

Fixpoint remove_entry (name : string) (es : list (string * node))
  : list (string * node) :=
  match es with
  | [] => []
  | (n, c) :: es' =>
      if String.eqb n name then es' else (n, c) :: remove_entry name es'
  end.

(** Replace the entry called [name], or add it at the end of the listing. *)
Fixpoint set_entry (name : string) (new : node) (es : list (string * node))
  : list (string * node) :=
  match es with
  | [] => [(name, new)]
  | (n, c) :: es' =>
      if String.eqb n name then (n, new) :: es'
      else (n, c) :: set_entry name new es'
  end.

Definition is_dir (n : node) : bool :=
  match n with Dir _ => true | File _ => false end.

(** Names of the sub-directories, and of the other entries, of a listing. *)
Definition dirnames (es : list (string * node)) : list string :=
  map fst (filter (fun e => is_dir (snd e)) es).

Definition filenames (es : list (string * node)) : list string :=
  map fst (filter (fun e => negb (is_dir (snd e))) es).

(** What [stat] finds at a location: the object, nothing (ENOENT), or a
    file where a directory had to be traversed (ENOTDIR). *)
Inductive stat_result : Type :=
| Found (n : node)
| Missing
| Blocked.

Fixpoint stat (l : loc) (n : node) : stat_result :=
  match l with
  | [] => Found n
  | x :: l' =>
      match n with
      | File _ => Blocked
      | Dir es =>
          match assoc x es with
          | Some c => stat l' c
          | None => Missing
          end
      end
  end.

(** Unlink the object at [l] (with everything below it). *)
Fixpoint remove_at (l : loc) (n : node) : node :=
  match l, n with
  | [], _ => n
  | _, File _ => n
  | [x], Dir es => Dir (remove_entry x es)
  | x :: l', Dir es =>
      match assoc x es with
      | Some c => Dir (set_entry x (remove_at l' c) es)
      | None => n
      end
  end.

(** Put [new] at [l], creating the missing intermediate directories. *)
Fixpoint put_at (l : loc) (new : node) (n : node) : node :=
  match l, n with
  | [], _ => n
  | _, File _ => n
  | [x], Dir es => Dir (set_entry x new es)
  | x :: l', Dir es =>
      let child := match assoc x es with Some c => c | None => Dir [] end in
      Dir (set_entry x (put_at l' new child) es)
  end.

(** [os.walk(top)], top-down: the triple of a directory comes before the
    triples of its sub-directories, which are visited in listing order;
    [root] is the path string [os.walk] reports for the directory. *)
Fixpoint walk (root : string) (n : node) {struct n}
  : list (string * list string * list string) :=
  match n with
  | File _ => []
  | Dir es =>
      (root, dirnames es, filenames es) ::
      (fix subdirs (l : list (string * node)) :=
         match l with
         | [] => []
         | (name, child) :: l' =>
             (match child with
              | Dir _ => walk (PosixPath.join root name) child
              | File _ => []
              end ++ subdirs l')%list
         end) es
  end.

End Tree.

Import Tree.

(** ** Exceptions, the world, and the monad of the program *)

(** The subclasses of [OSError] the program tells apart, and
    [OtherOSError] for every other member of the class ([shutil.Error] and
    [shutil.SameFileError] included). *)
Inductive os_error : Type :=
| FileNotFoundError (filename : string)
| PermissionError (filename : string)
| NotADirectoryError (filename : string)
| IsADirectoryError (filename : string)
| FileExistsError (filename : string)
| OtherOSError (strerror : string).

(** The exceptions of a run.  A call on the file system raises an
    [OSError]; the program itself raises [ValueError], and so does
    [time.sleep] for a negative interval; [time.sleep] raises
    [OverflowError] for an interval it cannot represent; and a process that
    is interrupted from outside sees [KeyboardInterrupt]. *)
Inductive exn : Type :=
| OSError (e : os_error)
| ValueError (msg : string)
| OverflowError (msg : string)
| KeyboardInterrupt.

(** [str(error)] *)
Definition str (error : exn) : string :=
  match error with
  | OSError (FileNotFoundError f) => "[Errno 2] No such file or directory: '" ++ f ++ "'"
  | OSError (PermissionError f) => "[Errno 13] Permission denied: '" ++ f ++ "'"
  | OSError (NotADirectoryError f) => "[Errno 20] Not a directory: '" ++ f ++ "'"
  | OSError (IsADirectoryError f) => "[Errno 21] Is a directory: '" ++ f ++ "'"
  | OSError (FileExistsError f) => "[Errno 17] File exists: '" ++ f ++ "'"
  | OSError (OtherOSError s) => s
  | ValueError m => m
  | OverflowError m => m
  | KeyboardInterrupt => ""
  end.

(** The runtime calls that the history of a run records. *)
Inductive call : Type :=
| Walk (top : string)
| Remove (path : string)
| Rmtree (path : string)
| Copy2 (src dst : string)
| Copytree (src dst : string)
| Sleep (seconds : Z).

(** The world of a run:
    - [root]: the file system, from "/";
    - [cwd]: the working directory, as [os.getcwd()] gives it;
    - [faults]: opening, creating or removing the object at a listed
      location raises the listed error;
    - [tamper]: the bytes the environment stores at a listed location right
      after a copy wrote it;
    - [log]: the lines emitted by [logging.info];
    - [calls]: the history of the runtime calls. *)
Record world : Type := mkWorld {
  root : node;
  cwd : loc;
  faults : list (loc * os_error);
  tamper : list (loc * content);
  log : list string;
  calls : list call
}.

Inductive result (A : Type) : Type :=
| Return (a : A)
| Raise (e : exn).
Arguments Return {A} a.
Arguments Raise {A} e.

Definition M (A : Type) : Type := world -> result A * world.

Definition ret {A} (a : A) : M A := fun w => (Return a, w).

Definition raise {A} (e : exn) : M A := fun w => (Raise e, w).

Definition bind {A B} (c : M A) (k : A -> M B) : M B :=
  fun w =>
    match c w with
    | (Return a, w') => k a w'
    | (Raise e, w') => (Raise e, w')
    end.

(** [try: body / except ...: handler] *)
Definition try_except {A} (body : M A) (handler : exn -> M A) : M A :=
  fun w =>
    match body w with
    | (Return a, w') => (Return a, w')
    | (Raise e, w') => handler e w'
    end.

Definition gets {A} (f : world -> A) : M A := fun w => (Return (f w), w).

Declare Scope monad_scope.
Delimit Scope monad_scope with monad.
Notation "x <- c ;; k" := (bind c (fun x => k))
  (at level 61, c at next level, right associativity) : monad_scope.
Notation "c ;; k" := (bind c (fun _ => k))
  (at level 61, right associativity) : monad_scope.
Local Open Scope monad_scope.

(** [for x in xs: body(x)]: an exception raised by the body ends the loop. *)
Fixpoint for_each {A} (xs : list A) (body : A -> M unit) : M unit :=
  match xs with
  | [] => ret tt
  | x :: xs' => body x ;; for_each xs' body
  end.

(** A [for] loop that extends a local variable [acc]. *)
Fixpoint for_acc {A S} (xs : list A) (acc : S) (body : S -> A -> M S) : M S :=
  match xs with
  | [] => ret acc
  | x :: xs' => acc' <- body acc x ;; for_acc xs' acc' body
  end.

(** The world a computation leaves, and what it returned. *)
Definition exec {A} (c : M A) (w : world) : world := snd (c w).
Definition outcome {A} (c : M A) (w : world) : result A := fst (c w).

(** ** The runtime: [os], [os.path], [shutil], [logging], [time] *)

Module Os.

(** Where a path string points: its normalised absolute components.  The
    empty string names nothing. *)
Definition locate (w : world) (p : string) : option loc :=
  if String.eqb p "" then None
  else Some (PosixPath.abs_components (cwd w) p).

Definition stat_path (w : world) (p : string) : stat_result :=
  match locate w p with
  | Some l => stat l (root w)
  | None => Missing
  end.

(** [os.path.exists], [os.path.isfile], [os.path.isdir] on a world. *)
Definition path_exists (w : world) (p : string) : bool :=
  match stat_path w p with Found _ => true | _ => false end.

Definition is_file (w : world) (p : string) : bool :=
  match stat_path w p with Found (File _) => true | _ => false end.

Definition is_dir (w : world) (p : string) : bool :=
  match stat_path w p with Found (Dir _) => true | _ => false end.

Fixpoint fault_at (l : loc) (fs : list (loc * os_error)) : option os_error :=
  match fs with
  | [] => None
  | (l', e) :: fs' => if loc_eqb l' l then Some e else fault_at l fs'
  end.

Fixpoint tamper_at (l : loc) (ts : list (loc * content)) : option content :=
  match ts with
  | [] => None
  | (l', d) :: ts' => if loc_eqb l' l then Some d else tamper_at l ts'
  end.

Definition set_root (r : node) (w : world) : world :=
  mkWorld r (cwd w) (faults w) (tamper w) (log w) (calls w).

Definition record (c : call) (w : world) : world :=
  mkWorld (root w) (cwd w) (faults w) (tamper w) (log w) (calls w ++ [c]).

Definition emit (line : string) (w : world) : world :=
  mkWorld (root w) (cwd w) (faults w) (tamper w) (log w ++ [line]) (calls w).

(** The error of a failed path lookup. *)
Definition lookup_error (r : stat_result) (p : string) : os_error :=
  match r with
  | Blocked => NotADirectoryError p
  | _ => FileNotFoundError p
  end.

(** [os.remove(path)] *)
Definition remove (p : string) : M unit := fun w0 =>
  let w := record (Remove p) w0 in
  match locate w p, stat_path w p with
  | Some l, Found (File _) =>
      match fault_at l (faults w) with
      | Some e => (Raise (OSError e), w)
      | None => (Return tt, set_root (remove_at l (root w)) w)
      end
  | _, Found (Dir _) => (Raise (OSError (IsADirectoryError p)), w)
  | _, r => (Raise (OSError (lookup_error r p)), w)
  end.

(** Removing the object [n] at [l] with everything below it, the way
    [shutil.rmtree] goes through a tree: the entries of a directory in the
    order of its listing, a sub-directory after its own content; the first
    object that cannot be removed ends it.  [None]: the object is gone;
    [Some (e, rest)]: the error raised, and what is left of the object. *)
Fixpoint rm_node (fs : list (loc * os_error)) (l : loc) (n : node) {struct n}
  : option (os_error * node) :=
  match fault_at l fs with
  | Some e => Some (e, n)
  | None =>
      match n with
      | File _ => None
      | Dir es =>
          match (fix entries (l' : list (string * node))
                   : option (os_error * list (string * node)) :=
                   match l' with
                   | [] => None
                   | (name, child) :: rest =>
                       match rm_node fs (l ++ [name]) child with
                       | Some (e, child') => Some (e, (name, child') :: rest)
                       | None => entries rest
                       end
                   end) es with
          | Some (e, rest) => Some (e, Dir rest)
          | None => None
          end
      end
  end.

(** [shutil.rmtree(path)]: a failure below [path] leaves the part of the
    tree that had not been removed yet. *)
Definition rmtree (p : string) : M unit := fun w0 =>
  let w := record (Rmtree p) w0 in
  match locate w p, stat_path w p with
  | Some l, Found (Dir es) =>
      match fault_at l (faults w), l with
      | Some e, _ => (Raise (OSError e), w)
      | None, [] => (Raise (OSError (OtherOSError ("[Errno 16] Device or resource busy: '" ++ p ++ "'"))), w)
      | None, _ =>
          match rm_node (faults w) l (Dir es) with
          | Some (e, rest) =>
              (Raise (OSError e), set_root (put_at l rest (root w)) w)
          | None => (Return tt, set_root (remove_at l (root w)) w)
          end
      end
  | _, Found (File _) => (Raise (OSError (NotADirectoryError p)), w)
  | _, r => (Raise (OSError (lookup_error r p)), w)
  end.

(** [open(path, "rb")] followed by reading to the end of the file: the
    bytes of the file. *)
Definition read_binary (p : string) : M content := fun w =>
  match locate w p, stat_path w p with
  | Some l, Found (File data) =>
      match fault_at l (faults w) with
      | Some e => (Raise (OSError e), w)
      | None => (Return data, w)
      end
  | _, Found (Dir _) => (Raise (OSError (IsADirectoryError p)), w)
  | _, r => (Raise (OSError (lookup_error r p)), w)
  end.

(** [open(path, "wb")], writing [data] and closing: the file is created in
    an existing directory or truncated; the environment may then alter
    what was written. *)
Definition write_binary (p : string) (data : content) : M unit := fun w =>
  match locate w p with
  | None => (Raise (OSError (FileNotFoundError p)), w)
  | Some l =>
      let stored := match tamper_at l (tamper w) with
                    | Some d => d
                    | None => data
                    end in
      let write :=
        match fault_at l (faults w) with
        | Some e => (Raise (OSError e), w)
        | None => (Return tt, set_root (put_at l (File stored) (root w)) w)
        end in
      match stat l (root w) with
      | Found (Dir _) => (Raise (OSError (IsADirectoryError p)), w)
      | Found (File _) => write
      | Blocked => (Raise (OSError (NotADirectoryError p)), w)
      | Missing =>
          match stat (removelast l) (root w) with
          | Found (Dir _) => write
          | _ => (Raise (OSError (FileNotFoundError p)), w)
          end
      end
  end.

(** [shutil.copy2(src, dst)]: a destination that is a directory receives
    the file under the source's base name; copying a file onto itself is
    refused. *)
Definition copy2 (src dst : string) : M unit := fun w0 =>
  let w := record (Copy2 src dst) w0 in
  let dst := if is_dir w dst then PosixPath.join dst (PosixPath.basename src)
             else dst in
  let same := match locate w src, locate w dst with
              | Some ls, Some ld => (loc_eqb ls ld && path_exists w src)%bool
              | _, _ => false
              end in
  if same
  then (Raise (OSError (OtherOSError ("'" ++ src ++ "' and '" ++ dst ++ "' are the same file"))), w)
  else (data <- read_binary src ;; write_binary dst data) w.

(** [shutil.copytree(src, dst)]: the source is listed, the destination is
    made with [os.makedirs] (it must not exist; missing parents are
    created), and the listed subtree is copied into it. *)
Definition copytree (src dst : string) : M unit := fun w0 =>
  let w := record (Copytree src dst) w0 in
  match locate w src, stat_path w src with
  | Some ls, Found (Dir es) =>
      match fault_at ls (faults w) with
      | Some e => (Raise (OSError e), w)
      | None =>
          match locate w dst, stat_path w dst with
          | Some ld, Missing =>
              match fault_at ld (faults w) with
              | Some e => (Raise (OSError e), w)
              | None => (Return tt, set_root (put_at ld (Dir es) (root w)) w)
              end
          | _, Found _ => (Raise (OSError (FileExistsError dst)), w)
          | _, r => (Raise (OSError (lookup_error r dst)), w)
          end
      end
  | _, Found (File _) => (Raise (OSError (NotADirectoryError src)), w)
  | _, r => (Raise (OSError (lookup_error r src)), w)
  end.

(** [os.walk(top)], consumed to the end.  Errors of the listing are
    ignored by [os.walk]: a [top] that is not a directory yields nothing. *)
Definition walk (top : string) : M (list (string * list string * list string)) :=
  fun w0 =>
    let w := record (Walk top) w0 in
    match stat_path w top with
    | Found n => (Return (Tree.walk top n), w)
    | _ => (Return [], w)
    end.

(** [os.path.relpath(path, start)] *)
Definition path_relpath (path start : string) : M string := fun w =>
  if String.eqb path "" then (Raise (ValueError "no path specified"), w)
  else (Return (PosixPath.relpath (cwd w) path start), w).

(** The longest interval [time.sleep] takes, in seconds: CPython keeps the
    interval as a signed 64-bit number of nanoseconds. *)
Definition sleep_max : Z := 9223372036.

(** [time.sleep(seconds)] for an [int]: the interval is converted first,
    which fails with [OverflowError] outside the representable range, and
    then refused with [ValueError] when it is negative. *)
Definition sleep (seconds : Z) : M unit := fun w0 =>
  let w := record (Sleep seconds) w0 in
  if ((seconds <? - sleep_max) || (sleep_max <? seconds))%Z
  then (Raise (OverflowError "timestamp too large to convert to C _PyTime_t"), w)
  else if (seconds <? 0)%Z
  then (Raise (ValueError "sleep length must be non-negative"), w)
  else (Return tt, w).

End Os.

Definition os_path_exists (p : string) : M bool := gets (fun w => Os.path_exists w p).
Definition os_path_isfile (p : string) : M bool := gets (fun w => Os.is_file w p).
Definition os_path_isdir (p : string) : M bool := gets (fun w => Os.is_dir w p).
Definition os_path_join := PosixPath.join.

(** [logging.info(line)] *)
Definition logging_info (line : string) : M unit :=
  fun w => (Return tt, Os.emit line w).

(** ** [hashlib] *)

(** The interface of [hashlib.md5()] that the program uses: a fresh hash
    state, [update] with a chunk of bytes, [hexdigest]. *)
Class Hashlib : Type := {
  hash_state : Type;
  md5 : hash_state;
  update : hash_state -> content -> hash_state;
  hexdigest : hash_state -> string
}.

(** ** The program: [functions.py] *)

Section Program.

Context `{Hashlib}.

(** The reading loop of [calculate_md5]: chunks of 4096 bytes are folded
    into the hash state until a read returns no bytes.  [fuel] bounds the
    number of iterations. *)
Fixpoint read_loop (fuel : nat) (file : content) (hash_md5 : hash_state)
  : hash_state :=
  match fuel with
  | O => hash_md5
  | S fuel' =>
      match firstn 4096 file with
      | [] => hash_md5
      | chunk => read_loop fuel' (skipn 4096 file) (update hash_md5 chunk)
      end
  end.

Definition calculate_md5 (file_path : string) : M string :=
  file <- Os.read_binary file_path ;;
  ret (hexdigest (read_loop (S (length file)) file md5)).

Definition delete_item (item_path : string) : M unit :=
  try_except
    (isfile <- os_path_isfile item_path ;;
     (if isfile then Os.remove item_path
      else
        isdir <- os_path_isdir item_path ;;
        if isdir then Os.rmtree item_path else ret tt) ;;
     logging_info ("[-] Item " ++ item_path ++ " removed successfully"))
    (fun error =>
       match error with
       | OSError (FileNotFoundError _) =>
           logging_info ("[!] Unable to delete " ++ item_path ++ ": not found")
       | OSError (PermissionError _) =>
           logging_info ("[!] Unable to delete " ++ item_path ++ ": permission denied")
       | OSError (NotADirectoryError _) =>
           logging_info ("[!] Unable to delete " ++ item_path ++ ": not a directory")
       | OSError _ =>
           logging_info ("[!] Unable to delete " ++ item_path ++ ": " ++ str error)
       | _ => raise error
       end).

Definition walk_folder_content (folder_path : string) : M (list string) :=
  triples <- Os.walk folder_path ;;
  for_acc triples [] (fun content '(root, dirs, files) =>
    relative_dir <- Os.path_relpath root folder_path ;;
    ret (content ++ map (os_path_join relative_dir) (files ++ dirs))%list).

(** [item in items], by string equality. *)
Definition contains (items : list string) (item : string) : bool :=
  existsb (String.eqb item) items.

Definition delete_extra_items_from_replica (source_folder replica_folder : string)
  : M unit :=
  source_items <- walk_folder_content source_folder ;;
  replica_items <- walk_folder_content replica_folder ;;
  for_each replica_items (fun item =>
    if negb (contains source_items item) then
      let item_real_path := os_path_join replica_folder item in
      delete_item item_real_path
    else ret tt).

Definition copy_item (source_path replica_path : string) : M unit :=
  try_except
    (isfile <- os_path_isfile source_path ;;
     if isfile then
       Os.copy2 source_path replica_path ;;
       source_md5 <- calculate_md5 source_path ;;
       replica_md5 <- calculate_md5 replica_path ;;
       if String.eqb source_md5 replica_md5 then
         logging_info ("[+] Item " ++ source_path ++ " copied [Integrity verified]")
       else
         logging_info ("[!] Item " ++ source_path ++ " copied [Integrity compromised]")
     else
       isdir <- os_path_isdir source_path ;;
       if isdir then
         Os.copytree source_path replica_path ;;
         logging_info ("[+] Item " ++ source_path ++ " copied to "
                         ++ replica_path ++ " successfully.")
       else ret tt)
    (fun error =>
       match error with
       | OSError (FileNotFoundError _) =>
           logging_info ("[!] Item " ++ source_path ++ " not found.")
       | OSError (PermissionError _) =>
           logging_info ("[!] Permission denied to copy item " ++ source_path ++ ".")
       | OSError _ => logging_info ("[!] Error copying item: " ++ str error)
       | _ => raise error
       end).

(** The destination the copy loop computes for a missing [item]
    (lines 195-198): for a directory the joined path is joined with the
    replica folder a second time. *)
Definition destination (replica_folder item : string) (isdir : bool) : string :=
  let replica_path := os_path_join replica_folder item in
  if isdir then
    let replica_subfolder := os_path_join replica_folder item in
    os_path_join replica_folder replica_subfolder
  else replica_path.

Definition copy_new_from_source_to_replica (source_folder replica_folder : string)
  : M unit :=
  source_items <- walk_folder_content source_folder ;;
  replica_items <- walk_folder_content replica_folder ;;
  for_each source_items (fun item =>
    if negb (contains replica_items item) then
      let source_path := os_path_join source_folder item in
      isdir <- os_path_isdir source_path ;;
      let replica_path := destination replica_folder item isdir in
      copy_item source_path replica_path
    else ret tt).

Definition call_to_action : string :=
  "Please enter a valid path in order to perform synchronization.".

Definition check_path_validity (path : string) : M unit :=
  pexists <- os_path_exists path ;;
  if negb pexists then
    raise (ValueError ("Folder '" ++ path ++ "' does not exist. " ++ call_to_action))
  else
    isdir <- os_path_isdir path ;;
    if negb isdir then
      raise (ValueError ("'" ++ path ++ "' is not a valid folder path. " ++ call_to_action))
    else ret tt.

(** One pass of the body of the [while True] loop, before the test of
    [sync_interval]. *)
Definition sync_cycle (source_folder replica_folder : string) : M unit :=
  delete_extra_items_from_replica source_folder replica_folder ;;
  copy_new_from_source_to_replica source_folder replica_folder.

(** The [while True] loop.  Without an interval it breaks after the first
    cycle.  With an interval it has no exit: it goes on until an exception
    leaves it.  [more] is the number of further cycles the process runs
    before it is interrupted from outside, which the loop sees as
    [KeyboardInterrupt] once the sleep after its last cycle is over. *)
Fixpoint sync_loop (more : nat) (source_folder replica_folder : string)
         (sync_interval : option Z) : M unit :=
  sync_cycle source_folder replica_folder ;;
  match sync_interval with
  | Some seconds =>
      Os.sleep seconds ;;
      match more with
      | O => raise KeyboardInterrupt
      | S more' => sync_loop more' source_folder replica_folder sync_interval
      end
  | None => ret tt
  end.

Definition sync_folders (more : nat) (source_folder replica_folder : string)
           (sync_interval : option Z) : M unit :=
  valid <- try_except
             (check_path_validity source_folder ;;
              check_path_validity replica_folder ;;
              ret true)
             (fun error =>
                match error with
                | ValueError _ => logging_info ("Error: " ++ str error) ;; ret false
                | _ => raise error
                end) ;;
  if valid then sync_loop more source_folder replica_folder sync_interval
  else ret tt.

End Program.

(** ** Vocabulary of the statements *)

(** The relative entries of the tree at [folder_path]: the list
    [walk_folder_content] returns in world [w]. *)
Definition entries (w : world) (folder_path : string) : list string :=
  match Os.stat_path w folder_path with
  | Found n =>
      flat_map (fun t : string * list string * list string =>
                  let '(root, dirs, files) := t in
                  map (os_path_join (PosixPath.relpath (cwd w) root folder_path))
                      (files ++ dirs)%list)
               (Tree.walk folder_path n)
  | _ => []
  end.

(** The two differences of the entry lists. *)
Definition extra (w : world) (source_folder replica_folder : string) : list string :=
  filter (fun item => negb (contains (entries w source_folder) item))
         (entries w replica_folder).

Definition missing (w : world) (source_folder replica_folder : string) : list string :=
  filter (fun item => negb (contains (entries w replica_folder) item))
         (entries w source_folder).

Definition is_delete_call (c : call) : bool :=
  match c with Remove _ | Rmtree _ => true | _ => false end.

Definition is_copy_call (c : call) : bool :=
  match c with Copy2 _ _ | Copytree _ _ => true | _ => false end.

Section Steps.

Context `{Hashlib}.

(** What the delete loop does with one extra item, and the copy loop with
    one missing item. *)
Definition delete_step (replica_folder : string) (w : world) (item : string)
  : world :=
  exec (delete_item (os_path_join replica_folder item)) w.

Definition copy_step (source_folder replica_folder : string) (w : world)
           (item : string) : world :=
  let source_path := os_path_join source_folder item in
  exec (copy_item source_path
                  (destination replica_folder item (Os.is_dir w source_path))) w.

(** The runtime call behind the deletion of [item_path] raised [e],
    leaving world [w1]. *)
Definition delete_fails (item_path : string) (w : world) (e : exn) (w1 : world)
  : Prop :=
  (Os.is_file w item_path = true /\ Os.remove item_path w = (Raise e, w1)) \/
  (Os.is_file w item_path = false /\ Os.is_dir w item_path = true /\
   Os.rmtree item_path w = (Raise e, w1)).

(** The copy of [source_path] raised [e], leaving world [w1]: in the copy
    call itself or, for a file, when one of the two files is read back for
    its digest. *)
Definition copy_fails (source_path replica_path : string) (w : world) (e : exn)
           (w1 : world) : Prop :=
  (Os.is_file w source_path = true /\
   Os.copy2 source_path replica_path w = (Raise e, w1)) \/
  (Os.is_file w source_path = true /\
   Os.copy2 source_path replica_path w = (Return tt, w1) /\
   (calculate_md5 source_path w1 = (Raise e, w1) \/
    exists digest, calculate_md5 source_path w1 = (Return digest, w1) /\
                   calculate_md5 replica_path w1 = (Raise e, w1))) \/
  (Os.is_file w source_path = false /\ Os.is_dir w source_path = true /\
   Os.copytree source_path replica_path w = (Raise e, w1)).

End Steps.

(** A log line that reports a failure. *)
Definition failure_line (line : string) : bool := String.prefix "[!]" line.

(** Two worlds that differ at most in their file system and history. *)
Definition same_env (w w' : world) : Prop :=
  cwd w' = cwd w /\ faults w' = faults w /\ tamper w' = tamper w.

(** A computation that leaves the log alone, extends the history by calls
    satisfying [ok] and raises nothing but [OSError]. *)
Definition runtime_call {A} (ok : call -> bool) (c : M A) : Prop :=
  forall w,
    same_env w (exec c w) /\ log (exec c w) = log w /\
    (exists cs, calls (exec c w) = (calls w ++ cs)%list /\ forallb ok cs = true) /\
    (forall e, outcome c w = Raise e -> exists error, e = OSError error).

(** What a runtime call leaves behind: the same environment and log, and a
    history extended by calls satisfying [ok]. *)
Definition frame (ok : call -> bool) (w w' : world) : Prop :=
  same_env w w' /\ log w' = log w /\
  exists cs, calls w' = (calls w ++ cs)%list /\ forallb ok cs = true.

(** The shape of the log after one item: one more line when the source is
    a file or a directory, none otherwise. *)
Definition one_line_if (b : bool) (before after : list string) : Prop :=
  if b then exists line, after = (before ++ [line])%list else after = before.

(** *** Entries by names *)

Fixpoint no_slash (s : string) : bool :=
  match s with
  | EmptyString => true
  | String c rest => (negb (Ascii.eqb c PosixPath.slash) && no_slash rest)%bool
  end.

(** A name a directory entry can have. *)
Definition valid_name (name : string) : bool :=
  (negb (String.eqb name "") && negb (String.eqb name ".")
   && negb (String.eqb name "..") && no_slash name)%bool.


(** A tree in which every entry has a valid name. *)
Fixpoint well_named (n : node) : bool :=
  match n with
  | File _ => true
  | Dir es =>
      (fix all (l : list (string * node)) : bool :=
         match l with
         | [] => true
         | (name, child) :: l' =>
             (valid_name name && well_named child && all l')%bool
         end) es
  end.

(** [Tree.walk] with the visited directories given by the names that lead
    to them from the top, rather than by their path strings. *)
Fixpoint walk_names (rel : list string) (n : node) {struct n}
  : list (list string * list string * list string) :=
  match n with
  | File _ => []
  | Dir es =>
      (rel, dirnames es, filenames es) ::
      (fix subdirs (l : list (string * node)) :=
         match l with
         | [] => []
         | (name, child) :: l' =>
             (match child with
              | Dir _ => walk_names (rel ++ [name]) child
              | File _ => []
              end ++ subdirs l')%list
         end) es
  end.

(** The path string [os.walk(top)] reports for the directory reached by the
    names [rel], and its [relpath] to [top]. *)
Definition reported_root (top : string) (rel : list string) : string :=
  fold_left PosixPath.join rel top.

Definition relative_dir (rel : list string) : string :=
  match rel with
  | [] => "."
  | _ => PosixPath.unsplit rel
  end.

(** The relative entry of the object reached by the names [p]. *)
Definition entry_of (p : list string) : string :=
  os_path_join (relative_dir (removelast p)) (last p "").

Definition valid_names (p : list string) : Prop :=
  Forall (fun x => valid_name x = true) p.

Definition valid_triple (t : list string * list string * list string) : Prop :=
  valid_names (fst (fst t)) /\ valid_names (snd (fst t)) /\ valid_names (snd t).

(** Whether the tree at [folder_path] is well named (vacuously so when
    there is no tree there). *)
Definition well_named_at (w : world) (folder_path : string) : bool :=
  match Os.stat_path w folder_path with
  | Found n => well_named n
  | _ => true
  end.

Fixpoint is_prefix (a b : loc) : bool :=
  match a, b with
  | [], _ => true
  | x :: a', y :: b' => (String.eqb x y && is_prefix a' b')%bool
  | _ :: _, [] => false
  end.

(** Whether a copy call of the history puts something at location [l]:
    [copy2] onto [l] itself, [copytree] onto [l] or a directory above it. *)
Definition delivers_to (w : world) (l : loc) (c : call) : bool :=
  match c with
  | Copy2 _ dst =>
      match Os.locate w dst with Some ld => loc_eqb ld l | None => false end
  | Copytree _ dst =>
      match Os.locate w dst with Some ld => is_prefix ld l | None => false end
  | _ => false
  end.

(** How many copy calls of the history of [w] delivered to [l]. *)
Definition times_copied (w : world) (l : loc) : nat :=
  length (filter (delivers_to w l) (calls w)).

(** ** Concrete scenarios *)

Module Scenario.

(** A stand-in for MD5 in the scenarios: the digest of a file is the
    text of its bytes, so two digests are equal exactly when the contents
    are. *)
#[export] Instance plain_hash : Hashlib := {|
  hash_state := content;
  md5 := [];
  update := fun h chunk => (h ++ chunk)%list;
  hexdigest := string_of_list_byte
|}.

Definition bytes (s : string) : content := list_byte_of_string s.

Definition world_of (fs : node) (tampered : list (loc * content)) : world :=
  mkWorld fs [] [] tampered [] [].

(** source [s] = {d/}, replica [r] = {}; the working directory is "/". *)
Definition new_dir : world :=
  world_of (Dir [("s", Dir [("d", Dir [])]); ("r", Dir [])]) [].

(** source = {p (a file)}, replica = {p/ (a directory), p/x}. *)
Definition kind_change : world :=
  world_of (Dir [("s", Dir [("p", File (bytes "P"))]);
                 ("r", Dir [("p", Dir [("x", File (bytes "X"))])])]) [].

(** source = {dir1/, dir1/b.txt}, replica = {}. *)
Definition nested : world :=
  world_of (Dir [("s", Dir [("dir1", Dir [("b.txt", File (bytes "B"))])]);
                 ("r", Dir [])]) [].

(** source = {a.txt}, replica = {}; what is written to [/r/a.txt] is
    altered before it is read back. *)
Definition tampered : world :=
  world_of (Dir [("s", Dir [("a.txt", File (bytes "A"))]); ("r", Dir [])])
           [(["r"; "a.txt"], bytes "X")].

(** source = {a.txt, b.txt}, replica = {old1, old2, old3}; [old1] cannot
    be removed and [a.txt] cannot be created. *)
Definition faulty : world :=
  mkWorld (Dir [("s", Dir [("a.txt", File (bytes "A")); ("b.txt", File (bytes "B"))]);
                ("r", Dir [("old1", File (bytes "1")); ("old2", Dir []);
                           ("old3", File (bytes "3"))])])
          []
          [(["r"; "old1"], PermissionError "/r/./old1");
           (["r"; "a.txt"], OtherOSError "[Errno 28] No space left on device")]
          [] [] [].

(** source = {}, replica = {old/, old/x}. *)
Definition stale_dir : world :=
  world_of (Dir [("s", Dir []);
                 ("r", Dir [("old", Dir [("x", File (bytes "X"))])])]) [].

End Scenario.

(** ** Vocabulary of the further properties *)

(** [get_log_file_path]; [project_folder] stands for
    [os.path.realpath(os.path.dirname(__file__))], the folder of the
    program. *)
Definition get_log_file_path (project_folder log_file_name : string) : string :=
  if PosixPath.isabs log_file_name then log_file_name
  else os_path_join project_folder log_file_name.

(** The laws of an incremental hash: feeding two chunks one after the other
    is feeding their concatenation, and feeding nothing changes nothing. *)
Definition streaming `{Hashlib} : Prop :=
  (forall h a b, update (update h a) b = update h (a ++ b)%list) /\
  (forall h, update h [] = h).

(** The number of files and directories below a node. *)
Fixpoint descendants (n : node) : nat :=
  match n with
  | File _ => 0
  | Dir es =>
      (fix total (l : list (string * node)) : nat :=
         match l with
         | [] => 0
         | (_, child) :: l' => S (descendants child) + total l'
         end) es
  end.

(** The levels of directories in an object: none in a file, one in an
    empty directory. *)
Fixpoint depth (n : node) : nat :=
  match n with
  | File _ => 0
  | Dir es =>
      S ((fix deepest (l : list (string * node)) : nat :=
            match l with
            | [] => 0
            | (_, child) :: l' => Nat.max (depth child) (deepest l')
            end) es)
  end.

(** CPython ends a recursion at [sys.getrecursionlimit()] frames, 1000
    unless it is changed, with [RecursionError], which is not an [OSError]
    and so passes through the handlers of [delete_item] and [copy_item].
    [os.walk] and [shutil.rmtree] take a frame for each level of
    directories, [shutil.copytree] two.  The runtime model knows no such
    limit; a statement that says such a call returns is made for trees of
    at most [recursion_budget] levels, which stay below it with the frames
    of the program counted in. *)
Definition recursion_budget : nat := 400.

Definition is_sleep_call (c : call) : bool :=
  match c with Sleep _ => true | _ => false end.

Definition is_walk_call (c : call) : bool :=
  match c with Walk _ => true | _ => false end.

(** The number of names in the triples of a walk. *)
Definition reported (ts : list (string * list string * list string)) : nat :=
  fold_right (fun t acc => length (snd t) + length (snd (fst t)) + acc) 0 ts.

(** A tree in which no directory lists a name twice. *)
Fixpoint unique_names (n : node) : bool :=
  match n with
  | File _ => true
  | Dir es =>
      (fix all (l : list (string * node)) : bool :=
         match l with
         | [] => true
         | (name, child) :: l' =>
             (negb (existsb (String.eqb name) (map fst l'))
              && unique_names child && all l')%bool
         end) es
  end.

(** Two locations that part ways: at some depth they name different
    entries of the same directory. *)
Fixpoint diverge (a b : loc) : bool :=
  match a, b with
  | x :: a', y :: b' => if String.eqb x y then diverge a' b' else true
  | _, _ => false
  end.

(** World [w'] has the working directory of [w] and, at location [a], what
    [w] has there. *)
Definition keeps (a : loc) (w w' : world) : Prop :=
  stat a (root w') = stat a (root w) /\ cwd w' = cwd w.

(** A world in which the environment refuses nothing, with the working
    directory [here] and a well-named file system with one object per name. *)
Definition benign (here : loc) (w : world) : Prop :=
  faults w = [] /\ cwd w = here /\
  unique_names (root w) = true /\ well_named (root w) = true.

(** Nothing is found in [w'] that was not there in [w]. *)
Definition nothing_new (w w' : world) : Prop :=
  forall q c', stat q (root w') = Found c' -> exists c, stat q (root w) = Found c.

(** The objects the triples of a walk list, each by the names that lead to
    it, in the order of the entries. *)
Definition names_of (ts : list (list string * list string * list string))
  : list loc :=
  flat_map (fun t : list string * list string * list string =>
              let '(r, ds, fs) := t in map (fun x => r ++ [x]) (fs ++ ds))%list
           ts.

(** Every location of [qs] comes after the directory that holds it, which
    is in [seen] or earlier in [qs]. *)
Fixpoint parents_first (seen qs : list loc) : Prop :=
  match qs with
  | [] => True
  | q :: qs' => In (removelast q) seen /\ parents_first (q :: seen) qs'
  end.

(** Whatever is found in [w] is found in [w'], a directory where it was a
    directory and a file where it was a file. *)
Definition grows (w w' : world) : Prop :=
  forall q c,
    stat q (root w) = Found c ->
    exists c', stat q (root w') = Found c' /\ Tree.is_dir c' = Tree.is_dir c.

(** Whatever [w'] holds below [at_replica] has the kind of what the tree
    [replica] or the tree [source] holds under the same names. *)
Definition mirrors (at_replica : loc) (source replica : node) (w' : world)
  : Prop :=
  forall q c,
    stat (at_replica ++ q) (root w') = Found c ->
    (exists c0, stat q replica = Found c0 /\ Tree.is_dir c0 = Tree.is_dir c) \/
    (exists cs, stat q source = Found cs /\ Tree.is_dir cs = Tree.is_dir c).

(** The worlds of a copy phase that started in [w], where nothing fails:
    the source tree is as it was, names are well formed and unique, nothing
    was lost, and the replica holds what it held or what the source holds. *)
Definition copying (w : world) (at_source at_replica : loc)
           (source replica : node) (w' : world) : Prop :=
  faults w' = [] /\ cwd w' = cwd w /\
  stat at_source (root w') = Found source /\
  well_named (root w') = true /\ unique_names (root w') = true /\
  grows w w' /\ mirrors at_replica source replica w'.

(** Further scenarios. *)
Module Cases.

Import Scenario.

(** source = {a.txt}, replica = {a.txt}, with different contents. *)
Definition same_names : world :=
  world_of (Dir [("s", Dir [("a.txt", File (bytes "new"))]);
                 ("r", Dir [("a.txt", File (bytes "old"))])]) [].

(** source = {a.txt}, replica = {a.txt, old/, old/x, gone.txt}. *)
Definition mixed : world :=
  world_of (Dir [("s", Dir [("a.txt", File (bytes "A"))]);
                 ("r", Dir [("a.txt", File (bytes "A"));
                            ("old", Dir [("x", File (bytes "X"))]);
                            ("gone.txt", File (bytes "G"))])]) [].

(** source = {a.txt, d/, d/b.txt}, replica = {a.txt, old.txt, stale/,
    stale/x}. *)
Definition drifted : world :=
  world_of (Dir [("s", Dir [("a.txt", File (bytes "A"));
                            ("d", Dir [("b.txt", File (bytes "B"))])]);
                 ("r", Dir [("a.txt", File (bytes "A"));
                            ("old.txt", File (bytes "O"));
                            ("stale", Dir [("x", File (bytes "X"))])])]) [].

(** source = {a.txt, d/, d/b.txt}, replica = {a.txt}. *)
Definition behind : world :=
  world_of (Dir [("s", Dir [("a.txt", File (bytes "A"));
                            ("d", Dir [("b.txt", File (bytes "B"))])]);
                 ("r", Dir [("a.txt", File (bytes "A"))])]) [].

End Cases.

(** * Properties *)

(** ** Paths *)

Example join_relative : PosixPath.join "r" "./d" = "r/./d".
Proof. reflexivity. Qed.

Example join_trailing_slash : PosixPath.join "r/" "./d" = "r/./d".
Proof. reflexivity. Qed.

Example join_absolute_second : PosixPath.join "/r" "/r/./d" = "/r/./d".
Proof. reflexivity. Qed.

Example split_example : PosixPath.split "/s//dir1/" = [""; "s"; ""; "dir1"; ""].
Proof. reflexivity. Qed.

Example abs_components_example :
  PosixPath.abs_components ["home"; "u"] "../v/./r/" = ["home"; "v"; "r"].
Proof. reflexivity. Qed.

Example relpath_top : PosixPath.relpath ["home"] "s" "s" = ".".
Proof. reflexivity. Qed.

Example relpath_below : PosixPath.relpath ["home"] "s/dir1/sub" "s" = "dir1/sub".
Proof. reflexivity. Qed.

Example walk_folder_content_example :
  entries Scenario.nested "/s" = ["./dir1"; "dir1/b.txt"].
Proof. reflexivity. Qed.

(** ** The monad and the loop *)

Lemma bind_return {A B} (c : M A) (k : A -> M B) (w w' : world) (a : A) :
  c w = (Return a, w') -> bind c k w = k a w'.
Proof. intros E. unfold bind. now rewrite E. Qed.

Lemma bind_raise {A B} (c : M A) (k : A -> M B) (w w' : world) (e : exn) :
  c w = (Raise e, w') -> bind c k w = (Raise e, w').
Proof. intros E. unfold bind. now rewrite E. Qed.

(** A loop whose body never raises runs its body on every element. *)
Lemma for_each_total {A} (body : A -> M unit) :
  (forall x w, outcome (body x) w = Return tt) ->
  forall xs w,
    for_each xs body w
    = (Return tt, fold_left (fun w x => exec (body x) w) xs w).
Proof.
  intros Hbody xs. induction xs as [|x xs IH]; intros w; simpl.
  - reflexivity.
  - unfold bind. specialize (Hbody x w). unfold outcome in Hbody.
    unfold exec at 2. destruct (body x w) as [r w1]. simpl in *.
    subst r. apply IH.
Qed.

Lemma fold_left_guarded {A} (keep : A -> bool) (step : world -> A -> world) :
  forall xs w,
    fold_left (fun w x => if keep x then step w x else w) xs w
    = fold_left step (filter keep xs) w.
Proof.
  induction xs as [|x xs IH]; intros w; simpl; [reflexivity|].
  destruct (keep x); simpl; apply IH.
Qed.

Lemma fold_left_ext {A} (f g : world -> A -> world) :
  (forall w x, f w x = g w x) ->
  forall xs w, fold_left f xs w = fold_left g xs w.
Proof.
  intros E xs. induction xs as [|x xs IH]; intros w; simpl; [reflexivity|].
  rewrite E. apply IH.
Qed.

(** ** Induction on trees *)

Lemma node_ind' (P : node -> Prop) :
  (forall data, P (File data)) ->
  (forall es, Forall (fun e => P (snd e)) es -> P (Dir es)) ->
  forall n, P n.
Proof.
  intros P_file P_dir. fix IH 1. intros [data|es].
  - apply P_file.
  - apply P_dir. induction es as [|e es IHes]; constructor.
    + apply IH.
    + exact IHes.
Qed.

Lemma startswith_slash_nonempty (p : string) :
  PosixPath.startswith_slash p = true -> p <> "".
Proof. destruct p; simpl; congruence. Qed.

Lemma append_nonempty (a b : string) : a <> "" -> (a ++ b)%string <> "".
Proof. destruct a; simpl; congruence. Qed.

Lemma join_nonempty (a b : string) : a <> "" -> PosixPath.join a b <> "".
Proof.
  intros Ha. unfold PosixPath.join.
  destruct (PosixPath.startswith_slash b) eqn:Hb.
  - now apply startswith_slash_nonempty.
  - destruct (_ || _)%bool; now apply append_nonempty.
Qed.

(** Every directory [os.walk] reports has a non-empty path string. *)
Lemma walk_roots_nonempty (n : node) :
  forall top, top <> "" ->
    Forall (fun t => fst (fst t) <> "") (Tree.walk top n).
Proof.
  induction n as [data|es IH] using node_ind'; intros top Htop; simpl.
  - constructor.
  - constructor; [exact Htop|].
    induction es as [|[name child] es IHes]; [constructor|].
    inversion IH as [|? ? Hc Hes]; subst. simpl in Hc.
    apply Forall_app. split.
    + destruct child; [constructor|].
      apply Hc. now apply join_nonempty.
    + now apply IHes.
Qed.

(** ** Walking a tree *)

Lemma stat_path_record (c : call) (w : world) (p : string) :
  Os.stat_path (Os.record c w) p = Os.stat_path w p.
Proof. reflexivity. Qed.

Lemma walk_loop_spec (folder_path : string) (w : world) :
  forall (ts : list (string * list string * list string)) (content : list string),
    Forall (fun t => fst (fst t) <> "") ts ->
    for_acc ts content
      (fun content '(root, dirs, files) =>
         relative_dir <- Os.path_relpath root folder_path ;;
         ret (content ++ map (os_path_join relative_dir) (files ++ dirs))%list) w
    = (Return
         (content ++
          flat_map (fun t : string * list string * list string =>
                      let '(root, dirs, files) := t in
                      map (os_path_join (PosixPath.relpath (cwd w) root folder_path))
                          (files ++ dirs)%list) ts)%list,
       w).
Proof.
  induction ts as [|[[root dirs] files] ts IH]; intros content Hne.
  - simpl. now rewrite app_nil_r.
  - inversion Hne as [|? ? Hroot Hts]; subst. cbn [fst] in Hroot.
    cbn [for_acc flat_map]. unfold bind at 1. unfold bind at 1.
    unfold Os.path_relpath.
    destruct (String.eqb_spec root ""); [contradiction|].
    unfold ret at 1. rewrite IH by assumption.
    now rewrite <- app_assoc.
Qed.

(** [walk_folder_content] never raises: it returns the entries of the tree
    and leaves one [Walk] in the history. *)
Lemma walk_folder_content_spec (folder_path : string) (w : world) :
  walk_folder_content folder_path w
  = (Return (entries w folder_path), Os.record (Walk folder_path) w).
Proof.
  unfold walk_folder_content, entries, Os.walk.
  unfold bind at 1. cbv zeta.
  rewrite stat_path_record.
  destruct (Os.stat_path w folder_path) as [n| |] eqn:Hstat; try reflexivity.
  rewrite walk_loop_spec; [reflexivity|].
  apply walk_roots_nonempty.
  intros ->. unfold Os.stat_path, Os.locate in Hstat. simpl in Hstat. discriminate.
Qed.

(** ** Entries by names *)

Lemma string_app_assoc (a b c : string) :
  ((a ++ b) ++ c)%string = (a ++ (b ++ c))%string.
Proof. induction a as [|x a IH]; simpl; [reflexivity|now rewrite IH]. Qed.

Lemma split_nonempty (p : string) : PosixPath.split p <> [].
Proof.
  destruct p as [|c rest]; simpl; [discriminate|].
  destruct (Ascii.eqb c PosixPath.slash); [discriminate|].
  destruct (PosixPath.split rest); discriminate.
Qed.

Lemma split_no_slash (x : string) : no_slash x = true -> PosixPath.split x = [x].
Proof.
  induction x as [|c x IH]; simpl; [reflexivity|].
  intros Hx. apply andb_prop in Hx. destruct Hx as [Hc Hx].
  apply negb_true_iff in Hc. rewrite Hc, (IH Hx). reflexivity.
Qed.

Lemma split_slash_app (a b : string) :
  PosixPath.split (a ++ String PosixPath.slash b)%string
  = (PosixPath.split a ++ PosixPath.split b)%list.
Proof.
  induction a as [|c a IH]; simpl.
  - reflexivity.
  - destruct (Ascii.eqb c PosixPath.slash); rewrite IH; [reflexivity|].
    pose proof (split_nonempty a) as Hne.
    destruct (PosixPath.split a) as [|w ws]; [contradiction|reflexivity].
Qed.

Lemma endswith_slash_inv (p : string) :
  PosixPath.endswith_slash p = true -> exists a, p = (a ++ "/")%string.
Proof.
  induction p as [|c p IH]; simpl; [discriminate|].
  destruct p as [|d p].
  - intros Hc. apply Ascii.eqb_eq in Hc. subst c. now exists "".
  - intros Hp. destruct (IH Hp) as (a & Ha). exists (String c a).
    simpl. now rewrite <- Ha.
Qed.

Lemma valid_name_no_leading_slash (x : string) :
  valid_name x = true -> PosixPath.startswith_slash x = false.
Proof.
  unfold valid_name. intros Hx.
  repeat (apply andb_prop in Hx; destruct Hx as [Hx ?]).
  destruct x as [|c x]; [reflexivity|]. simpl in *.
  apply andb_prop in H as [Hc _]. now apply negb_true_iff in Hc.
Qed.

Lemma valid_name_step (stack : list string) (x : string) :
  valid_name x = true -> PosixPath.norm_step stack x = stack ++ [x].
Proof.
  unfold valid_name, PosixPath.norm_step. intros Hx.
  repeat (apply andb_prop in Hx; destruct Hx as [Hx ?]).
  apply negb_true_iff in Hx, H1, H0. now rewrite Hx, H1, H0.
Qed.

Lemma valid_name_split (x : string) :
  valid_name x = true -> PosixPath.split x = [x].
Proof.
  unfold valid_name. intros Hx. apply andb_prop in Hx as [_ Hx].
  now apply split_no_slash.
Qed.

(** Joining a valid name to a non-empty path adds one component. *)
Lemma split_join (top x : string) :
  top <> "" -> valid_name x = true ->
  exists comps,
    PosixPath.split (PosixPath.join top x) = comps ++ [x] /\
    forall init, fold_left PosixPath.norm_step comps init
                 = fold_left PosixPath.norm_step (PosixPath.split top) init.
Proof.
  intros Htop Hx. unfold PosixPath.join.
  rewrite (valid_name_no_leading_slash _ Hx).
  destruct (String.eqb_spec top ""); [contradiction|]. cbn [orb].
  destruct (PosixPath.endswith_slash top) eqn:Hend.
  - destruct (endswith_slash_inv _ Hend) as (a & ->).
    exists (PosixPath.split a). split.
    + rewrite string_app_assoc. cbn [String.append].
      change (String "/" x) with (String PosixPath.slash x).
      now rewrite split_slash_app, (valid_name_split _ Hx).
    + intros init. change "/" with (String PosixPath.slash "").
      rewrite split_slash_app. cbn [PosixPath.split].
      now rewrite fold_left_app.
  - exists (PosixPath.split top). split; [|reflexivity].
    cbn [String.append]. change (String "/" x) with (String PosixPath.slash x).
    now rewrite split_slash_app, (valid_name_split _ Hx).
Qed.

Lemma isabs_join (top x : string) :
  top <> "" -> valid_name x = true ->
  PosixPath.isabs (PosixPath.join top x) = PosixPath.isabs top.
Proof.
  intros Htop Hx. unfold PosixPath.join, PosixPath.isabs.
  rewrite (valid_name_no_leading_slash _ Hx).
  destruct top as [|c top]; [contradiction|].
  destruct (_ || _)%bool; reflexivity.
Qed.

Lemma abs_components_join (cwd : list string) (top x : string) :
  top <> "" -> valid_name x = true ->
  PosixPath.abs_components cwd (PosixPath.join top x)
  = PosixPath.abs_components cwd top ++ [x].
Proof.
  intros Htop Hx. unfold PosixPath.abs_components.
  rewrite (isabs_join _ _ Htop Hx).
  destruct (split_join top x Htop Hx) as (comps & -> & Hfold).
  rewrite fold_left_app. cbn [fold_left]. rewrite Hfold.
  now apply valid_name_step.
Qed.

Lemma walk_as_walk_names (top : string) (n : node) :
  forall rel,
    Tree.walk (reported_root top rel) n
    = map (fun t : list string * list string * list string =>
             let '(r, ds, fs) := t in (reported_root top r, ds, fs))
          (walk_names rel n).
Proof.
  induction n as [data|es IH] using node_ind'; intros rel; [reflexivity|].
  cbn [Tree.walk walk_names map]. f_equal.
  induction es as [|[name child] es IHes]; [reflexivity|].
  inversion IH as [|? ? Hc Hes]; subst. cbn [snd] in Hc.
  rewrite map_app, <- (IHes Hes). f_equal.
  destruct child as [data|es']; [reflexivity|].
  rewrite <- Hc. unfold reported_root. now rewrite fold_left_app.
Qed.

Lemma reported_root_nonempty (top : string) (rel : list string) :
  top <> "" -> reported_root top rel <> "".
Proof.
  revert top. induction rel as [|x rel IH]; intros top Htop; [exact Htop|].
  apply IH. now apply join_nonempty.
Qed.

Lemma abs_components_reported_root (cwd : list string) :
  forall rel top,
    top <> "" -> valid_names rel ->
    PosixPath.abs_components cwd (reported_root top rel)
    = PosixPath.abs_components cwd top ++ rel.
Proof.
  induction rel as [|x rel IH]; intros top Htop Hrel.
  - now rewrite app_nil_r.
  - inversion Hrel; subst. cbn [reported_root fold_left].
    change (fold_left PosixPath.join rel (PosixPath.join top x))
      with (reported_root (PosixPath.join top x) rel).
    rewrite IH; [|now apply join_nonempty|assumption].
    rewrite abs_components_join by assumption. now rewrite <- app_assoc.
Qed.

Lemma strip_common_app (a p : list string) :
  PosixPath.strip_common a (a ++ p) = ([], p).
Proof.
  induction a as [|x a IH]; cbn [PosixPath.strip_common app].
  - now destruct p.
  - now rewrite String.eqb_refl.
Qed.

Lemma relpath_reported_root (cwd : list string) (top : string) (rel : list string) :
  top <> "" -> valid_names rel ->
  PosixPath.relpath cwd (reported_root top rel) top = relative_dir rel.
Proof.
  intros Htop Hrel. unfold PosixPath.relpath.
  rewrite abs_components_reported_root, strip_common_app by assumption.
  cbn [map app]. now destruct rel.
Qed.

Lemma well_named_dir (es : list (string * node)) :
  well_named (Dir es) = true ->
  Forall (fun e => valid_name (fst e) = true /\ well_named (snd e) = true) es.
Proof.
  induction es as [|[name child] es IH]; intros Hwn; constructor.
  - cbn in Hwn. apply andb_prop in Hwn as [Hwn _].
    apply andb_prop in Hwn as [Hn Hc]. now split.
  - apply IH. cbn in Hwn. apply andb_prop in Hwn as [_ Hwn]. exact Hwn.
Qed.

Lemma well_named_listing (es : list (string * node)) :
  well_named (Dir es) = true ->
  valid_names (dirnames es) /\ valid_names (filenames es).
Proof.
  intros Hwn. apply well_named_dir in Hwn.
  unfold valid_names, dirnames, filenames.
  split; apply Forall_map, Forall_forall; intros e He;
    apply filter_In in He as [He _];
    rewrite Forall_forall in Hwn; now apply Hwn.
Qed.

Lemma walk_names_valid (n : node) :
  well_named n = true ->
  forall rel, valid_names rel -> Forall valid_triple (walk_names rel n).
Proof.
  induction n as [data|es IH] using node_ind'; intros Hwn rel Hrel; [constructor|].
  cbn [walk_names]. constructor.
  - destruct (well_named_listing es Hwn). now repeat split.
  - apply well_named_dir in Hwn.
    induction es as [|[name child] es IHes]; [constructor|].
    inversion IH as [|? ? Hc Hes]; subst. cbn [snd] in Hc.
    inversion Hwn as [|? ? [Hname Hchild] Hwn']; subst. cbn [fst snd] in *.
    apply Forall_app. split; [|now apply IHes].
    destruct child as [data|es']; [constructor|].
    apply Hc; [exact Hchild|].
    apply Forall_app. split; [exact Hrel|]. now constructor.
Qed.

Lemma entry_of_snoc (r : list string) (x : string) :
  entry_of (r ++ [x]) = os_path_join (relative_dir r) x.
Proof. unfold entry_of. now rewrite removelast_last, last_last. Qed.

(** The entries of a well-named tree, by the names that lead to them. *)
Lemma entries_by_names (w : world) (folder_path : string) (n : node) :
  Os.stat_path w folder_path = Found n ->
  well_named n = true ->
  entries w folder_path
  = flat_map (fun t : list string * list string * list string =>
                let '(r, ds, fs) := t in
                map (fun x => entry_of (r ++ [x])) (fs ++ ds))
             (walk_names [] n).
Proof.
  intros Hstat Hwn. unfold entries. rewrite Hstat.
  assert (Htop : folder_path <> "").
  { intros ->. unfold Os.stat_path, Os.locate in Hstat. simpl in Hstat. discriminate. }
  change (Tree.walk folder_path n)
    with (Tree.walk (reported_root folder_path []) n).
  rewrite walk_as_walk_names.
  pose proof (walk_names_valid n Hwn [] (Forall_nil _)) as Hvalid.
  induction (walk_names [] n) as [|[[r ds] fs] ts IH]; [reflexivity|].
  inversion Hvalid as [|? ? (Hr & _ & _) Hts]; subst. cbn [fst] in Hr.
  cbn [map flat_map]. rewrite (IH Hts). f_equal.
  rewrite relpath_reported_root by assumption.
  apply map_ext. intros x. now rewrite entry_of_snoc.
Qed.

(** Every directory [os.walk] visits below the top is among the
    sub-directories listed for its parent. *)
Lemma walk_names_parent (n : node) :
  forall rel r ds fs,
    In (r, ds, fs) (walk_names rel n) ->
    r = rel \/
    exists r' z ds' fs',
      r = r' ++ [z] /\ In (r', ds', fs') (walk_names rel n) /\ In z ds'.
Proof.
  induction n as [data|es IH] using node_ind'; intros rel r ds fs Hin; [contradiction|].
  cbn [walk_names] in Hin. destruct Hin as [E|Hin]; [left; congruence|].
  right.
  assert (Hsub :
    exists name es', In (name, Dir es') es /\
                     In (r, ds, fs) (walk_names (rel ++ [name]) (Dir es'))).
  { clear IH. induction es as [|[name child] es IHes]; [contradiction|].
    apply in_app_or in Hin as [Hin|Hin].
    - destruct child as [data|es']; [contradiction|].
      exists name, es'. split; [now left|exact Hin].
    - destruct (IHes Hin) as (name' & es' & Hin' & Hw).
      exists name', es'. split; [now right|exact Hw]. }
  destruct Hsub as (name & es' & Hes & Hw).
  assert (Hincl : forall t, In t (walk_names (rel ++ [name]) (Dir es')) ->
                            In t (walk_names rel (Dir es))).
  { intros t Ht. cbn [walk_names]. right.
    clear - Hes Ht. induction es as [|[name' child] es IHes]; [contradiction|].
    destruct Hes as [E|Hes].
    - inversion E; subst. apply in_or_app. now left.
    - apply in_or_app. right. now apply IHes. }
  rewrite Forall_forall in IH.
  destruct (IH (name, Dir es') Hes (rel ++ [name]) r ds fs Hw)
    as [E|(r' & z & ds' & fs' & E & Hp & Hz)].
  - exists rel, name, (dirnames es), (filenames es). subst r.
    split; [reflexivity|]. split; [cbn [walk_names]; now left|].
    unfold dirnames. apply in_map_iff. exists (name, Dir es').
    split; [reflexivity|]. apply filter_In. now split.
  - exists r', z, ds', fs'. split; [exact E|]. split; [now apply Hincl|exact Hz].
Qed.

Lemma fold_norm_step_valid (p : list string) :
  valid_names p ->
  forall init, fold_left PosixPath.norm_step p init = init ++ p.
Proof.
  induction 1 as [|x p Hx Hp IH]; intros init; cbn [fold_left].
  - now rewrite app_nil_r.
  - rewrite (valid_name_step _ _ Hx), IH. now rewrite <- app_assoc.
Qed.

Lemma valid_name_nonempty (x : string) : valid_name x = true -> x <> "".
Proof.
  unfold valid_name. intros Hx ->. discriminate.
Qed.

Lemma split_unsplit (p : list string) :
  valid_names p -> p <> [] -> PosixPath.split (PosixPath.unsplit p) = p.
Proof.
  induction 1 as [|x p Hx Hp IH]; intros Hne; [contradiction|].
  destruct p as [|y p].
  - cbn [PosixPath.unsplit]. now apply valid_name_split.
  - change (PosixPath.unsplit (x :: y :: p))
      with (x ++ String PosixPath.slash (PosixPath.unsplit (y :: p)))%string.
    rewrite split_slash_app, (valid_name_split _ Hx), IH by discriminate.
    reflexivity.
Qed.

Lemma unsplit_relative (p : list string) :
  valid_names p -> p <> [] ->
  PosixPath.unsplit p <> "" /\ PosixPath.isabs (PosixPath.unsplit p) = false.
Proof.
  intros Hp Hne. destruct p as [|x p]; [contradiction|].
  inversion Hp as [|? ? Hx _]; subst.
  pose proof (valid_name_nonempty _ Hx) as Hx0.
  pose proof (valid_name_no_leading_slash _ Hx) as Hx1.
  unfold PosixPath.isabs.
  destruct p as [|y p]; cbn [PosixPath.unsplit].
  - now split.
  - destruct x as [|c x]; [contradiction|]. split; [discriminate|exact Hx1].
Qed.

Lemma relative_dir_nonempty (r : list string) :
  valid_names r -> relative_dir r <> "".
Proof.
  intros Hr. destruct r as [|x r]; [discriminate|].
  now apply unsplit_relative.
Qed.

Lemma abs_components_relative_dir (r : list string) :
  valid_names r -> PosixPath.abs_components [] (relative_dir r) = r.
Proof.
  intros Hr. destruct r as [|x r]; [reflexivity|].
  unfold relative_dir, PosixPath.abs_components.
  destruct (unsplit_relative (x :: r) Hr) as [_ ->]; [discriminate|].
  rewrite split_unsplit by (assumption || discriminate).
  now rewrite fold_norm_step_valid.
Qed.

(** An entry determines the names that lead to it. *)
Lemma abs_components_entry_of (r : list string) (x : string) :
  valid_names r -> valid_name x = true ->
  PosixPath.abs_components [] (entry_of (r ++ [x])) = r ++ [x].
Proof.
  intros Hr Hx. rewrite entry_of_snoc. unfold os_path_join.
  rewrite abs_components_join by (assumption || now apply relative_dir_nonempty).
  now rewrite abs_components_relative_dir.
Qed.

Lemma entry_of_injective (r r' : list string) (x x' : string) :
  valid_names r -> valid_name x = true ->
  valid_names r' -> valid_name x' = true ->
  entry_of (r ++ [x]) = entry_of (r' ++ [x']) -> r = r' /\ x = x'.
Proof.
  intros Hr Hx Hr' Hx' E.
  apply (f_equal (PosixPath.abs_components [])) in E.
  rewrite !abs_components_entry_of in E by assumption.
  now apply app_inj_tail.
Qed.

Lemma contains_In (items : list string) (item : string) :
  contains items item = true <-> In item items.
Proof.
  unfold contains. rewrite existsb_exists. split.
  - intros (x & Hx & E). apply String.eqb_eq in E. now subst.
  - intros Hin. exists item. split; [exact Hin|apply String.eqb_refl].
Qed.

(** The entries of a well-named tree are closed under taking the parent. *)
Lemma entries_parent_closed (w : world) (folder_path : string) (n : node)
      (p : list string) (name : string) :
  Os.stat_path w folder_path = Found n ->
  well_named n = true ->
  valid_names p -> p <> [] -> valid_name name = true ->
  In (entry_of (p ++ [name])) (entries w folder_path) ->
  In (entry_of p) (entries w folder_path).
Proof.
  intros Hstat Hwn Hp Hne Hname.
  rewrite (entries_by_names w folder_path n Hstat Hwn).
  rewrite !in_flat_map.
  intros ([[r ds] fs] & Ht & Hin).
  apply in_map_iff in Hin as (x & E & Hx).
  pose proof (walk_names_valid n Hwn [] (Forall_nil _)) as Hvalid.
  rewrite Forall_forall in Hvalid.
  destruct (Hvalid _ Ht) as (Hr & Hds & Hfs). cbn [fst snd] in *.
  assert (Hxv : valid_name x = true).
  { unfold valid_names in Hds, Hfs. apply in_app_or in Hx as [Hx|Hx];
      [rewrite Forall_forall in Hfs; now apply Hfs
      |rewrite Forall_forall in Hds; now apply Hds]. }
  destruct (entry_of_injective r p x name Hr Hxv Hp Hname E) as [-> ->].
  destruct (walk_names_parent n [] p ds fs Ht)
    as [E'|(r' & z & ds' & fs' & E' & Hparent & Hz)]; [contradiction|].
  exists (r', ds', fs'). split; [exact Hparent|].
  apply in_map_iff. exists z. split; [now rewrite E'|].
  apply in_or_app. now right.
Qed.

(** ** Frame properties of the runtime calls *)

Ltac runtime_simpl :=
  cbn [fst snd root cwd faults tamper log calls Os.set_root Os.record Os.emit
       forallb is_delete_call is_copy_call andb] in *.

Ltac runtime_cases :=
  repeat match goal with
    | |- context [match ?x with _ => _ end] =>
        lazymatch x with
        | context [match _ with _ => _ end] => fail
        | _ => destruct x; runtime_simpl
        end
    end.

Ltac runtime_done cs :=
  unfold same_env; runtime_simpl;
  repeat split; try reflexivity; try discriminate;
  try (exists cs; split; reflexivity);
  try (intros ? Hraised; inversion Hraised; eauto).

Lemma remove_runtime (p : string) : runtime_call is_delete_call (Os.remove p).
Proof.
  intros w. cbv beta delta [exec outcome Os.remove] zeta.
  runtime_cases; runtime_done [Remove p].
Qed.

Lemma rmtree_runtime (p : string) : runtime_call is_delete_call (Os.rmtree p).
Proof.
  intros w. cbv beta delta [exec outcome Os.rmtree] zeta.
  runtime_cases; runtime_done [Rmtree p].
Qed.

Lemma copytree_runtime (src dst : string) :
  runtime_call is_copy_call (Os.copytree src dst).
Proof.
  intros w. cbv beta delta [exec outcome Os.copytree] zeta.
  runtime_cases; runtime_done [Copytree src dst].
Qed.

Lemma copy2_runtime (src dst : string) :
  runtime_call is_copy_call (Os.copy2 src dst).
Proof.
  intros w.
  cbv beta delta [exec outcome Os.copy2 bind Os.read_binary Os.write_binary] zeta.
  runtime_cases; runtime_done [Copy2 src dst].
Qed.

(** A runtime call returns, or raises an [OSError]. *)
Lemma runtime_inv {A} (ok : call -> bool) (c : M A) (w : world) :
  runtime_call ok c ->
  (exists a w', c w = (Return a, w') /\ frame ok w w') \/
  (exists e w', c w = (Raise (OSError e), w') /\ frame ok w w').
Proof.
  intros R. destruct (R w) as (Henv & Hlog & Hcalls & Hval).
  unfold exec, outcome in *. destruct (c w) as [[a|e] w']; simpl in *.
  - left. exists a, w'. split; [reflexivity|]. unfold frame. auto.
  - right. destruct (Hval e eq_refl) as (error & ->).
    exists error, w'. split; [reflexivity|]. unfold frame. auto.
Qed.

(** Reading a file changes nothing. *)
Lemma read_binary_inv (p : string) (w : world) :
  (exists data, Os.read_binary p w = (Return data, w)) \/
  (exists e, Os.read_binary p w = (Raise (OSError e), w)).
Proof.
  cbv beta delta [Os.read_binary] zeta.
  runtime_cases; eauto.
Qed.

Lemma frame_refl (ok : call -> bool) (w : world) : frame ok w w.
Proof.
  unfold frame, same_env. repeat split. exists []. now rewrite app_nil_r.
Qed.

Lemma frame_emit (ok : call -> bool) (w w' : world) (line : string) :
  frame ok w w' ->
  same_env w (Os.emit line w') /\
  log (Os.emit line w') = (log w ++ [line])%list /\
  exists cs, calls (Os.emit line w') = (calls w ++ cs)%list /\ forallb ok cs = true.
Proof.
  intros (Henv & Hlog & Hcalls). unfold same_env in *. simpl.
  rewrite Hlog. repeat split; try apply Henv. exact Hcalls.
Qed.

(** Case analysis on the result of a runtime call [c w], given its frame
    property: a normal return, or an [OSError]. *)
Ltac use_runtime R :=
  let Henv := fresh "Henv" in
  let Hlog := fresh "Hlog" in
  let Hcalls := fresh "Hcalls" in
  let Hval := fresh "Hval" in
  let cs := fresh "cs" in
  let Hcs := fresh "Hcs" in
  let Hok := fresh "Hok" in
  destruct R as (Henv & Hlog & (cs & Hcs & Hok) & Hval);
  unfold exec, outcome in Henv, Hlog, Hcs, Hval;
  match type of Hval with
  | forall e, fst (?c ?w) = _ -> _ =>
      let r := fresh "r" in
      let w1 := fresh "w1" in
      let e := fresh "e" in
      let error := fresh "error" in
      destruct (c w) as [r w1]; simpl in Henv, Hlog, Hcs, Hval;
      destruct r as [[]|e];
      [ | destruct (Hval e eq_refl) as (error & ->); destruct error ];
      simpl; (repeat split);
      try exact Henv;
      try solve [destruct Henv as (? & ? & ?); assumption];
      try solve [rewrite Hlog; eauto];
      try solve [exists cs; split; assumption]
  end.

(** ** Single items *)

Section Items.

Context `{Hashlib}.

(** [delete_item] returns normally whatever the runtime does, emits
    exactly one log line, and calls nothing but [os.remove] or
    [shutil.rmtree]. *)
Lemma delete_item_total (item_path : string) (w : world) :
  outcome (delete_item item_path) w = Return tt /\
  same_env w (exec (delete_item item_path) w) /\
  (exists line, log (exec (delete_item item_path) w) = (log w ++ [line])%list) /\
  (exists cs, calls (exec (delete_item item_path) w) = (calls w ++ cs)%list
              /\ forallb is_delete_call cs = true).
Proof.
  cbv [delete_item try_except bind os_path_isfile os_path_isdir gets
       logging_info ret raise exec outcome].
  destruct (Os.is_file w item_path).
  - use_runtime (remove_runtime item_path w).
  - destruct (Os.is_dir w item_path).
    + use_runtime (rmtree_runtime item_path w).
    + simpl. repeat split; eauto. exists []. now rewrite app_nil_r.
Qed.

(** The reading loop ends on an empty read, not for lack of fuel: every
    fuel above the length of the file gives the same hash state. *)
Lemma read_loop_fuel (fuel1 : nat) :
  forall (fuel2 : nat) (file : content) (hash_md5 : hash_state),
    length file < fuel1 -> length file < fuel2 ->
    read_loop fuel1 file hash_md5 = read_loop fuel2 file hash_md5.
Proof.
  induction fuel1 as [|fuel1 IH]; intros fuel2 file h H1 H2; [lia|].
  destruct fuel2 as [|fuel2]; [lia|].
  cbn [read_loop]. set (k := 4096) in *.
  assert (Hk : 0 < k) by (unfold k; apply Nat.lt_0_succ).
  clearbody k.
  destruct file as [|b rest]; [now destruct k|].
  destruct k as [|k]; [lia|].
  cbn [firstn]. apply IH.
  - pose proof (length_skipn (S k) (b :: rest)). cbn [length] in *. lia.
  - pose proof (length_skipn (S k) (b :: rest)). cbn [length] in *. lia.
Qed.

Lemma calculate_md5_inv (file_path : string) (w : world) :
  (exists digest, calculate_md5 file_path w = (Return digest, w)) \/
  (exists e, calculate_md5 file_path w = (Raise (OSError e), w)).
Proof.
  cbv beta delta [calculate_md5 bind ret].
  destruct (read_binary_inv file_path w) as [(data & E)|(e & E)]; rewrite E; eauto.
Qed.

Ltac emitted F :=
  cbn [fst snd];
  match goal with
  | |- context [Os.emit ?line ?w1] =>
      destruct (frame_emit _ _ _ line F) as (? & ? & ?)
  end;
  repeat split; try assumption; try solve [apply F]; eauto.

(** [copy_item] returns normally whatever the runtime does, emits one log
    line when there is something to copy, and calls nothing but
    [shutil.copy2] or [shutil.copytree]. *)
Lemma copy_item_total (source_path replica_path : string) (w : world) :
  outcome (copy_item source_path replica_path) w = Return tt /\
  same_env w (exec (copy_item source_path replica_path) w) /\
  one_line_if (Os.is_file w source_path || Os.is_dir w source_path)
              (log w) (log (exec (copy_item source_path replica_path) w)) /\
  (exists cs, calls (exec (copy_item source_path replica_path) w) = (calls w ++ cs)%list
              /\ forallb is_copy_call cs = true).
Proof.
  cbv beta delta [copy_item try_except bind os_path_isfile os_path_isdir gets
                  logging_info ret raise exec outcome one_line_if].
  destruct (Os.is_file w source_path); cbn [orb].
  - destruct (runtime_inv _ _ w (copy2_runtime source_path replica_path))
      as [(a & w1 & E & F)|(e & w1 & E & F)]; rewrite E.
    + destruct (calculate_md5_inv source_path w1) as [(d1 & E1)|(e1 & E1)];
        rewrite E1.
      * destruct (calculate_md5_inv replica_path w1) as [(d2 & E2)|(e2 & E2)];
          rewrite E2.
        -- destruct (String.eqb d1 d2); emitted F.
        -- destruct e2; emitted F.
      * destruct e1; emitted F.
    + destruct e; emitted F.
  - destruct (Os.is_dir w source_path).
    + destruct (runtime_inv _ _ w (copytree_runtime source_path replica_path))
        as [(a & w1 & E & F)|(e & w1 & E & F)]; rewrite E.
      * emitted F.
      * destruct e; emitted F.
    + cbn [fst snd]. repeat split. exists []. now rewrite app_nil_r.
Qed.

End Items.

(** ** The two phases of a cycle *)

Lemma entries_record (c : call) (w : world) (folder_path : string) :
  entries (Os.record c w) folder_path = entries w folder_path.
Proof. reflexivity. Qed.

(** Folding steps that each keep the environment and extend the history by
    [ok] calls does the same as a whole. *)
Lemma fold_left_frame {A} (ok : call -> bool) (step : world -> A -> world) :
  (forall w x, same_env w (step w x) /\
               exists cs, calls (step w x) = (calls w ++ cs)%list
                          /\ forallb ok cs = true) ->
  forall xs w,
    same_env w (fold_left step xs w) /\
    exists cs, calls (fold_left step xs w) = (calls w ++ cs)%list
               /\ forallb ok cs = true.
Proof.
  intros Hstep xs. induction xs as [|x xs IH]; intros w; simpl.
  - split; [repeat split|]. exists []. now rewrite app_nil_r.
  - destruct (Hstep w x) as ((E1 & E2 & E3) & cs1 & Hc1 & Hok1).
    destruct (IH (step w x)) as ((F1 & F2 & F3) & cs2 & Hc2 & Hok2).
    split.
    + unfold same_env. rewrite F1, F2, F3. auto.
    + exists (cs1 ++ cs2)%list. rewrite Hc2, Hc1, <- app_assoc. split; [reflexivity|].
      rewrite forallb_app, Hok1, Hok2. reflexivity.
Qed.

Section Phases.

Context `{Hashlib}.

Lemma delete_phase_spec (source_folder replica_folder : string) (w : world) :
  delete_extra_items_from_replica source_folder replica_folder w
  = (Return tt,
     fold_left (delete_step replica_folder)
               (extra w source_folder replica_folder)
               (Os.record (Walk replica_folder)
                          (Os.record (Walk source_folder) w))).
Proof.
  unfold delete_extra_items_from_replica.
  rewrite (bind_return _ _ _ _ _ (walk_folder_content_spec source_folder w)).
  rewrite (bind_return _ _ _ _ _ (walk_folder_content_spec replica_folder _)).
  rewrite for_each_total.
  - f_equal. unfold extra. rewrite !entries_record.
    rewrite <- (fold_left_guarded
                  (fun item => negb (contains (entries w source_folder) item))
                  (delete_step replica_folder)).
    apply fold_left_ext. intros w' item.
    destruct (negb (contains (entries w source_folder) item)); reflexivity.
  - intros item w'. destruct (negb _); [|reflexivity].
    apply delete_item_total.
Qed.

Lemma copy_body_total (source_folder replica_folder item : string) (w : world) :
  outcome (isdir <- os_path_isdir (os_path_join source_folder item) ;;
           copy_item (os_path_join source_folder item)
                     (destination replica_folder item isdir)) w = Return tt.
Proof.
  unfold outcome, bind, os_path_isdir, gets.
  apply copy_item_total.
Qed.

Lemma copy_phase_spec (source_folder replica_folder : string) (w : world) :
  copy_new_from_source_to_replica source_folder replica_folder w
  = (Return tt,
     fold_left (copy_step source_folder replica_folder)
               (missing w source_folder replica_folder)
               (Os.record (Walk replica_folder)
                          (Os.record (Walk source_folder) w))).
Proof.
  unfold copy_new_from_source_to_replica.
  rewrite (bind_return _ _ _ _ _ (walk_folder_content_spec source_folder w)).
  rewrite (bind_return _ _ _ _ _ (walk_folder_content_spec replica_folder _)).
  rewrite for_each_total.
  - f_equal. unfold missing. rewrite !entries_record.
    rewrite <- (fold_left_guarded
                  (fun item => negb (contains (entries w replica_folder) item))
                  (copy_step source_folder replica_folder)).
    apply fold_left_ext. intros w' item.
    destruct (negb (contains (entries w replica_folder) item)); reflexivity.
  - intros item w'. destruct (negb _); [|reflexivity].
    apply copy_body_total.
Qed.

Lemma delete_steps_frame (replica_folder : string) (items : list string) (w : world) :
  same_env w (fold_left (delete_step replica_folder) items w) /\
  exists cs, calls (fold_left (delete_step replica_folder) items w)
             = (calls w ++ cs)%list /\ forallb is_delete_call cs = true.
Proof.
  apply fold_left_frame. intros w' item. unfold delete_step.
  destruct (delete_item_total (os_path_join replica_folder item) w')
    as (_ & Henv & _ & Hcalls). auto.
Qed.

Lemma copy_steps_frame (source_folder replica_folder : string)
      (items : list string) (w : world) :
  same_env w (fold_left (copy_step source_folder replica_folder) items w) /\
  exists cs, calls (fold_left (copy_step source_folder replica_folder) items w)
             = (calls w ++ cs)%list /\ forallb is_copy_call cs = true.
Proof.
  apply fold_left_frame. intros w' item. unfold copy_step.
  destruct (copy_item_total
              (os_path_join source_folder item)
              (destination replica_folder item
                 (Os.is_dir w' (os_path_join source_folder item))) w')
    as (_ & Henv & _ & Hcalls). auto.
Qed.

Lemma sync_cycle_spec (source_folder replica_folder : string) (w : world) :
  sync_cycle source_folder replica_folder w
  = (Return tt,
     exec (copy_new_from_source_to_replica source_folder replica_folder)
          (exec (delete_extra_items_from_replica source_folder replica_folder) w)).
Proof.
  unfold sync_cycle, bind, exec.
  rewrite delete_phase_spec. cbn [snd]. now rewrite copy_phase_spec.
Qed.

End Phases.

(** * The claims *)

Section Claims.

Context `{Hashlib}.

Lemma absent_is_neither (w : world) (p : string) :
  Os.path_exists w p = false ->
  Os.is_file w p = false /\ Os.is_dir w p = false.
Proof.
  unfold Os.path_exists, Os.is_file, Os.is_dir.
  destruct (Os.stat_path w p) as [[|]| |]; auto; discriminate.
Qed.

(** C5: for a path at which nothing exists, [delete_item] calls neither
    [os.remove] nor [shutil.rmtree], so no [FileNotFoundError] is raised,
    and the line it logs is the success line, not the not-found line. *)
Theorem delete_item_absent_logs_success (item_path : string) (w : world) :
  Os.path_exists w item_path = false ->
  delete_item item_path w
  = (Return tt,
     Os.emit ("[-] Item " ++ item_path ++ " removed successfully") w).
Proof.
  intros Habs. destruct (absent_is_neither _ _ Habs) as (Hf & Hd).
  cbv beta delta [delete_item try_except bind os_path_isfile os_path_isdir
                  gets logging_info ret].
  now rewrite Hf, Hd.
Qed.

(** C9: when the source path is neither a file nor a directory,
    [copy_item] returns normally and leaves the world as it was: tree,
    log and history. *)
Theorem copy_item_absent_source_noop (source_path replica_path : string)
        (w : world) :
  Os.is_file w source_path = false ->
  Os.is_dir w source_path = false ->
  copy_item source_path replica_path w = (Return tt, w).
Proof.
  intros Hf Hd.
  cbv beta delta [copy_item try_except bind os_path_isfile os_path_isdir
                  gets ret].
  now rewrite Hf, Hd.
Qed.

Lemma check_path_validity_spec (path : string) (w : world) :
  check_path_validity path w
  = if Os.is_dir w path then (Return tt, w)
    else (Raise (ValueError
                   (if Os.path_exists w path
                    then "'" ++ path ++ "' is not a valid folder path. "
                             ++ call_to_action
                    else "Folder '" ++ path ++ "' does not exist. "
                             ++ call_to_action)), w).
Proof.
  cbv beta delta [check_path_validity bind os_path_exists os_path_isdir
                  gets ret raise].
  unfold Os.path_exists, Os.is_dir.
  destruct (Os.stat_path w path) as [[|]| |] eqn:E;
    cbn [negb]; cbv beta; rewrite ?E; reflexivity.
Qed.

(** C6: when a root path does not exist or is not a directory,
    [sync_folders] returns after logging one line; the tree is untouched
    and the history is unchanged, so no tree was walked and no cycle ran. *)
Theorem sync_folders_invalid_root_aborts
        (more : nat) (source_folder replica_folder : string)
        (sync_interval : option Z) (w : world) :
  (Os.path_exists w source_folder = false \/ Os.is_dir w source_folder = false) \/
  (Os.path_exists w replica_folder = false \/ Os.is_dir w replica_folder = false) ->
  exists msg,
    sync_folders more source_folder replica_folder sync_interval w
    = (Return tt, Os.emit ("Error: " ++ msg) w) /\
    root (Os.emit ("Error: " ++ msg) w) = root w /\
    calls (Os.emit ("Error: " ++ msg) w) = calls w /\
    log (Os.emit ("Error: " ++ msg) w) = (log w ++ [("Error: " ++ msg)%string])%list.
Proof.
  intros Hbad.
  assert (Hdir : Os.is_dir w source_folder = false \/ Os.is_dir w replica_folder = false).
  { destruct Hbad as [[Ha|Ha]|[Ha|Ha]]; auto;
      apply absent_is_neither in Ha; tauto. }
  clear Hbad.
  unfold sync_folders. unfold bind at 1. unfold try_except.
  unfold bind at 1. rewrite check_path_validity_spec.
  destruct (Os.is_dir w source_folder) eqn:Hs.
  - unfold bind at 1. rewrite check_path_validity_spec.
    destruct Hdir as [Hd|Hd]; [discriminate|]. rewrite Hd.
    eexists. cbn. repeat split.
  - eexists. cbn. repeat split.
Qed.

Lemma copy2_calls (src dst : string) (w : world) :
  calls (exec (Os.copy2 src dst) w) = (calls w ++ [Copy2 src dst])%list.
Proof.
  cbv beta delta [exec Os.copy2 bind Os.read_binary Os.write_binary] zeta.
  runtime_cases; reflexivity.
Qed.

(** C7: after a file copy that succeeded, equal digests of source and
    destination are logged as integrity verified and unequal digests as
    integrity compromised; in both cases [copy_item] returns normally and
    the history holds the one [copy2] call: the copy is not repeated. *)
Theorem copy_item_integrity_signal
        (source_path replica_path : string) (w w1 : world)
        (source_md5 replica_md5 : string) :
  Os.is_file w source_path = true ->
  Os.copy2 source_path replica_path w = (Return tt, w1) ->
  calculate_md5 source_path w1 = (Return source_md5, w1) ->
  calculate_md5 replica_path w1 = (Return replica_md5, w1) ->
  let line :=
    if String.eqb source_md5 replica_md5
    then ("[+] Item " ++ source_path ++ " copied [Integrity verified]")%string
    else ("[!] Item " ++ source_path ++ " copied [Integrity compromised]")%string in
  copy_item source_path replica_path w = (Return tt, Os.emit line w1) /\
  calls (Os.emit line w1) = (calls w ++ [Copy2 source_path replica_path])%list.
Proof.
  intros Hf Hcopy Hs Hr line. split.
  - cbv beta delta [copy_item try_except bind os_path_isfile gets logging_info].
    rewrite Hf, Hcopy, Hs, Hr. subst line.
    destruct (String.eqb source_md5 replica_md5); reflexivity.
  - cbn [calls Os.emit].
    pose proof (copy2_calls source_path replica_path w) as Hc.
    unfold exec in Hc. now rewrite Hcopy in Hc.
Qed.

Lemma delete_item_failure_logged (item_path : string) (w w1 : world) (e : exn) :
  delete_fails item_path w e w1 ->
  exists line,
    delete_item item_path w = (Return tt, Os.emit line w1) /\
    failure_line line = true.
Proof.
  cbv beta delta [delete_item try_except bind os_path_isfile os_path_isdir
                  gets logging_info].
  intros [(Hf & E)|(Hf & Hd & E)].
  - destruct (runtime_inv _ _ w (remove_runtime item_path))
      as [(a & w' & E' & _)|(e' & w' & E' & _)]; rewrite E in E';
      inversion E'; subst.
    rewrite Hf, E. destruct e'; eexists; split; reflexivity.
  - destruct (runtime_inv _ _ w (rmtree_runtime item_path))
      as [(a & w' & E' & _)|(e' & w' & E' & _)]; rewrite E in E';
      inversion E'; subst.
    rewrite Hf, Hd, E. destruct e'; eexists; split; reflexivity.
Qed.

Lemma copy_item_failure_logged (source_path replica_path : string)
      (w w1 : world) (e : exn) :
  copy_fails source_path replica_path w e w1 ->
  exists line,
    copy_item source_path replica_path w = (Return tt, Os.emit line w1) /\
    failure_line line = true.
Proof.
  cbv beta delta [copy_item try_except bind os_path_isfile os_path_isdir
                  gets logging_info].
  intros [(Hf & E)|[(Hf & E & Hmd5)|(Hf & Hd & E)]].
  - destruct (runtime_inv _ _ w (copy2_runtime source_path replica_path))
      as [(a & w' & E' & _)|(e' & w' & E' & _)]; rewrite E in E';
      inversion E'; subst.
    rewrite Hf, E. destruct e'; eexists; split; reflexivity.
  - rewrite Hf, E. destruct Hmd5 as [E1|(digest & E1 & E2)].
    + destruct (calculate_md5_inv source_path w1) as [(d1 & E')|(e' & E')];
        rewrite E1 in E'; inversion E'; subst.
      rewrite E1. destruct e'; eexists; split; reflexivity.
    + destruct (calculate_md5_inv replica_path w1) as [(d2 & E')|(e' & E')];
        rewrite E2 in E'; inversion E'; subst.
      rewrite E1, E2. destruct e'; eexists; split; reflexivity.
  - destruct (runtime_inv _ _ w (copytree_runtime source_path replica_path))
      as [(a & w' & E' & _)|(e' & w' & E' & _)]; rewrite E in E';
      inversion E'; subst.
    rewrite Hf, Hd, E. destruct e'; eexists; split; reflexivity.
Qed.

(** [time.sleep] returns for an interval from 0 to [Os.sleep_max]. *)
Lemma sleep_ok (seconds : Z) (w : world) :
  (0 <= seconds <= Os.sleep_max)%Z ->
  Os.sleep seconds w = (Return tt, Os.record (Sleep seconds) w).
Proof.
  intros [Hlo Hhi]. unfold Os.sleep.
  assert (Hmax : (0 <= Os.sleep_max)%Z) by (unfold Os.sleep_max; lia).
  destruct (Z.ltb_spec seconds (- Os.sleep_max)); [lia|].
  destruct (Z.ltb_spec Os.sleep_max seconds); [lia|].
  destruct (Z.ltb_spec seconds 0); [lia|reflexivity].
Qed.

(** C8: a deletion or a copy that fails with an [OSError] is caught inside
    [delete_item] or [copy_item], which log a failure line and return
    normally; so the delete loop runs [delete_item] on every extra item and
    the copy loop runs [copy_item] on every missing item, and each of the
    two phases returns normally whatever failed in it. *)
Theorem item_failure_does_not_stop_the_cycle
        (source_folder replica_folder : string) (w : world) :
  let walked := Os.record (Walk replica_folder)
                          (Os.record (Walk source_folder) w) in
  delete_extra_items_from_replica source_folder replica_folder w
  = (Return tt,
     fold_left (delete_step replica_folder)
               (extra w source_folder replica_folder) walked) /\
  copy_new_from_source_to_replica source_folder replica_folder w
  = (Return tt,
     fold_left (copy_step source_folder replica_folder)
               (missing w source_folder replica_folder) walked) /\
  (forall item_path w0 e w1,
      delete_fails item_path w0 e w1 ->
      exists line,
        delete_item item_path w0 = (Return tt, Os.emit line w1) /\
        failure_line line = true) /\
  (forall source_path replica_path w0 e w1,
      copy_fails source_path replica_path w0 e w1 ->
      exists line,
        copy_item source_path replica_path w0 = (Return tt, Os.emit line w1) /\
        failure_line line = true).
Proof.
  cbv zeta. split; [apply delete_phase_spec|].
  split; [apply copy_phase_spec|].
  split; intros.
  - now apply delete_item_failure_logged with (e := e).
  - now apply copy_item_failure_logged with (e := e).
Qed.

Lemma calls_walked (source_folder replica_folder : string) (w : world) :
  calls (Os.record (Walk replica_folder) (Os.record (Walk source_folder) w))
  = (calls w ++ [Walk source_folder; Walk replica_folder])%list.
Proof. cbn [calls Os.record]. now rewrite <- app_assoc. Qed.

(** C10: a cycle walks both trees at the start of the delete phase and
    again at the start of the copy phase, with nothing but deletions in
    between and nothing but copies after; the items the copy phase copies
    are the missing entries of the world the deletions left. *)
Theorem cycle_walks_again_after_deleting
        (source_folder replica_folder : string) (w : world) :
  let w1 := exec (delete_extra_items_from_replica source_folder replica_folder) w in
  let w2 := exec (sync_cycle source_folder replica_folder) w in
  w2 = fold_left (copy_step source_folder replica_folder)
                 (missing w1 source_folder replica_folder)
                 (Os.record (Walk replica_folder)
                            (Os.record (Walk source_folder) w1)) /\
  exists deletions copies,
    calls w1 = (calls w ++ [Walk source_folder; Walk replica_folder]
                        ++ deletions)%list /\
    calls w2 = (calls w1 ++ [Walk source_folder; Walk replica_folder]
                         ++ copies)%list /\
    forallb is_delete_call deletions = true /\
    forallb is_copy_call copies = true.
Proof.
  cbv zeta.
  replace (exec (sync_cycle source_folder replica_folder) w)
    with (exec (copy_new_from_source_to_replica source_folder replica_folder)
               (exec (delete_extra_items_from_replica source_folder replica_folder) w))
    by (unfold exec at 3; now rewrite sync_cycle_spec).
  set (w1 := exec (delete_extra_items_from_replica source_folder replica_folder) w).
  unfold exec at 1. rewrite copy_phase_spec. cbn [snd].
  split; [reflexivity|].
  destruct (delete_steps_frame replica_folder
              (extra w source_folder replica_folder)
              (Os.record (Walk replica_folder) (Os.record (Walk source_folder) w)))
    as (_ & deletions & Hd & Hdok).
  destruct (copy_steps_frame source_folder replica_folder
              (missing w1 source_folder replica_folder)
              (Os.record (Walk replica_folder) (Os.record (Walk source_folder) w1)))
    as (_ & copies & Hc & Hcok).
  exists deletions, copies. repeat split; try assumption.
  - unfold w1, exec. rewrite delete_phase_spec. cbn [snd].
    rewrite Hd, calls_walked. now rewrite <- app_assoc.
  - unfold exec at 1. rewrite copy_phase_spec. cbn [snd].
    rewrite Hc, calls_walked. now rewrite <- app_assoc.
Qed.

Lemma assoc_set_entry (name : string) (new : node) (es : list (string * node)) :
  assoc name (set_entry name new es) = Some new.
Proof.
  induction es as [|[n c] es IH]; simpl.
  - now rewrite String.eqb_refl.
  - destruct (String.eqb n name) eqn:E; simpl; rewrite E; [reflexivity|exact IH].
Qed.

(** Putting a node where nothing was makes it the node found there. *)
Lemma stat_put_at (new : node) :
  forall l n, stat l n = Missing -> stat l (put_at l new n) = Found new.
Proof.
  induction l as [|x l IH]; intros n Hmiss; [discriminate|].
  destruct n as [data|es]; [discriminate|].
  destruct l as [|y l].
  - cbn [put_at stat]. now rewrite assoc_set_entry.
  - cbn [stat] in Hmiss. cbn [put_at stat]. rewrite assoc_set_entry.
    apply IH. destruct (assoc x es) as [c|]; [exact Hmiss|reflexivity].
Qed.

Lemma copytree_puts_subtree (source_path replica_path : string) (w0 w1 : world) :
  Os.copytree source_path replica_path w0 = (Return tt, w1) ->
  calls w1 = (calls w0 ++ [Copytree source_path replica_path])%list /\
  Os.stat_path w1 replica_path = Os.stat_path w0 source_path.
Proof.
  cbv beta delta [Os.copytree] zeta.
  rewrite !stat_path_record.
  change (Os.locate (Os.record (Copytree source_path replica_path) w0))
    with (Os.locate w0).
  unfold Os.stat_path. cbn [root faults Os.record].
  destruct (Os.locate w0 source_path) as [ls|]; [|discriminate].
  destruct (stat ls (root w0)) as [[data|es]| |]; try discriminate.
  destruct (Os.fault_at ls _); [discriminate|].
  destruct (Os.locate w0 replica_path) as [ld|] eqn:Hld; [|discriminate].
  destruct (stat ld (root w0)) as [[?|?]| |] eqn:Hmiss; try discriminate.
  destruct (Os.fault_at ld _); [discriminate|].
  intros E. inversion E; subst w1. split; [reflexivity|].
  change (Os.locate (Os.set_root ?r ?w) replica_path)
    with (Os.locate w0 replica_path).
  rewrite Hld. cbn [root Os.set_root Os.record].
  now apply stat_put_at.
Qed.

(** Whatever lies below a missing directory is missing as well. *)
Lemma below_missing_is_missing (w : world) (source_folder replica_folder : string)
      (p : list string) (name : string) :
  well_named_at w replica_folder = true ->
  valid_names p -> p <> [] -> valid_name name = true ->
  In (entry_of p) (missing w source_folder replica_folder) ->
  In (entry_of (p ++ [name])) (entries w source_folder) ->
  In (entry_of (p ++ [name])) (missing w source_folder replica_folder).
Proof.
  intros Hwn Hp Hne Hname Hd Hc. unfold missing in *.
  apply filter_In in Hd as [_ Hd]. apply filter_In. split; [exact Hc|].
  apply negb_true_iff in Hd. apply negb_true_iff.
  destruct (contains (entries w replica_folder) (entry_of (p ++ [name]))) eqn:E;
    [|reflexivity].
  apply contains_In in E. unfold well_named_at in Hwn.
  destruct (Os.stat_path w replica_folder) as [n| |] eqn:Hstat.
  - apply (entries_parent_closed w replica_folder n p name Hstat Hwn Hp Hne Hname)
      in E.
    apply contains_In in E. congruence.
  - unfold entries in E. now rewrite Hstat in E.
  - unfold entries in E. now rewrite Hstat in E.
Qed.

(** C3, as amended: when [copytree] returns for a missing directory, that
    one call has put the whole source subtree at the destination; the copy
    loop runs [copy_item] on every entry of the missing list; and every
    source entry below a missing directory is in that list too, so
    [copy_item] is run on it again, on its own. *)
Theorem missing_directory_is_one_copytree
        (source_folder replica_folder : string) (w : world) :
  (forall source_path replica_path w0 w1,
      Os.is_dir w0 source_path = true ->
      Os.copytree source_path replica_path w0 = (Return tt, w1) ->
      copy_item source_path replica_path w0
      = (Return tt,
         Os.emit ("[+] Item " ++ source_path ++ " copied to " ++ replica_path
                              ++ " successfully.") w1) /\
      calls w1 = (calls w0 ++ [Copytree source_path replica_path])%list /\
      Os.stat_path w1 replica_path = Os.stat_path w0 source_path) /\
  copy_new_from_source_to_replica source_folder replica_folder w
  = (Return tt,
     fold_left (copy_step source_folder replica_folder)
               (missing w source_folder replica_folder)
               (Os.record (Walk replica_folder)
                          (Os.record (Walk source_folder) w))) /\
  (forall p name,
      well_named_at w replica_folder = true ->
      valid_names p -> p <> [] -> valid_name name = true ->
      In (entry_of p) (missing w source_folder replica_folder) ->
      In (entry_of (p ++ [name])) (entries w source_folder) ->
      In (entry_of (p ++ [name])) (missing w source_folder replica_folder)).
Proof.
  split; [|split; [apply copy_phase_spec|intros; now apply below_missing_is_missing]].
  intros source_path replica_path w0 w1 Hd Hcopy.
  assert (Hf : Os.is_file w0 source_path = false).
  { unfold Os.is_dir in Hd. unfold Os.is_file.
    destruct (Os.stat_path w0 source_path) as [[|]| |]; congruence. }
  split; [|now apply copytree_puts_subtree].
  cbv beta delta [copy_item try_except bind os_path_isfile os_path_isdir
                  gets logging_info].
  now rewrite Hf, Hd, Hcopy.
Qed.

End Claims.

(** * The claims on concrete trees *)

Import Scenario.

(** With an absolute replica root the second join of the copy loop changes
    nothing: every missing entry goes to the replica root joined with its
    relative path. *)
Lemma destination_absolute_root (replica_folder item : string) (isdir : bool) :
  PosixPath.isabs replica_folder = true ->
  PosixPath.isabs item = false ->
  destination replica_folder item isdir = os_path_join replica_folder item.
Proof.
  intros Habs Hrel. unfold destination. destruct isdir; [|reflexivity].
  unfold os_path_join, PosixPath.join at 1.
  assert (Hj : PosixPath.startswith_slash (PosixPath.join replica_folder item) = true).
  { unfold PosixPath.join, PosixPath.isabs in *. rewrite Hrel.
    destruct replica_folder as [|c rest]; [discriminate|].
    destruct (_ || _)%bool; exact Habs. }
  now rewrite Hj.
Qed.

(** C4: with the relative replica root [r] the missing directory [d] of the
    source is not created at [r/d]: the destination is joined with the root
    twice, and the copy lands at [r/r/d]. *)
Theorem relative_replica_root_misplaces_directory :
  let w' := exec (sync_folders 0 "s" "r" None) new_dir in
  os_path_join "r" "./d" = "r/./d" /\
  destination "r" "./d" true = "r/r/./d" /\
  calls w' = [Walk "s"; Walk "r"; Walk "s"; Walk "r"; Copytree "s/./d" "r/r/./d"] /\
  Os.is_dir w' "r/d" = false /\
  Os.is_dir w' "r/r/d" = true.
Proof. vm_compute. repeat split. Qed.

(** C1: source = {d/}, replica = {}, both roots relative.  The cycle
    returns normally and logs no failure, yet the entries of the replica
    are not those of the source. *)
Theorem relative_replica_root_breaks_convergence :
  let w' := exec (sync_folders 0 "s" "r" None) new_dir in
  outcome (sync_folders 0 "s" "r" None) new_dir = Return tt /\
  log w' = ["[+] Item s/./d copied to r/r/./d successfully."] /\
  existsb failure_line (log w') = false /\
  entries w' "s" = ["./d"] /\
  entries w' "r" = ["./r"; "r/d"].
Proof. vm_compute. repeat split. Qed.

(** The same trees under absolute roots do converge. *)
Example absolute_roots_converge :
  let w' := exec (sync_folders 0 "/s" "/r" None) new_dir in
  entries w' "/s" = ["./d"] /\ entries w' "/r" = ["./d"].
Proof. vm_compute. repeat split. Qed.

(** C2: [p] is a file in the source and a directory in the replica.  The
    entry ["./p"] is in both walks, so the cycle neither removes the
    directory nor copies the file: it only empties the directory. *)
Theorem kind_change_keeps_the_directory :
  let w' := exec (sync_cycle "/s" "/r") kind_change in
  Os.is_file kind_change "/s/p" = true /\
  Os.is_dir kind_change "/r/p" = true /\
  entries kind_change "/s" = ["./p"] /\
  entries kind_change "/r" = ["./p"; "p/x"] /\
  calls w' = [Walk "/s"; Walk "/r"; Remove "/r/p/x"; Walk "/s"; Walk "/r"] /\
  Os.is_dir w' "/r/p" = true /\
  Os.is_file w' "/r/p" = false.
Proof. vm_compute. repeat split. Qed.

(** An entry that both walks report is neither extra nor missing, whatever
    kind of object it names on either side. *)
Lemma common_entry_untouched (w : world) (source_folder replica_folder item : string) :
  In item (entries w source_folder) ->
  In item (entries w replica_folder) ->
  ~ In item (extra w source_folder replica_folder) /\
  ~ In item (missing w source_folder replica_folder).
Proof.
  intros Hs Hr. unfold extra, missing. rewrite !filter_In.
  apply contains_In in Hs, Hr. rewrite Hs, Hr.
  split; intros [_ E]; discriminate.
Qed.

(** C5 in a run: the extra directory [old] is removed with its content, and
    the entry below it, which no longer exists when its turn comes, is
    logged as removed successfully without any call to the runtime. *)
Example child_of_removed_directory_logged_as_removed :
  let w' := exec (sync_cycle "/s" "/r") stale_dir in
  calls w' = [Walk "/s"; Walk "/r"; Rmtree "/r/./old"; Walk "/s"; Walk "/r"] /\
  log w' = ["[-] Item /r/./old removed successfully";
            "[-] Item /r/old/x removed successfully"].
Proof. vm_compute. repeat split. Qed.

(** C3, as stated, fails: source = {dir1/, dir1/b.txt}, replica = {}.  The
    file [dir1/b.txt] is delivered by the [copytree] of [dir1] and then
    again by a [copy2] of its own, both successful. *)
Lemma nested_file_is_copied_twice :
  let w' := exec (sync_cycle "/s" "/r") nested in
  calls w' = [Walk "/s"; Walk "/r"; Walk "/s"; Walk "/r";
              Copytree "/s/./dir1" "/r/./dir1";
              Copy2 "/s/dir1/b.txt" "/r/dir1/b.txt"] /\
  log w' = ["[+] Item /s/./dir1 copied to /r/./dir1 successfully.";
            "[+] Item /s/dir1/b.txt copied [Integrity verified]"] /\
  times_copied w' ["r"; "dir1"; "b.txt"] = 2.
Proof. vm_compute. repeat split. Qed.

(** ** Instances of the theorems with hypotheses *)

Lemma missing_directory_is_one_copytree_witness :
  (copy_item "/s/./dir1" "/r/./dir1" nested
   = (Return tt,
      Os.emit "[+] Item /s/./dir1 copied to /r/./dir1 successfully."
              (exec (Os.copytree "/s/./dir1" "/r/./dir1") nested)) /\
   Os.stat_path (exec (Os.copytree "/s/./dir1" "/r/./dir1") nested) "/r/./dir1"
   = Found (Dir [("b.txt", File (bytes "B"))])) /\
  (In "./dir1" (missing nested "/s" "/r") ->
   In "dir1/b.txt" (missing nested "/s" "/r")).
Proof.
  destruct (missing_directory_is_one_copytree "/s" "/r" nested)
    as (Hone & _ & Hbelow).
  split.
  - destruct (Hone "/s/./dir1" "/r/./dir1" nested
                   (exec (Os.copytree "/s/./dir1" "/r/./dir1") nested)
                   eq_refl eq_refl) as (E & _ & S).
    split; [exact E|]. rewrite S. reflexivity.
  - intros Hd.
    apply (Hbelow ["dir1"] "b.txt").
    + reflexivity.
    + repeat constructor.
    + discriminate.
    + reflexivity.
    + exact Hd.
    + vm_compute. right. left. reflexivity.
Defined.

Lemma delete_item_absent_logs_success_witness :
  Os.path_exists nested "/r/nope" = false /\
  delete_item "/r/nope" nested
  = (Return tt, Os.emit "[-] Item /r/nope removed successfully" nested).
Proof.
  split; [reflexivity|].
  exact (delete_item_absent_logs_success "/r/nope" nested eq_refl).
Defined.

Lemma copy_item_absent_source_noop_witness :
  copy_item "/s/nope" "/r/nope" nested = (Return tt, nested).
Proof.
  exact (copy_item_absent_source_noop "/s/nope" "/r/nope" nested eq_refl eq_refl).
Defined.

Lemma sync_folders_invalid_root_aborts_witness :
  exists msg,
    sync_folders 3 "/nope" "/r" (Some 60%Z) nested
    = (Return tt, Os.emit ("Error: " ++ msg) nested) /\
    root (Os.emit ("Error: " ++ msg) nested) = root nested /\
    calls (Os.emit ("Error: " ++ msg) nested) = calls nested /\
    log (Os.emit ("Error: " ++ msg) nested)
    = (log nested ++ [("Error: " ++ msg)%string])%list.
Proof.
  exact (sync_folders_invalid_root_aborts
           3 "/nope" "/r" (Some 60%Z) nested (or_introl (or_introl eq_refl))).
Defined.

Lemma copy_item_integrity_signal_witness :
  copy_item "/s/a.txt" "/r/a.txt" tampered
  = (Return tt,
     Os.emit "[!] Item /s/a.txt copied [Integrity compromised]"
             (exec (Os.copy2 "/s/a.txt" "/r/a.txt") tampered)) /\
  copy_item "/s/dir1/b.txt" "/r/b.txt" nested
  = (Return tt,
     Os.emit "[+] Item /s/dir1/b.txt copied [Integrity verified]"
             (exec (Os.copy2 "/s/dir1/b.txt" "/r/b.txt") nested)).
Proof.
  split.
  - exact (proj1 (copy_item_integrity_signal
                    "/s/a.txt" "/r/a.txt" tampered
                    (exec (Os.copy2 "/s/a.txt" "/r/a.txt") tampered)
                    "A" "X" eq_refl eq_refl eq_refl eq_refl)).
  - exact (proj1 (copy_item_integrity_signal
                    "/s/dir1/b.txt" "/r/b.txt" nested
                    (exec (Os.copy2 "/s/dir1/b.txt" "/r/b.txt") nested)
                    "B" "B" eq_refl eq_refl eq_refl eq_refl)).
Defined.

Lemma item_failure_does_not_stop_the_cycle_witness :
  (exists line,
      delete_item "/r/./old1" faulty
      = (Return tt, Os.emit line (exec (Os.remove "/r/./old1") faulty)) /\
      failure_line line = true) /\
  log (exec (sync_cycle "/s" "/r") faulty)
  = ["[!] Unable to delete /r/./old1: permission denied";
     "[-] Item /r/./old3 removed successfully";
     "[-] Item /r/./old2 removed successfully";
     "[!] Error copying item: [Errno 28] No space left on device";
     "[+] Item /s/./b.txt copied [Integrity verified]"].
Proof.
  split; [|reflexivity].
  destruct (item_failure_does_not_stop_the_cycle "/s" "/r" faulty)
    as (_ & _ & Hdel & _).
  apply (Hdel "/r/./old1" faulty (OSError (PermissionError "/r/./old1"))).
  left. split; reflexivity.
Defined.

(** * Further properties of the code *)

(** ** The log file and the hasher *)

Lemma join_absolute_first (a b : string) :
  PosixPath.isabs a = true -> PosixPath.isabs (PosixPath.join a b) = true.
Proof.
  unfold PosixPath.isabs, PosixPath.join. intros Ha.
  destruct (PosixPath.startswith_slash b) eqn:Hb; [exact Hb|].
  destruct a as [|c a]; [discriminate|].
  destruct (_ || _)%bool; exact Ha.
Qed.

(** X1: the log file path is absolute whenever the program folder is, for
    every name: an absolute name is kept, a relative one is put in the
    program folder. *)
Theorem get_log_file_path_is_absolute (project_folder log_file_name : string) :
  PosixPath.isabs project_folder = true ->
  PosixPath.isabs (get_log_file_path project_folder log_file_name) = true.
Proof.
  intros Hp. unfold get_log_file_path.
  destruct (PosixPath.isabs log_file_name) eqn:Hn; [exact Hn|].
  now apply join_absolute_first.
Qed.

(** X2: resolving a log file name twice is resolving it once. *)
Theorem get_log_file_path_idempotent (project_folder log_file_name : string) :
  PosixPath.isabs project_folder = true ->
  get_log_file_path project_folder (get_log_file_path project_folder log_file_name)
  = get_log_file_path project_folder log_file_name.
Proof.
  intros Hp. unfold get_log_file_path at 1.
  replace (PosixPath.isabs (get_log_file_path project_folder log_file_name))
    with true; [reflexivity|].
  unfold get_log_file_path.
  destruct (PosixPath.isabs log_file_name) eqn:Hn; [now rewrite Hn|].
  symmetry. now apply join_absolute_first.
Qed.

Section Hashing.

Context `{Hashlib}.

Lemma read_loop_streaming :
  streaming ->
  forall fuel file hash_md5,
    length file < fuel -> read_loop fuel file hash_md5 = update hash_md5 file.
Proof.
  intros [Happ Hnil]. induction fuel as [|fuel IH]; intros file h Hlen; [lia|].
  cbn [read_loop]. set (k := 4096) in *.
  assert (Hk : 0 < k) by (unfold k; apply Nat.lt_0_succ).
  clearbody k.
  destruct file as [|b rest]; [destruct k; now rewrite Hnil|].
  destruct k as [|k]; [lia|].
  cbn [firstn]. rewrite IH.
  - rewrite Happ. change (b :: firstn k rest) with (firstn (S k) (b :: rest)).
    now rewrite firstn_skipn.
  - pose proof (length_skipn (S k) (b :: rest)). cbn [length] in *. lia.
Qed.

(** X3: reading in chunks of 4096 bytes does not change the digest: for an
    incremental hash, [calculate_md5] returns the digest of the whole
    content of the file, and leaves the world as it was. *)
Theorem calculate_md5_is_digest_of_content
        (file_path : string) (w : world) (data : content) :
  streaming ->
  Os.read_binary file_path w = (Return data, w) ->
  calculate_md5 file_path w = (Return (hexdigest (update md5 data)), w).
Proof.
  intros Hs Hread. unfold calculate_md5, bind. rewrite Hread. unfold ret.
  now rewrite read_loop_streaming by (assumption || lia).
Qed.

(** X4: [calculate_md5] has no handler of its own: where nothing exists it
    raises [FileNotFoundError], on a directory [IsADirectoryError]; in
    every case the world is left as it was. *)
Theorem calculate_md5_errors (file_path : string) (w : world) :
  exec (calculate_md5 file_path) w = w /\
  (Os.stat_path w file_path = Missing ->
   outcome (calculate_md5 file_path) w = Raise (OSError (FileNotFoundError file_path))) /\
  (Os.is_dir w file_path = true ->
   outcome (calculate_md5 file_path) w = Raise (OSError (IsADirectoryError file_path))).
Proof.
  unfold exec, outcome. split.
  - destruct (calculate_md5_inv file_path w) as [(d & E)|(e & E)]; now rewrite E.
  - unfold calculate_md5, bind, Os.read_binary, Os.is_dir. split.
    + intros Hm. rewrite Hm. now destruct (Os.locate w file_path).
    + destruct (Os.stat_path w file_path) as [[|]| |]; try discriminate.
      intros _. now destruct (Os.locate w file_path).
Qed.

End Hashing.

(** ** Walking *)

Lemma listing_lengths (es : list (string * node)) :
  length (filenames es) + length (dirnames es) = length es.
Proof.
  unfold filenames, dirnames. rewrite !length_map.
  induction es as [|e es IH]; [reflexivity|].
  cbn [filter]. destruct (Tree.is_dir (snd e)); cbn [negb length]; lia.
Qed.

Lemma reported_app (a b : list (string * list string * list string)) :
  reported (a ++ b) = reported a + reported b.
Proof.
  induction a as [|t a IH]; [reflexivity|]. cbn [app reported fold_right] in *.
  fold (reported (a ++ b)). fold (reported a). lia.
Qed.

Lemma walk_reports_descendants (n : node) :
  forall top, reported (Tree.walk top n) = descendants n.
Proof.
  induction n as [data|es IH] using node_ind'; intros top; [reflexivity|].
  cbn [Tree.walk descendants reported fold_right fst snd].
  rewrite listing_lengths.
  match goal with
  | |- _ + fold_right _ 0 ?l = _ => change (fold_right _ 0 l) with (reported l)
  end.
  induction es as [|[name child] es IHes]; [reflexivity|].
  inversion IH as [|? ? Hc Hes]; subst. cbn [snd] in Hc.
  rewrite reported_app. cbn [length]. specialize (IHes Hes).
  destruct child as [data|es'].
  - cbn [reported fold_right descendants]. lia.
  - rewrite Hc. lia.
Qed.

(** X5: where every directory can be listed and the tree below the folder
    has no more levels than the recursion budget, [walk_folder_content]
    returns as many entries as there are files and directories below the
    folder, and changes neither the tree nor the log; for a path that is
    not a directory it returns no entry, as [os.walk] ignores the error of
    the listing. *)
Theorem walk_folder_content_lists_every_descendant
        (folder_path : string) (w : world) :
  (forall n,
      Os.stat_path w folder_path = Found n ->
      faults w = [] ->
      depth n <= recursion_budget ->
      exists items,
        walk_folder_content folder_path w
        = (Return items, Os.record (Walk folder_path) w) /\
        length items = descendants n) /\
  (Os.is_dir w folder_path = false ->
   walk_folder_content folder_path w
   = (Return [], Os.record (Walk folder_path) w)).
Proof.
  assert (Hcount : forall n,
             Os.stat_path w folder_path = Found n ->
             length (entries w folder_path) = descendants n).
  { intros n Hn. unfold entries. rewrite Hn.
    rewrite <- (walk_reports_descendants n folder_path).
    induction (Tree.walk folder_path n) as [|[[r ds] fs] ts IH]; [reflexivity|].
    cbn [flat_map reported fold_right fst snd]. fold (reported ts).
    rewrite length_app, length_map, length_app, IH. lia. }
  split.
  - intros n Hn _ _. exists (entries w folder_path).
    split; [apply walk_folder_content_spec|now apply Hcount].
  - intros Hdir. rewrite walk_folder_content_spec. f_equal. f_equal.
    unfold Os.is_dir in Hdir. unfold entries.
    destruct (Os.stat_path w folder_path) as [[data|es]| |];
      [reflexivity|discriminate|reflexivity|reflexivity].
Qed.

(** ** The calls of the two phases *)

Lemma remove_calls (p : string) (w : world) :
  calls (exec (Os.remove p) w) = calls w ++ [Remove p].
Proof.
  cbv beta delta [exec Os.remove] zeta. runtime_cases; reflexivity.
Qed.

Lemma rmtree_calls (p : string) (w : world) :
  calls (exec (Os.rmtree p) w) = calls w ++ [Rmtree p].
Proof.
  cbv beta delta [exec Os.rmtree] zeta. runtime_cases; reflexivity.
Qed.

Lemma copytree_calls (src dst : string) (w : world) :
  calls (exec (Os.copytree src dst) w) = calls w ++ [Copytree src dst].
Proof.
  cbv beta delta [exec Os.copytree] zeta. runtime_cases; reflexivity.
Qed.

Lemma fold_left_calls {A} (P : A -> call -> Prop) (step : world -> A -> world) :
  (forall w x, exists cs, calls (step w x) = calls w ++ cs /\ Forall (P x) cs) ->
  forall xs w,
    exists cs, calls (fold_left step xs w) = calls w ++ cs /\
               Forall (fun c => exists x, In x xs /\ P x c) cs.
Proof.
  intros Hstep xs. induction xs as [|x xs IH]; intros w; cbn [fold_left].
  - exists []. split; [now rewrite app_nil_r|constructor].
  - destruct (Hstep w x) as (cs1 & E1 & H1).
    destruct (IH (step w x)) as (cs2 & E2 & H2).
    exists (cs1 ++ cs2). split; [now rewrite E2, E1, app_assoc|].
    apply Forall_app. split.
    + eapply Forall_impl; [|exact H1]. intros c Hc. exists x. split; [now left|exact Hc].
    + eapply Forall_impl; [|exact H2]. intros c (y & Hy & Hc).
      exists y. split; [now right|exact Hc].
Qed.

Section PhaseCalls.

Context `{Hashlib}.

Lemma delete_item_calls (item_path : string) (w : world) :
  calls (exec (delete_item item_path) w)
  = calls w ++ (if Os.is_file w item_path then [Remove item_path]
                else if Os.is_dir w item_path then [Rmtree item_path]
                else []).
Proof.
  cbv beta delta [delete_item try_except bind os_path_isfile os_path_isdir
                  gets logging_info ret raise exec].
  destruct (Os.is_file w item_path).
  - pose proof (remove_calls item_path w) as Hc. unfold exec in Hc.
    destruct (Os.remove item_path w) as [[[]|[e|msg|msg'|]] w1]; cbn [snd] in *;
      try destruct e; exact Hc.
  - destruct (Os.is_dir w item_path).
    + pose proof (rmtree_calls item_path w) as Hc. unfold exec in Hc.
      destruct (Os.rmtree item_path w) as [[[]|[e|msg|msg'|]] w1]; cbn [snd] in *;
        try destruct e; exact Hc.
    + cbn [snd calls Os.emit]. now rewrite app_nil_r.
Qed.

Lemma copy_item_calls (source_path replica_path : string) (w : world) :
  calls (exec (copy_item source_path replica_path) w)
  = calls w ++ (if Os.is_file w source_path then [Copy2 source_path replica_path]
                else if Os.is_dir w source_path
                     then [Copytree source_path replica_path]
                     else []).
Proof.
  cbv beta delta [copy_item try_except bind os_path_isfile os_path_isdir
                  gets logging_info ret raise exec].
  destruct (Os.is_file w source_path).
  - pose proof (copy2_calls source_path replica_path w) as Hc. unfold exec in Hc.
    destruct (Os.copy2 source_path replica_path w) as [[[]|[e|msg|msg'|]] w1];
      cbn [snd] in *; try (destruct e; exact Hc); try exact Hc.
    destruct (calculate_md5_inv source_path w1) as [(d1 & E1)|(e1 & E1)];
      rewrite E1; [|destruct e1; exact Hc].
    destruct (calculate_md5_inv replica_path w1) as [(d2 & E2)|(e2 & E2)];
      rewrite E2; [|destruct e2; exact Hc].
    destruct (String.eqb d1 d2); exact Hc.
  - destruct (Os.is_dir w source_path).
    + pose proof (copytree_calls source_path replica_path w) as Hc.
      unfold exec in Hc.
      destruct (Os.copytree source_path replica_path w) as [[[]|[e|msg|msg'|]] w1];
        cbn [snd] in *; try destruct e; exact Hc.
    + cbn [snd]. now rewrite app_nil_r.
Qed.

(** X6: the delete phase walks the two trees and then calls nothing but
    [os.remove] and [shutil.rmtree], each on the replica folder joined with
    an extra entry: an entry the source walk reports is never deleted, and
    nothing is copied. *)
Theorem delete_phase_only_deletes_extra_entries
        (source_folder replica_folder : string) (w : world) :
  exists deletions,
    calls (exec (delete_extra_items_from_replica source_folder replica_folder) w)
    = calls w ++ [Walk source_folder; Walk replica_folder] ++ deletions /\
    Forall (fun c =>
              exists item,
                In item (entries w replica_folder) /\
                ~ In item (entries w source_folder) /\
                (c = Remove (os_path_join replica_folder item) \/
                 c = Rmtree (os_path_join replica_folder item)))
           deletions.
Proof.
  unfold exec. rewrite delete_phase_spec. cbn [snd].
  destruct (fold_left_calls
              (fun item c => c = Remove (os_path_join replica_folder item) \/
                             c = Rmtree (os_path_join replica_folder item))
              (delete_step replica_folder)) with
    (xs := extra w source_folder replica_folder)
    (w := Os.record (Walk replica_folder) (Os.record (Walk source_folder) w))
    as (cs & E & Hcs).
  - intros w' item. unfold delete_step. rewrite delete_item_calls.
    eexists. split; [reflexivity|].
    destruct (Os.is_file w' _); [constructor; [now left|constructor]|].
    destruct (Os.is_dir w' _); constructor; [now right|constructor].
  - exists cs. split.
    + rewrite E. cbn [calls Os.record]. now rewrite <- !app_assoc.
    + eapply Forall_impl; [|exact Hcs]. intros c (item & Hin & Hc).
      exists item. unfold extra in Hin. apply filter_In in Hin as [Hr Hs].
      split; [exact Hr|]. split; [|exact Hc].
      intros Hin. apply contains_In in Hin. rewrite Hin in Hs. discriminate.
Qed.

(** X7: the copy phase walks the two trees and then calls nothing but
    [shutil.copy2] and [shutil.copytree], each from the source folder
    joined with a missing entry: an entry the replica walk reports is never
    copied over, and nothing is deleted. *)
Theorem copy_phase_only_copies_missing_entries
        (source_folder replica_folder : string) (w : world) :
  exists copies,
    calls (exec (copy_new_from_source_to_replica source_folder replica_folder) w)
    = calls w ++ [Walk source_folder; Walk replica_folder] ++ copies /\
    Forall (fun c =>
              exists item,
                In item (entries w source_folder) /\
                ~ In item (entries w replica_folder) /\
                (c = Copy2 (os_path_join source_folder item)
                           (os_path_join replica_folder item) \/
                 c = Copytree (os_path_join source_folder item)
                              (os_path_join replica_folder
                                 (os_path_join replica_folder item))))
           copies.
Proof.
  unfold exec. rewrite copy_phase_spec. cbn [snd].
  destruct (fold_left_calls
              (fun item c =>
                 c = Copy2 (os_path_join source_folder item)
                           (os_path_join replica_folder item) \/
                 c = Copytree (os_path_join source_folder item)
                              (os_path_join replica_folder
                                 (os_path_join replica_folder item)))
              (copy_step source_folder replica_folder)) with
    (xs := missing w source_folder replica_folder)
    (w := Os.record (Walk replica_folder) (Os.record (Walk source_folder) w))
    as (cs & E & Hcs).
  - intros w' item. unfold copy_step. cbv zeta. rewrite copy_item_calls.
    eexists. split; [reflexivity|].
    destruct (Os.is_file w' _) eqn:Hf.
    + assert (Hd : Os.is_dir w' (os_path_join source_folder item) = false).
      { unfold Os.is_file in Hf. unfold Os.is_dir.
        destruct (Os.stat_path w' _) as [[|]| |]; congruence. }
      rewrite Hd. constructor; [now left|constructor].
    + destruct (Os.is_dir w' _); constructor; [now right|constructor].
  - exists cs. split.
    + rewrite E. cbn [calls Os.record]. now rewrite <- !app_assoc.
    + eapply Forall_impl; [|exact Hcs]. intros c (item & Hin & Hc).
      exists item. unfold missing in Hin. apply filter_In in Hin as [Hs Hr].
      split; [exact Hs|]. split; [|exact Hc].
      intros Hin. apply contains_In in Hin. rewrite Hin in Hr. discriminate.
Qed.

End PhaseCalls.

(** ** Trees that are already in sync *)

Lemma filter_none {A} (f : A -> bool) (l : list A) :
  (forall x, In x l -> f x = false) -> filter f l = [].
Proof.
  induction l as [|x l IH]; intros Hf; [reflexivity|].
  cbn [filter]. rewrite (Hf x) by now left.
  apply IH. intros y Hy. apply Hf. now right.
Qed.

Lemma no_extra (w : world) (source_folder replica_folder : string) :
  (forall item, In item (entries w replica_folder) ->
                In item (entries w source_folder)) ->
  extra w source_folder replica_folder = [].
Proof.
  intros Hincl. unfold extra. apply filter_none. intros item Hin.
  apply negb_false_iff, contains_In. now apply Hincl.
Qed.

Lemma no_missing (w : world) (source_folder replica_folder : string) :
  (forall item, In item (entries w source_folder) ->
                In item (entries w replica_folder)) ->
  missing w source_folder replica_folder = [].
Proof.
  intros Hincl. unfold missing. apply filter_none. intros item Hin.
  apply negb_false_iff, contains_In. now apply Hincl.
Qed.

Section InSync.

Context `{Hashlib}.

(** X8: when every entry of the replica is also an entry of the source,
    the delete phase deletes nothing and logs nothing: it only walks the
    two trees. *)
Theorem delete_phase_without_extra_entries
        (source_folder replica_folder : string) (w : world) :
  (forall item, In item (entries w replica_folder) ->
                In item (entries w source_folder)) ->
  delete_extra_items_from_replica source_folder replica_folder w
  = (Return tt,
     Os.record (Walk replica_folder) (Os.record (Walk source_folder) w)).
Proof.
  intros Hincl. rewrite delete_phase_spec. now rewrite no_extra.
Qed.

(** X9: when every entry of the source is also an entry of the replica,
    the copy phase copies nothing and logs nothing, whatever the files
    hold: it only walks the two trees. *)
Theorem copy_phase_without_missing_entries
        (source_folder replica_folder : string) (w : world) :
  (forall item, In item (entries w source_folder) ->
                In item (entries w replica_folder)) ->
  copy_new_from_source_to_replica source_folder replica_folder w
  = (Return tt,
     Os.record (Walk replica_folder) (Os.record (Walk source_folder) w)).
Proof.
  intros Hincl. rewrite copy_phase_spec. now rewrite no_missing.
Qed.

(** X10: a cycle over two trees with the same entries is four walks and
    nothing else: the tree and the log are left as they were. *)
Theorem cycle_over_equal_entries_changes_nothing
        (source_folder replica_folder : string) (w : world) :
  (forall item, In item (entries w source_folder) <->
                In item (entries w replica_folder)) ->
  let w' := exec (sync_cycle source_folder replica_folder) w in
  root w' = root w /\ log w' = log w /\
  calls w' = calls w ++ [Walk source_folder; Walk replica_folder;
                         Walk source_folder; Walk replica_folder].
Proof.
  intros Hsame. cbv zeta. unfold exec. rewrite sync_cycle_spec. cbn [snd].
  unfold exec.
  rewrite delete_phase_spec, no_extra by (intros; now apply Hsame).
  cbn [snd fold_left].
  rewrite copy_phase_spec, no_missing
    by (intros item; rewrite !entries_record; now apply Hsame).
  cbn [snd fold_left root log calls Os.record]. repeat split.
  now rewrite <- !app_assoc.
Qed.

End InSync.

(** ** The run *)

Lemma filter_by_kind (ok f : call -> bool) (cs : list call) :
  forallb ok cs = true ->
  (forall c, ok c = true -> f c = false) ->
  filter f cs = [].
Proof.
  intros Hok Hf. apply filter_none. intros c Hc.
  apply Hf. rewrite forallb_forall in Hok. now apply Hok.
Qed.

Section Run.

Context `{Hashlib}.

(** The history of one cycle: four walks and no sleep. *)
Lemma cycle_history (source_folder replica_folder : string) (w : world) :
  exists cs,
    calls (exec (sync_cycle source_folder replica_folder) w) = calls w ++ cs /\
    filter is_sleep_call cs = [] /\
    filter is_walk_call cs
    = [Walk source_folder; Walk replica_folder;
       Walk source_folder; Walk replica_folder].
Proof.
  unfold exec. rewrite sync_cycle_spec. cbn [snd]. unfold exec.
  rewrite delete_phase_spec. cbn [snd].
  set (w0 := Os.record (Walk replica_folder) (Os.record (Walk source_folder) w)).
  destruct (delete_steps_frame replica_folder
              (extra w source_folder replica_folder) w0)
    as (_ & ds & Hd & Hdok).
  set (w1 := fold_left (delete_step replica_folder)
                       (extra w source_folder replica_folder) w0) in *.
  rewrite copy_phase_spec. cbn [snd].
  set (w2 := Os.record (Walk replica_folder) (Os.record (Walk source_folder) w1)).
  destruct (copy_steps_frame source_folder replica_folder
              (missing w1 source_folder replica_folder) w2)
    as (_ & cs & Hc & Hcok).
  exists ([Walk source_folder; Walk replica_folder] ++ ds
          ++ [Walk source_folder; Walk replica_folder] ++ cs).
  split.
  - rewrite Hc. unfold w2. cbn [calls Os.record]. rewrite Hd.
    unfold w0. cbn [calls Os.record]. now rewrite <- !app_assoc.
  - rewrite !filter_app.
    rewrite (filter_by_kind is_delete_call is_sleep_call ds Hdok)
      by (now intros []).
    rewrite (filter_by_kind is_copy_call is_sleep_call cs Hcok)
      by (now intros []).
    rewrite (filter_by_kind is_delete_call is_walk_call ds Hdok)
      by (now intros []).
    rewrite (filter_by_kind is_copy_call is_walk_call cs Hcok)
      by (now intros []).
    split; reflexivity.
Qed.

Lemma sync_folders_valid (more : nat) (source_folder replica_folder : string)
      (sync_interval : option Z) (w : world) :
  Os.is_dir w source_folder = true ->
  Os.is_dir w replica_folder = true ->
  sync_folders more source_folder replica_folder sync_interval w
  = sync_loop more source_folder replica_folder sync_interval w.
Proof.
  intros Hs Hr. unfold sync_folders. unfold bind at 1. unfold try_except.
  unfold bind at 1. rewrite check_path_validity_spec, Hs.
  unfold bind at 1. rewrite check_path_validity_spec, Hr. reflexivity.
Qed.

(** With an interval the loop never returns normally, whatever the
    interval and however long the process lives. *)
Lemma sync_loop_never_returns (source_folder replica_folder : string)
      (seconds : Z) :
  forall more w,
    outcome (sync_loop more source_folder replica_folder (Some seconds)) w
    <> Return tt.
Proof.
  induction more as [|more IH]; intros w; unfold outcome;
    cbn [sync_loop]; unfold bind at 1; rewrite sync_cycle_spec;
    unfold bind at 1;
    destruct (Os.sleep seconds _) as [[[]|e] w1]; cbn [fst];
    try discriminate.
  apply IH.
Qed.

(** X11: with an interval, a run over two directories never returns
    normally, whatever the interval and however long the process lives:
    the loop has no exit, and only an exception ends it. *)
Theorem periodic_run_never_returns
        (more : nat) (source_folder replica_folder : string) (seconds : Z)
        (w : world) :
  Os.is_dir w source_folder = true ->
  Os.is_dir w replica_folder = true ->
  outcome (sync_folders more source_folder replica_folder (Some seconds)) w
  <> Return tt.
Proof.
  intros Hs Hr. unfold outcome. rewrite sync_folders_valid by assumption.
  apply sync_loop_never_returns.
Qed.

(** X12: the source is validated first.  The one line logged for an
    invalid source says that it does not exist, or that it is not a valid
    folder path, whatever the replica is; the replica is reported only
    when the source is a directory. *)
Theorem sync_folders_reports_first_invalid_root
        (more : nat) (source_folder replica_folder : string)
        (sync_interval : option Z) (w : world) :
  let run := sync_folders more source_folder replica_folder sync_interval w in
  let reported path :=
    (if Os.path_exists w path
     then "Error: '" ++ path ++ "' is not a valid folder path. " ++ call_to_action
     else "Error: Folder '" ++ path ++ "' does not exist. " ++ call_to_action)%string in
  (Os.is_dir w source_folder = false ->
   run = (Return tt, Os.emit (reported source_folder) w)) /\
  (Os.is_dir w source_folder = true -> Os.is_dir w replica_folder = false ->
   run = (Return tt, Os.emit (reported replica_folder) w)).
Proof.
  cbv zeta. split.
  - intros Hs. unfold sync_folders. unfold bind at 1. unfold try_except.
    unfold bind at 1. rewrite check_path_validity_spec, Hs.
    destruct (Os.path_exists w source_folder); reflexivity.
  - intros Hs Hr. unfold sync_folders. unfold bind at 1. unfold try_except.
    unfold bind at 1. rewrite check_path_validity_spec, Hs.
    unfold bind at 1. rewrite check_path_validity_spec, Hr.
    destruct (Os.path_exists w replica_folder); reflexivity.
Qed.

(** X13: without an interval a run over two directories is exactly one
    cycle, however long the process lives, and it never sleeps. *)
Theorem run_once_is_one_cycle
        (more : nat) (source_folder replica_folder : string) (w : world) :
  Os.is_dir w source_folder = true ->
  Os.is_dir w replica_folder = true ->
  sync_folders more source_folder replica_folder None w
  = sync_cycle source_folder replica_folder w /\
  exists cs,
    calls (exec (sync_folders more source_folder replica_folder None) w)
    = calls w ++ cs /\
    filter is_sleep_call cs = [] /\
    length (filter is_walk_call cs) = 4.
Proof.
  intros Hs Hr.
  assert (E : sync_folders more source_folder replica_folder None w
              = sync_cycle source_folder replica_folder w).
  { rewrite sync_folders_valid by assumption.
    destruct more; cbn [sync_loop]; unfold bind at 1;
      rewrite sync_cycle_spec; reflexivity. }
  split; [exact E|].
  destruct (cycle_history source_folder replica_folder w) as (cs & Hc & Hsl & Hw).
  exists cs. unfold exec in *. rewrite E. split; [exact Hc|].
  split; [exact Hsl|]. now rewrite Hw.
Qed.

Lemma sync_loop_history (source_folder replica_folder : string) (seconds : Z) :
  (0 <= seconds <= Os.sleep_max)%Z ->
  forall more w,
    exists cs,
      calls (exec (sync_loop more source_folder replica_folder (Some seconds)) w)
      = calls w ++ cs ++ [Sleep seconds] /\
      filter is_sleep_call cs = repeat (Sleep seconds) more /\
      length (filter is_walk_call cs) = 4 * S more.
Proof.
  intros Hseconds.
  induction more as [|more IH]; intros w;
    destruct (cycle_history source_folder replica_folder w) as (cs & Hc & Hsl & Hw);
    unfold exec in *; cbn [sync_loop]; unfold bind at 1;
    rewrite sync_cycle_spec in *; cbn [snd] in *; unfold bind at 1;
    rewrite sleep_ok by exact Hseconds.
  - exists cs. cbn [snd calls Os.record raise].
    split; [now rewrite Hc, app_assoc|].
    rewrite Hsl, Hw. split; reflexivity.
  - match goal with
    | |- context [sync_loop more _ _ _ ?w1] =>
        destruct (IH w1) as (cs' & Hc' & Hsl' & Hw')
    end.
    exists (cs ++ [Sleep seconds] ++ cs'). split.
    + rewrite Hc'. cbn [calls Os.record]. rewrite Hc. now rewrite <- !app_assoc.
    + rewrite !filter_app, Hsl, Hw, Hsl'. split; [reflexivity|].
      rewrite !length_app, Hw'. cbn [filter is_walk_call length]. lia.
Qed.

(** X14: with an interval that [time.sleep] accepts, from 0 to
    [Os.sleep_max] seconds, a run over two directories that is interrupted
    after [more] further cycles has walked the trees four times in each of
    its [more + 1] cycles and has slept the configured interval after every
    one of them: [more] times in between and once more at the end. *)
Theorem periodic_run_sleeps_after_every_cycle
        (more : nat) (source_folder replica_folder : string) (seconds : Z)
        (w : world) :
  (0 <= seconds <= Os.sleep_max)%Z ->
  Os.is_dir w source_folder = true ->
  Os.is_dir w replica_folder = true ->
  exists cs,
    calls (exec (sync_folders more source_folder replica_folder (Some seconds)) w)
    = calls w ++ cs ++ [Sleep seconds] /\
    filter is_sleep_call cs = repeat (Sleep seconds) more /\
    length (filter is_walk_call cs) = 4 * S more.
Proof.
  intros Hseconds Hs Hr. unfold exec. rewrite sync_folders_valid by assumption.
  now apply sync_loop_history.
Qed.

End Run.

(** ** What deleting and copying an item achieve *)

Lemma assoc_set_entry_other (x y : string) (new : node) (es : list (string * node)) :
  x <> y -> assoc y (set_entry x new es) = assoc y es.
Proof.
  intros Hxy. induction es as [|[n c] es IH]; cbn [set_entry assoc].
  - destruct (String.eqb_spec x y); [contradiction|reflexivity].
  - destruct (String.eqb_spec n x) as [->|Hn]; cbn [assoc].
    + destruct (String.eqb_spec x y); [contradiction|reflexivity].
    + now rewrite IH.
Qed.

Lemma assoc_remove_entry_other (x y : string) (es : list (string * node)) :
  x <> y -> assoc y (remove_entry x es) = assoc y es.
Proof.
  intros Hxy. induction es as [|[n c] es IH]; cbn [remove_entry assoc]; [reflexivity|].
  destruct (String.eqb_spec n x) as [->|Hn]; cbn [assoc].
  - destruct (String.eqb_spec x y); [contradiction|reflexivity].
  - now rewrite IH.
Qed.

Lemma assoc_absent (x : string) (es : list (string * node)) :
  existsb (String.eqb x) (map fst es) = false -> assoc x es = None.
Proof.
  induction es as [|[n c] es IH]; cbn [map fst existsb assoc]; [reflexivity|].
  intros Hx. apply orb_false_iff in Hx as [Hn Hx].
  rewrite String.eqb_sym, Hn. now apply IH.
Qed.

Lemma unique_names_dir (es : list (string * node)) (x : string) (c : node) :
  unique_names (Dir es) = true ->
  assoc x es = Some c ->
  unique_names c = true /\ assoc x (remove_entry x es) = None.
Proof.
  induction es as [|[n c'] es IH]; cbn [assoc remove_entry]; [discriminate|].
  intros Hu Hx. cbn in Hu. apply andb_prop in Hu as [Hu Hrest].
  apply andb_prop in Hu as [Hfresh Hc]. apply negb_true_iff in Hfresh.
  destruct (String.eqb_spec n x) as [->|Hn].
  - inversion Hx; subst. split; [exact Hc|now apply assoc_absent].
  - cbn [assoc]. destruct (String.eqb_spec n x); [contradiction|].
    now apply IH.
Qed.

(** Removing an object leaves nothing at its location. *)
Lemma stat_remove_at :
  forall l n found,
    unique_names n = true -> l <> [] -> stat l n = Found found ->
    stat l (remove_at l n) = Missing.
Proof.
  induction l as [|x l IH]; intros n found Hu Hne Hstat; [contradiction|].
  destruct n as [data|es]; [discriminate|].
  cbn [stat] in Hstat. destruct (assoc x es) as [c|] eqn:Hx; [|discriminate].
  destruct (unique_names_dir es x c Hu Hx) as [Hc Hgone].
  destruct l as [|y l].
  - cbn [remove_at stat]. now rewrite Hgone.
  - cbn [remove_at]. rewrite Hx. cbn [stat]. rewrite assoc_set_entry.
    now apply (IH c found).
Qed.

(** Removing or putting an object leaves every location that parts ways
    with it as it was. *)
Lemma stat_remove_at_other :
  forall l q n, diverge l q = true -> stat q (remove_at l n) = stat q n.
Proof.
  induction l as [|x l IH]; intros q n Hd; [discriminate|].
  destruct q as [|y q]; [discriminate|].
  destruct n as [data|es]; [now destruct l|].
  cbn [diverge] in Hd. destruct (String.eqb_spec x y) as [<-|Hxy].
  - destruct l as [|z l]; [discriminate|].
    cbn [remove_at]. destruct (assoc x es) as [c|] eqn:Hx; [|reflexivity].
    cbn [stat]. rewrite assoc_set_entry, Hx. now apply IH.
  - destruct l as [|z l]; cbn [remove_at].
    + cbn [stat]. now rewrite assoc_remove_entry_other.
    + destruct (assoc x es) as [c|]; [|reflexivity].
      cbn [stat]. now rewrite assoc_set_entry_other.
Qed.

Lemma diverge_nonempty (l q : loc) : diverge l q = true -> q <> [].
Proof. destruct l, q; cbn; congruence. Qed.

Lemma put_at_below (x z : string) (l : loc) (new : node) (es : list (string * node)) :
  put_at (x :: z :: l) new (Dir es)
  = Dir (set_entry x
           (put_at (z :: l) new
                   (match assoc x es with Some c => c | None => Dir [] end))
           es).
Proof. reflexivity. Qed.

Lemma stat_put_at_other (new : node) :
  forall l q n, diverge l q = true -> stat q (put_at l new n) = stat q n.
Proof.
  induction l as [|x l IH]; intros q n Hd; [discriminate|].
  destruct q as [|y q]; [discriminate|].
  destruct n as [data|es]; [now destruct l|].
  cbn [diverge] in Hd. destruct (String.eqb_spec x y) as [<-|Hxy].
  - destruct l as [|z l]; [discriminate|].
    rewrite put_at_below. cbn [stat]. rewrite assoc_set_entry.
    rewrite IH by assumption.
    destruct (assoc x es) as [c|]; [reflexivity|].
    pose proof (diverge_nonempty _ _ Hd) as Hq.
    destruct q; [contradiction|reflexivity].
  - destruct l as [|z l]; [|rewrite put_at_below]; cbn [put_at stat];
      now rewrite assoc_set_entry_other.
Qed.

Lemma diverge_not_equal (a b : loc) : diverge a b = true -> loc_eqb a b = false.
Proof.
  revert b. induction a as [|x a IH]; intros [|y b] Hd; try discriminate.
  cbn in *. destruct (String.eqb x y); [now apply IH|reflexivity].
Qed.

(** A file and a free location part ways. *)
Lemma file_and_missing_diverge :
  forall a b n data,
    stat a n = Found (File data) -> stat b n = Missing -> diverge a b = true.
Proof.
  induction a as [|x a IH]; intros b n data Ha Hb.
  - cbn in Ha. inversion Ha; subst. destruct b; discriminate.
  - destruct n as [d|es]; [discriminate|].
    destruct b as [|y b]; [discriminate|].
    cbn [stat] in Ha, Hb. cbn [diverge].
    destruct (String.eqb_spec x y) as [<-|]; [|reflexivity].
    destruct (assoc x es) as [c|]; [|discriminate].
    now apply (IH b c data).
Qed.

Lemma diverge_sym (a b : loc) : diverge a b = diverge b a.
Proof.
  revert b. induction a as [|x a IH]; intros [|y b]; try reflexivity.
  cbn. rewrite (String.eqb_sym y x). destruct (String.eqb x y); [apply IH|reflexivity].
Qed.

Lemma remove_ok (p : string) (w : world) (l : loc) (data : content) :
  Os.locate w p = Some l ->
  stat l (root w) = Found (File data) ->
  Os.fault_at l (faults w) = None ->
  Os.remove p w
  = (Return tt, Os.set_root (remove_at l (root w)) (Os.record (Remove p) w)).
Proof.
  intros Hl Hs Hf. cbv beta delta [Os.remove] zeta.
  rewrite stat_path_record. unfold Os.stat_path.
  change (Os.locate (Os.record (Remove p) w)) with (Os.locate w).
  cbn [faults root Os.record]. now rewrite Hl, Hs, Hf.
Qed.

(** Where nothing fails at or below [l], the object at [l] goes whole. *)
Lemma rm_node_clear (fs : list (loc * os_error)) (n : node) :
  forall l,
    (forall q, Os.fault_at (l ++ q) fs = None) -> Os.rm_node fs l n = None.
Proof.
  induction n as [data|es IH] using node_ind'; intros l Hclear;
    pose proof (Hclear []) as Htop; rewrite app_nil_r in Htop;
    cbn [Os.rm_node]; rewrite Htop; [reflexivity|].
  induction es as [|[name child] es IHes]; [reflexivity|].
  inversion IH as [|? ? Hc Hes]; subst. cbn [snd] in Hc.
  rewrite (Hc (l ++ [name])%list).
  - now apply IHes.
  - intros q. rewrite <- app_assoc. apply Hclear.
Qed.

(** A directory holding an entry that cannot be removed: [shutil.rmtree]
    removes what comes before it in the listing and raises its error. *)
Example rmtree_stops_at_the_first_failure :
  let tree old := Dir [("r", Dir [("old", Dir old)])] in
  let w := mkWorld (tree [("a", File []); ("b", File []); ("c", File [])]) []
                   [(["r"; "old"; "b"], PermissionError "/r/old/b")] [] [] [] in
  Os.rmtree "/r/old" w
  = (Raise (OSError (PermissionError "/r/old/b")),
     Os.set_root (tree [("b", File []); ("c", File [])])
                 (Os.record (Rmtree "/r/old") w)).
Proof. reflexivity. Qed.

Lemma rmtree_ok (p : string) (w : world) (l : loc) (es : list (string * node)) :
  Os.locate w p = Some l -> l <> [] ->
  stat l (root w) = Found (Dir es) ->
  (forall q, Os.fault_at (l ++ q) (faults w) = None) ->
  Os.rmtree p w
  = (Return tt, Os.set_root (remove_at l (root w)) (Os.record (Rmtree p) w)).
Proof.
  intros Hl Hne Hs Hf. cbv beta delta [Os.rmtree] zeta.
  rewrite stat_path_record. unfold Os.stat_path.
  change (Os.locate (Os.record (Rmtree p) w)) with (Os.locate w).
  pose proof (Hf []) as Htop. rewrite app_nil_r in Htop.
  cbn [faults root Os.record]. rewrite Hl, Hs, Htop.
  rewrite (rm_node_clear (faults w) (Dir es) l Hf).
  destruct l; [contradiction|reflexivity].
Qed.

Section ItemsDone.

Context `{Hashlib}.

(** X15: [delete_item] on an existing file or directory, where nothing
    fails at the object or below it and the object has no more levels than
    the recursion budget, removes it: the call returns normally, logs the
    success line, the path no longer exists, and every location that parts
    ways with it is as it was. *)
Theorem delete_item_removes_the_object
        (item_path : string) (w : world) (l : loc) (found : node) :
  Os.locate w item_path = Some l -> l <> [] ->
  stat l (root w) = Found found ->
  (forall q, Os.fault_at (l ++ q) (faults w) = None) ->
  depth found <= recursion_budget ->
  unique_names (root w) = true ->
  let w' := exec (delete_item item_path) w in
  outcome (delete_item item_path) w = Return tt /\
  log w' = log w ++ [("[-] Item " ++ item_path ++ " removed successfully")%string] /\
  Os.path_exists w' item_path = false /\
  (forall q, diverge l q = true -> stat q (root w') = stat q (root w)).
Proof.
  intros Hl Hne Hs Hf _ Hu. cbv zeta.
  pose proof (Hf []) as Htop. rewrite app_nil_r in Htop.
  assert (Hdone :
    delete_item item_path w
    = (Return tt,
       Os.emit ("[-] Item " ++ item_path ++ " removed successfully")
               (Os.set_root (remove_at l (root w))
                  (Os.record (match found with
                              | File _ => Remove item_path
                              | Dir _ => Rmtree item_path
                              end) w)))).
  { assert (Hfile : Os.is_file w item_path
                      = match found with File _ => true | Dir _ => false end).
    { unfold Os.is_file, Os.stat_path. now rewrite Hl, Hs. }
    assert (Hdir : Os.is_dir w item_path
                     = match found with File _ => false | Dir _ => true end).
    { unfold Os.is_dir, Os.stat_path. now rewrite Hl, Hs. }
    cbv beta iota delta [delete_item try_except bind os_path_isfile os_path_isdir
                         gets logging_info].
    rewrite Hfile. destruct found as [data|es]; cbv beta iota.
    - now rewrite (remove_ok item_path w l data Hl Hs Htop).
    - rewrite Hdir. cbv beta iota.
      now rewrite (rmtree_ok item_path w l es Hl Hne Hs Hf). }
  unfold exec, outcome. rewrite Hdone. cbn [fst snd log Os.emit Os.set_root].
  split; [reflexivity|]. split; [now destruct found|].
  split.
  - unfold Os.path_exists, Os.stat_path.
    change (Os.locate (Os.emit _ _) item_path) with (Os.locate w item_path).
    rewrite Hl. cbn [root Os.emit Os.set_root].
    now rewrite (stat_remove_at l (root w) found Hu Hne Hs).
  - intros q Hq. cbn [root]. now apply stat_remove_at_other.
Qed.

Lemma digest_of_file (file_path : string) (w : world) (l : loc) (data : content) :
  Os.locate w file_path = Some l ->
  stat l (root w) = Found (File data) ->
  Os.fault_at l (faults w) = None ->
  calculate_md5 file_path w
  = (Return (hexdigest (read_loop (S (length data)) data md5)), w).
Proof.
  intros Hl Hs Hf. unfold calculate_md5, bind, Os.read_binary, Os.stat_path.
  now rewrite Hl, Hs, Hf.
Qed.

(** X16: [copy_item] on a file, towards a free name in an existing
    directory, in an environment that neither fails nor alters the copy:
    the call returns normally and logs integrity verified; the destination
    is then a file with the bytes of the source, the source is as it was,
    and so is every location that parts ways with the destination. *)
Theorem copy_item_copies_a_file
        (source_path replica_path : string) (w : world) (ls ld : loc)
        (data : content) (siblings : list (string * node)) :
  Os.locate w source_path = Some ls ->
  stat ls (root w) = Found (File data) ->
  Os.locate w replica_path = Some ld ->
  stat ld (root w) = Missing ->
  stat (removelast ld) (root w) = Found (Dir siblings) ->
  Os.fault_at ls (faults w) = None ->
  Os.fault_at ld (faults w) = None ->
  Os.tamper_at ld (tamper w) = None ->
  let w' := exec (copy_item source_path replica_path) w in
  outcome (copy_item source_path replica_path) w = Return tt /\
  log w' = log w ++ [("[+] Item " ++ source_path
                        ++ " copied [Integrity verified]")%string] /\
  Os.stat_path w' replica_path = Found (File data) /\
  Os.stat_path w' source_path = Found (File data) /\
  (forall q, diverge ld q = true -> stat q (root w') = stat q (root w)).
Proof.
  intros Hls Hs Hld Hd Hparent Hfs Hfd Ht. cbv zeta.
  pose proof (file_and_missing_diverge ls ld (root w) data Hs Hd) as Hdiv.
  set (w1 := Os.set_root (put_at ld (File data) (root w))
                         (Os.record (Copy2 source_path replica_path) w)).
  assert (Hcopy : Os.copy2 source_path replica_path w = (Return tt, w1)).
  { cbv beta delta [Os.copy2 bind Os.read_binary Os.write_binary] zeta.
    unfold Os.is_dir, Os.path_exists. rewrite !stat_path_record.
    unfold Os.stat_path.
    change (Os.locate (Os.record (Copy2 source_path replica_path) w))
      with (Os.locate w).
    cbn [faults tamper root Os.record].
    rewrite Hld, Hd, Hls, Hs. cbv beta iota. rewrite Hld.
    rewrite (diverge_not_equal _ _ Hdiv). cbn [andb]. rewrite Hfs.
    cbv beta iota.
    change (Os.locate (Os.record (Copy2 source_path replica_path) w))
      with (Os.locate w).
    cbn [faults tamper root Os.record].
    now rewrite Hld, Ht, Hfd, Hd, Hparent. }
  assert (Hdst : stat ld (root w1) = Found (File data)).
  { unfold w1. cbn [root Os.set_root]. now apply stat_put_at. }
  assert (Hsrc : stat ls (root w1) = Found (File data)).
  { unfold w1. cbn [root Os.set_root Os.record].
    rewrite stat_put_at_other; [exact Hs|]. now rewrite diverge_sym. }
  assert (Hdone :
    copy_item source_path replica_path w
    = (Return tt,
       Os.emit ("[+] Item " ++ source_path ++ " copied [Integrity verified]") w1)).
  { cbv beta delta [copy_item try_except bind os_path_isfile gets logging_info].
    unfold Os.is_file at 1. unfold Os.stat_path at 1. rewrite Hls, Hs, Hcopy.
    rewrite (digest_of_file source_path w1 ls data) by assumption.
    rewrite (digest_of_file replica_path w1 ld data) by assumption.
    now rewrite String.eqb_refl. }
  unfold exec, outcome. rewrite Hdone. cbn [fst snd log Os.emit].
  split; [reflexivity|]. split; [reflexivity|].
  unfold Os.stat_path.
  change (Os.locate (Os.emit _ _)) with (Os.locate w).
  rewrite Hld, Hls. cbn [root Os.emit].
  split; [exact Hdst|]. split; [exact Hsrc|].
  intros q Hq. unfold w1. cbn [root Os.set_root Os.record].
  now apply stat_put_at_other.
Qed.

(** X17: [copy_item] on a directory, towards a location where nothing
    exists and that does not lie in the source directory, in an environment
    in which nothing fails and nothing copied is altered, for a source of
    no more levels than the recursion budget: the call returns normally and
    logs the success line; the destination, with any missing parent, is
    then a directory with the whole listing of the source, and every
    location that parts ways with the destination is as it was. *)
Theorem copy_item_copies_a_directory
        (source_path replica_path : string) (w : world) (ls ld : loc)
        (listing : list (string * node)) :
  Os.locate w source_path = Some ls ->
  stat ls (root w) = Found (Dir listing) ->
  Os.locate w replica_path = Some ld ->
  stat ld (root w) = Missing ->
  is_prefix ls ld = false ->
  faults w = [] ->
  tamper w = [] ->
  depth (Dir listing) <= recursion_budget ->
  let w' := exec (copy_item source_path replica_path) w in
  outcome (copy_item source_path replica_path) w = Return tt /\
  log w' = log w ++ [("[+] Item " ++ source_path ++ " copied to "
                        ++ replica_path ++ " successfully.")%string] /\
  Os.stat_path w' replica_path = Found (Dir listing) /\
  (forall q, diverge ld q = true -> stat q (root w') = stat q (root w)).
Proof.
  intros Hls Hs Hld Hd _ Hf _ _. cbv zeta.
  assert (Hfs : Os.fault_at ls (faults w) = None) by now rewrite Hf.
  assert (Hfd : Os.fault_at ld (faults w) = None) by now rewrite Hf.
  set (w1 := Os.set_root (put_at ld (Dir listing) (root w))
                         (Os.record (Copytree source_path replica_path) w)).
  assert (Hcopy : Os.copytree source_path replica_path w = (Return tt, w1)).
  { cbv beta delta [Os.copytree] zeta. rewrite !stat_path_record.
    unfold Os.stat_path.
    change (Os.locate (Os.record (Copytree source_path replica_path) w))
      with (Os.locate w).
    cbn [faults root Os.record]. now rewrite Hls, Hs, Hfs, Hld, Hd, Hfd. }
  assert (Hdone :
    copy_item source_path replica_path w
    = (Return tt,
       Os.emit ("[+] Item " ++ source_path ++ " copied to " ++ replica_path
                            ++ " successfully.") w1)).
  { cbv beta iota delta [copy_item try_except bind os_path_isfile os_path_isdir
                         gets logging_info].
    assert (Hfile : Os.is_file w source_path = false)
      by (unfold Os.is_file, Os.stat_path; now rewrite Hls, Hs).
    assert (Hdir : Os.is_dir w source_path = true)
      by (unfold Os.is_dir, Os.stat_path; now rewrite Hls, Hs).
    rewrite Hfile. cbv beta iota. rewrite Hdir. cbv beta iota.
    now rewrite Hcopy. }
  unfold exec, outcome. rewrite Hdone. cbn [fst snd log Os.emit].
  split; [reflexivity|]. split; [reflexivity|].
  unfold Os.stat_path. change (Os.locate (Os.emit _ _)) with (Os.locate w).
  rewrite Hld. cbn [root Os.emit]. unfold w1. cbn [root Os.set_root Os.record].
  split; [now apply stat_put_at|].
  intros q Hq. now apply stat_put_at_other.
Qed.

End ItemsDone.

(** ** Instances of the further properties *)

Import Cases.

Lemma plain_hash_streaming : @streaming plain_hash.
Proof.
  split; intros; cbn.
  - now rewrite <- app_assoc.
  - now rewrite app_nil_r.
Qed.

Lemma get_log_file_path_is_absolute_witness :
  PosixPath.isabs (get_log_file_path "/opt/unisync" "run.log") = true /\
  get_log_file_path "/opt/unisync" "run.log" = "/opt/unisync/run.log".
Proof.
  split; [|reflexivity].
  exact (get_log_file_path_is_absolute "/opt/unisync" "run.log" eq_refl).
Defined.

Lemma get_log_file_path_idempotent_witness :
  get_log_file_path "/opt/unisync" (get_log_file_path "/opt/unisync" "logs/run.log")
  = get_log_file_path "/opt/unisync" "logs/run.log".
Proof.
  exact (get_log_file_path_idempotent "/opt/unisync" "logs/run.log" eq_refl).
Defined.

Lemma calculate_md5_is_digest_of_content_witness :
  calculate_md5 "/s/dir1/b.txt" nested = (Return "B", nested).
Proof.
  exact (calculate_md5_is_digest_of_content
           "/s/dir1/b.txt" nested (bytes "B") plain_hash_streaming eq_refl).
Defined.

Lemma calculate_md5_errors_witness :
  outcome (calculate_md5 "/s/nope") nested
  = Raise (OSError (FileNotFoundError "/s/nope")) /\
  outcome (calculate_md5 "/s/dir1") nested
  = Raise (OSError (IsADirectoryError "/s/dir1")).
Proof.
  destruct (calculate_md5_errors "/s/nope" nested) as (_ & Hmissing & _).
  destruct (calculate_md5_errors "/s/dir1" nested) as (_ & _ & Hdir).
  split; [apply Hmissing|apply Hdir]; reflexivity.
Defined.

Lemma delete_phase_without_extra_entries_witness :
  entries behind "/r" = ["./a.txt"] /\
  delete_extra_items_from_replica "/s" "/r" behind
  = (Return tt, Os.record (Walk "/r") (Os.record (Walk "/s") behind)).
Proof.
  split; [reflexivity|].
  apply delete_phase_without_extra_entries.
  intros item Hin. vm_compute in Hin. destruct Hin as [<-|[]].
  vm_compute. left. reflexivity.
Defined.

Lemma copy_phase_without_missing_entries_witness :
  entries mixed "/s" = ["./a.txt"] /\
  copy_new_from_source_to_replica "/s" "/r" mixed
  = (Return tt, Os.record (Walk "/r") (Os.record (Walk "/s") mixed)).
Proof.
  split; [reflexivity|].
  apply copy_phase_without_missing_entries.
  intros item Hin. vm_compute in Hin. destruct Hin as [<-|[]].
  vm_compute. left. reflexivity.
Defined.

Lemma cycle_over_equal_entries_changes_nothing_witness :
  root (exec (sync_cycle "/s" "/r") same_names) = root same_names /\
  Os.stat_path (exec (sync_cycle "/s" "/r") same_names) "/r/a.txt"
  = Found (File (bytes "old")).
Proof.
  destruct (cycle_over_equal_entries_changes_nothing "/s" "/r" same_names)
    as (Hroot & _ & _).
  - intros item. vm_compute. tauto.
  - split; [exact Hroot|]. unfold Os.stat_path. rewrite Hroot. reflexivity.
Defined.

Lemma run_once_is_one_cycle_witness :
  sync_folders 7 "/s" "/r" None nested = sync_cycle "/s" "/r" nested.
Proof.
  exact (proj1 (run_once_is_one_cycle 7 "/s" "/r" nested eq_refl eq_refl)).
Defined.

Lemma walk_folder_content_lists_every_descendant_witness :
  exists items,
    walk_folder_content "/s" nested
    = (Return items, Os.record (Walk "/s") nested) /\
    length items = 2.
Proof.
  apply (proj1 (walk_folder_content_lists_every_descendant "/s" nested)
               (Dir [("dir1", Dir [("b.txt", File (bytes "B"))])])
               eq_refl eq_refl).
  vm_compute. repeat constructor.
Defined.

Lemma periodic_run_never_returns_witness :
  outcome (sync_folders 2 "/s" "/r" (Some 60%Z)) nested <> Return tt.
Proof.
  exact (periodic_run_never_returns 2 "/s" "/r" 60%Z nested eq_refl eq_refl).
Defined.

Lemma periodic_run_sleeps_after_every_cycle_witness :
  exists cs,
    calls (exec (sync_folders 2 "/s" "/r" (Some 60%Z)) nested)
    = (calls nested ++ cs ++ [Sleep 60%Z])%list /\
    filter is_sleep_call cs = [Sleep 60%Z; Sleep 60%Z] /\
    length (filter is_walk_call cs) = 12.
Proof.
  apply (periodic_run_sleeps_after_every_cycle 2 "/s" "/r" 60%Z nested);
    [unfold Os.sleep_max; lia|reflexivity|reflexivity].
Defined.

Lemma delete_item_removes_the_object_witness :
  Os.path_exists stale_dir "/r/./old" = true /\
  Os.path_exists (exec (delete_item "/r/./old") stale_dir) "/r/./old" = false.
Proof.
  split; [reflexivity|].
  assert (Hne : ["r"; "old"] <> []) by discriminate.
  assert (Hdepth : depth (Dir [("x", File (bytes "X"))]) <= recursion_budget)
    by (vm_compute; repeat constructor).
  exact (proj1 (proj2 (proj2
           (delete_item_removes_the_object
              "/r/./old" stale_dir ["r"; "old"] (Dir [("x", File (bytes "X"))])
              eq_refl Hne eq_refl (fun q => eq_refl) Hdepth eq_refl)))).
Defined.

Lemma copy_item_copies_a_file_witness :
  Os.stat_path (exec (copy_item "/s/dir1/b.txt" "/r/b.txt") nested) "/r/b.txt"
  = Found (File (bytes "B")).
Proof.
  exact (proj1 (proj2 (proj2
           (copy_item_copies_a_file
              "/s/dir1/b.txt" "/r/b.txt" nested
              ["s"; "dir1"; "b.txt"] ["r"; "b.txt"] (bytes "B") []
              eq_refl eq_refl eq_refl eq_refl eq_refl eq_refl eq_refl eq_refl)))).
Defined.

Lemma copy_item_copies_a_directory_witness :
  Os.stat_path (exec (copy_item "/s/dir1" "/r/new/dir1") nested) "/r/new/dir1"
  = Found (Dir [("b.txt", File (bytes "B"))]).
Proof.
  assert (Hdepth : depth (Dir [("b.txt", File (bytes "B"))]) <= recursion_budget)
    by (vm_compute; repeat constructor).
  exact (proj1 (proj2 (proj2
           (copy_item_copies_a_directory
              "/s/dir1" "/r/new/dir1" nested
              ["s"; "dir1"] ["r"; "new"; "dir1"] [("b.txt", File (bytes "B"))]
              eq_refl eq_refl eq_refl eq_refl eq_refl eq_refl eq_refl Hdepth)))).
Defined.

(** ** Entries and the objects they name *)

(** Joining a relative path to a non-empty one appends its components. *)
Lemma split_join_relative (top e : string) :
  top <> "" -> PosixPath.startswith_slash e = false ->
  exists comps,
    PosixPath.split (PosixPath.join top e) = comps ++ PosixPath.split e /\
    forall init, fold_left PosixPath.norm_step comps init
                 = fold_left PosixPath.norm_step (PosixPath.split top) init.
Proof.
  intros Htop He. unfold PosixPath.join. rewrite He.
  destruct (String.eqb_spec top ""); [contradiction|]. cbn [orb].
  destruct (PosixPath.endswith_slash top) eqn:Hend.
  - destruct (endswith_slash_inv _ Hend) as (a & ->).
    exists (PosixPath.split a). split.
    + rewrite string_app_assoc. cbn [String.append].
      change (String "/" e) with (String PosixPath.slash e).
      now rewrite split_slash_app.
    + intros init. change "/" with (String PosixPath.slash "").
      rewrite split_slash_app. cbn [PosixPath.split].
      now rewrite fold_left_app.
  - exists (PosixPath.split top). split; [|reflexivity].
    cbn [String.append]. change (String "/" e) with (String PosixPath.slash e).
    now rewrite split_slash_app.
Qed.

Lemma isabs_join_relative (top e : string) :
  top <> "" -> PosixPath.startswith_slash e = false ->
  PosixPath.isabs (PosixPath.join top e) = PosixPath.isabs top.
Proof.
  intros Htop He. unfold PosixPath.join, PosixPath.isabs. rewrite He.
  destruct top as [|c top]; [contradiction|].
  destruct (_ || _)%bool; reflexivity.
Qed.

Lemma abs_components_join_relative (cwd : list string) (top e : string) :
  top <> "" -> PosixPath.startswith_slash e = false ->
  PosixPath.abs_components cwd (PosixPath.join top e)
  = fold_left PosixPath.norm_step (PosixPath.split e)
              (PosixPath.abs_components cwd top).
Proof.
  intros Htop He. unfold PosixPath.abs_components.
  rewrite (isabs_join_relative _ _ Htop He).
  destruct (split_join_relative top e Htop He) as (comps & -> & Hfold).
  now rewrite fold_left_app, Hfold.
Qed.

Lemma relative_dir_relative (r : list string) :
  valid_names r -> PosixPath.startswith_slash (relative_dir r) = false.
Proof.
  intros Hr. destruct r as [|x r]; [reflexivity|].
  now apply (unsplit_relative (x :: r)).
Qed.

Lemma entry_of_relative (r : list string) (x : string) :
  valid_names r -> valid_name x = true ->
  PosixPath.startswith_slash (entry_of (r ++ [x])) = false /\
  entry_of (r ++ [x]) <> "".
Proof.
  intros Hr Hx. rewrite entry_of_snoc. unfold os_path_join.
  pose proof (relative_dir_nonempty r Hr) as Hne.
  split; [|now apply join_nonempty].
  pose proof (isabs_join_relative (relative_dir r) x Hne
                (valid_name_no_leading_slash x Hx)) as E.
  unfold PosixPath.isabs in E. rewrite E. now apply relative_dir_relative.
Qed.

Lemma fold_relative_dir (r : list string) (stack : list string) :
  valid_names r ->
  fold_left PosixPath.norm_step (PosixPath.split (relative_dir r)) stack
  = stack ++ r.
Proof.
  intros Hr. destruct r as [|x r]; [now rewrite app_nil_r|].
  unfold relative_dir. rewrite split_unsplit by (assumption || discriminate).
  now apply fold_norm_step_valid.
Qed.

Lemma fold_entry_of (r : list string) (x : string) (stack : list string) :
  valid_names r -> valid_name x = true ->
  fold_left PosixPath.norm_step (PosixPath.split (entry_of (r ++ [x]))) stack
  = stack ++ r ++ [x].
Proof.
  intros Hr Hx. rewrite entry_of_snoc. unfold os_path_join.
  destruct (split_join (relative_dir r) x (relative_dir_nonempty r Hr) Hx)
    as (comps & -> & Hfold).
  rewrite fold_left_app, Hfold, fold_relative_dir by assumption.
  cbn [fold_left]. rewrite valid_name_step by assumption.
  now rewrite <- app_assoc.
Qed.

(** Where the path of an entry points: below the folder, along the names
    of the entry. *)
Lemma locate_entry (w : world) (folder_path : string) (at_folder : loc)
      (r : list string) (x : string) :
  Os.locate w folder_path = Some at_folder ->
  valid_names r -> valid_name x = true ->
  Os.locate w (os_path_join folder_path (entry_of (r ++ [x])))
  = Some (at_folder ++ r ++ [x]).
Proof.
  unfold Os.locate. intros Hl Hr Hx.
  destruct (String.eqb_spec folder_path ""); [discriminate|].
  inversion Hl; subst at_folder. unfold os_path_join.
  destruct (String.eqb_spec (PosixPath.join folder_path (entry_of (r ++ [x]))) "")
    as [E|_]; [now apply join_nonempty in E|].
  destruct (entry_of_relative r x Hr Hx) as [Hrel _].
  rewrite abs_components_join_relative by assumption.
  now rewrite fold_entry_of.
Qed.

Lemma stat_app (a b : loc) :
  forall n,
    stat (a ++ b) n = match stat a n with
                      | Found m => stat b m
                      | Missing => Missing
                      | Blocked => Blocked
                      end.
Proof.
  induction a as [|x a IH]; intros n; [reflexivity|].
  cbn [app stat]. destruct n as [data|es]; [reflexivity|].
  destruct (assoc x es); [apply IH|reflexivity].
Qed.

Lemma assoc_In (es : list (string * node)) (x : string) (c : node) :
  unique_names (Dir es) = true -> In (x, c) es -> assoc x es = Some c.
Proof.
  induction es as [|[n c'] es IH]; intros Hu Hin; [contradiction|].
  cbn in Hu. apply andb_prop in Hu as [Hu Hrest].
  apply andb_prop in Hu as [Hfresh _]. apply negb_true_iff in Hfresh.
  cbn [assoc]. destruct Hin as [E|Hin].
  - inversion E; subst. now rewrite String.eqb_refl.
  - destruct (String.eqb_spec n x) as [->|_]; [|now apply IH].
    exfalso. rewrite <- not_true_iff_false in Hfresh. apply Hfresh.
    apply existsb_exists. exists x. split; [|apply String.eqb_refl].
    apply in_map_iff. now exists (x, c).
Qed.

Lemma unique_names_child (es : list (string * node)) (x : string) (c : node) :
  unique_names (Dir es) = true -> In (x, c) es -> unique_names c = true.
Proof.
  induction es as [|[n c'] es IH]; intros Hu Hin; [contradiction|].
  cbn in Hu. apply andb_prop in Hu as [Hu Hrest].
  apply andb_prop in Hu as [_ Hc].
  destruct Hin as [E|Hin]; [now inversion E; subst|now apply IH].
Qed.

(** Every directory a walk visits is found along its names. *)
Lemma walk_names_stat (n : node) :
  unique_names n = true ->
  forall rel r ds fs,
    In (r, ds, fs) (walk_names rel n) ->
    exists q es,
      r = rel ++ q /\ stat q n = Found (Dir es) /\
      ds = dirnames es /\ fs = filenames es.
Proof.
  induction n as [data|es IH] using node_ind'; intros Hu rel r ds fs Hin;
    [contradiction|].
  cbn [walk_names] in Hin. destruct Hin as [E|Hin].
  - inversion E; subst. exists [], es. now rewrite app_nil_r.
  - assert (Hsub :
      exists name es', In (name, Dir es') es /\
                       In (r, ds, fs) (walk_names (rel ++ [name]) (Dir es'))).
    { clear IH Hu. induction es as [|[name child] es IHes]; [contradiction|].
      apply in_app_or in Hin as [Hin|Hin].
      - destruct child as [data|es']; [contradiction|].
        exists name, es'. split; [now left|exact Hin].
      - destruct (IHes Hin) as (name' & es' & Hin' & Hw).
        exists name', es'. split; [now right|exact Hw]. }
    destruct Hsub as (name & es' & Hes & Hw).
    rewrite Forall_forall in IH.
    destruct (IH (name, Dir es') Hes (unique_names_child es name _ Hu Hes)
                 (rel ++ [name]) r ds fs Hw)
      as (q & es'' & -> & Hstat & Hds & Hfs).
    exists (name :: q), es''. split; [now rewrite <- app_assoc|].
    split; [|now split].
    cbn [stat]. now rewrite (assoc_In es name (Dir es') Hu Hes).
Qed.

Lemma listed_name (es : list (string * node)) (x : string) :
  In x (filenames es ++ dirnames es) -> exists c, In (x, c) es.
Proof.
  intros Hin. apply in_app_or in Hin.
  unfold filenames, dirnames in Hin.
  destruct Hin as [Hin|Hin]; apply in_map_iff in Hin as ([y c] & E & Hin);
    apply filter_In in Hin as [Hin _]; cbn in E; subst y; now exists c.
Qed.

Lemma unique_names_stat :
  forall q n m, unique_names n = true -> stat q n = Found m -> unique_names m = true.
Proof.
  induction q as [|x q IH]; intros n m Hu Hs.
  - cbn in Hs. now inversion Hs; subst.
  - destruct n as [data|es]; [discriminate|]. cbn [stat] in Hs.
    destruct (assoc x es) as [c|] eqn:Hx; [|discriminate].
    apply (IH c m); [|exact Hs]. now apply (unique_names_dir es x c).
Qed.

(** Every entry of a tree comes from names that are found in it. *)
Lemma entries_found (w : world) (folder_path : string) (n : node) (item : string) :
  Os.stat_path w folder_path = Found n ->
  well_named n = true -> unique_names n = true ->
  In item (entries w folder_path) ->
  exists r x c,
    item = entry_of (r ++ [x]) /\ valid_names r /\ valid_name x = true /\
    stat (r ++ [x]) n = Found c.
Proof.
  intros Hstat Hwn Hu Hin.
  rewrite (entries_by_names w folder_path n Hstat Hwn) in Hin.
  apply in_flat_map in Hin as ([[r ds] fs] & Ht & Hin).
  apply in_map_iff in Hin as (x & E & Hx).
  pose proof (walk_names_valid n Hwn [] (Forall_nil _)) as Hvalid.
  rewrite Forall_forall in Hvalid.
  destruct (Hvalid _ Ht) as (Hr & Hds & Hfs). cbn [fst snd] in *.
  assert (Hxv : valid_name x = true).
  { unfold valid_names in Hds, Hfs. apply in_app_or in Hx as [Hx|Hx];
      [rewrite Forall_forall in Hfs; now apply Hfs
      |rewrite Forall_forall in Hds; now apply Hds]. }
  destruct (walk_names_stat n Hu [] r ds fs Ht) as (q & es & Hq & Hs & -> & ->).
  cbn [app] in Hq. subst q.
  destruct (listed_name es x Hx) as (c & Hc).
  exists r, x, c. split; [now symmetry|]. split; [exact Hr|]. split; [exact Hxv|].
  rewrite stat_app, Hs. cbn [stat].
  rewrite (assoc_In es x c); [reflexivity| |exact Hc].
  now apply (unique_names_stat r n).
Qed.

(** X18: in a tree with valid and unique names, every entry that
    [walk_folder_content] returns names an object that exists: joined to
    the folder it is a file or a directory. *)
Theorem every_entry_exists (w : world) (folder_path : string) (n : node) :
  Os.stat_path w folder_path = Found n ->
  well_named n = true -> unique_names n = true ->
  forall item,
    In item (entries w folder_path) ->
    Os.path_exists w (os_path_join folder_path item) = true.
Proof.
  intros Hstat Hwn Hu item Hin.
  destruct (entries_found w folder_path n item Hstat Hwn Hu Hin)
    as (r & x & c & -> & Hr & Hx & Hc).
  unfold Os.stat_path in Hstat.
  destruct (Os.locate w folder_path) as [at_folder|] eqn:Hl; [|discriminate].
  unfold Os.path_exists, Os.stat_path.
  rewrite (locate_entry w folder_path at_folder r x Hl Hr Hx).
  now rewrite stat_app, Hstat, Hc.
Qed.


(** ** What a cycle leaves alone *)

Lemma keeps_refl (a : loc) (w : world) : keeps a w w.
Proof. now split. Qed.

Lemma keeps_trans (a : loc) (w1 w2 w3 : world) :
  keeps a w1 w2 -> keeps a w2 w3 -> keeps a w1 w3.
Proof. intros [E1 C1] [E2 C2]. split; congruence. Qed.

Lemma locate_cwd (w w' : world) (p : string) :
  cwd w' = cwd w -> Os.locate w' p = Os.locate w p.
Proof. intros E. unfold Os.locate. now rewrite E. Qed.

Lemma remove_keeps (a : loc) (p : string) (w : world) :
  (forall l, Os.locate w p = Some l -> diverge l a = true) ->
  keeps a w (exec (Os.remove p) w).
Proof.
  intros Hl. cbv beta delta [exec Os.remove] zeta.
  change (Os.locate (Os.record (Remove p) w)) with (Os.locate w).
  destruct (Os.locate w p) as [l|]; runtime_cases; split; try reflexivity.
  apply stat_remove_at_other. now apply Hl.
Qed.

Lemma rmtree_keeps (a : loc) (p : string) (w : world) :
  (forall l, Os.locate w p = Some l -> diverge l a = true) ->
  keeps a w (exec (Os.rmtree p) w).
Proof.
  intros Hl. cbv beta delta [exec Os.rmtree] zeta.
  change (Os.locate (Os.record (Rmtree p) w)) with (Os.locate w).
  destruct (Os.locate w p) as [l|] eqn:E; runtime_cases; split; try reflexivity;
    first [apply stat_remove_at_other|apply stat_put_at_other]; now apply Hl.
Qed.

Lemma copytree_keeps (a : loc) (src dst : string) (w : world) :
  (forall l, Os.locate w dst = Some l -> diverge l a = true) ->
  keeps a w (exec (Os.copytree src dst) w).
Proof.
  intros Hl. cbv beta delta [exec Os.copytree] zeta.
  change (Os.locate (Os.record (Copytree src dst) w)) with (Os.locate w).
  destruct (Os.locate w dst) as [l|] eqn:E; runtime_cases; split; try reflexivity;
    apply stat_put_at_other; now apply Hl.
Qed.

Lemma write_binary_keeps (a : loc) (p : string) (data : content) (w : world) :
  (forall l, Os.locate w p = Some l -> diverge l a = true) ->
  keeps a w (exec (Os.write_binary p data) w).
Proof.
  intros Hl. cbv beta delta [exec Os.write_binary] zeta.
  destruct (Os.locate w p) as [l|] eqn:E; runtime_cases; split; try reflexivity;
    apply stat_put_at_other; now apply Hl.
Qed.

Lemma copy2_keeps (a : loc) (src dst : string) (w : world) :
  (forall l, Os.locate w dst = Some l -> diverge l a = true) ->
  (forall l, Os.locate w (PosixPath.join dst (PosixPath.basename src)) = Some l ->
             diverge l a = true) ->
  keeps a w (exec (Os.copy2 src dst) w).
Proof.
  intros Hdst Hin. cbv beta delta [exec Os.copy2] zeta.
  set (w0 := Os.record (Copy2 src dst) w).
  set (dst' := if Os.is_dir w0 dst
               then PosixPath.join dst (PosixPath.basename src) else dst).
  assert (Hl : forall l, Os.locate w0 dst' = Some l -> diverge l a = true).
  { unfold dst'. change (Os.locate w0) with (Os.locate w).
    now destruct (Os.is_dir w0 dst). }
  clearbody dst'.
  destruct (match Os.locate w0 src with
            | Some ls => _ | None => _ end); [now split|].
  unfold bind.
  destruct (read_binary_inv src w0) as [(data & E)|(e & E)]; rewrite E;
    [|now split].
  apply (keeps_trans a w w0); [now split|].
  now apply write_binary_keeps.
Qed.

Lemma keeps_emit (a : loc) (w w' : world) (line : string) :
  keeps a w w' -> keeps a w (Os.emit line w').
Proof. intros [E C]. now split. Qed.

Section Untouched.

Context `{Hashlib}.

Lemma delete_item_keeps (a : loc) (item_path : string) (w : world) :
  (forall l, Os.locate w item_path = Some l -> diverge l a = true) ->
  keeps a w (exec (delete_item item_path) w).
Proof.
  intros Hl.
  cbv beta delta [delete_item try_except bind os_path_isfile os_path_isdir
                  gets logging_info ret raise exec].
  destruct (Os.is_file w item_path).
  - pose proof (remove_keeps a item_path w Hl) as K. unfold exec in K.
    destruct (Os.remove item_path w) as [[[]|[e|msg|msg'|]] w1]; cbn [snd] in *;
      try destruct e; try (now apply keeps_emit); exact K.
  - destruct (Os.is_dir w item_path).
    + pose proof (rmtree_keeps a item_path w Hl) as K. unfold exec in K.
      destruct (Os.rmtree item_path w) as [[[]|[e|msg|msg'|]] w1]; cbn [snd] in *;
        try destruct e; try (now apply keeps_emit); exact K.
    + cbn [snd]. apply keeps_emit, keeps_refl.
Qed.

Lemma copy_item_keeps (a : loc) (source_path replica_path : string) (w : world) :
  (forall l, Os.locate w replica_path = Some l -> diverge l a = true) ->
  (forall l, Os.locate w (PosixPath.join replica_path
                            (PosixPath.basename source_path)) = Some l ->
             diverge l a = true) ->
  keeps a w (exec (copy_item source_path replica_path) w).
Proof.
  intros Hdst Hin.
  cbv beta delta [copy_item try_except bind os_path_isfile os_path_isdir
                  gets logging_info ret raise exec].
  destruct (Os.is_file w source_path).
  - pose proof (copy2_keeps a source_path replica_path w Hdst Hin) as K.
    unfold exec in K.
    destruct (Os.copy2 source_path replica_path w) as [[[]|[e|msg|msg'|]] w1];
      cbn [snd] in *; try (destruct e; now apply keeps_emit); try exact K.
    destruct (calculate_md5_inv source_path w1) as [(d1 & E1)|(e1 & E1)];
      rewrite E1; [|destruct e1; now apply keeps_emit].
    destruct (calculate_md5_inv replica_path w1) as [(d2 & E2)|(e2 & E2)];
      rewrite E2; [|destruct e2; now apply keeps_emit].
    destruct (String.eqb d1 d2); now apply keeps_emit.
  - destruct (Os.is_dir w source_path).
    + pose proof (copytree_keeps a source_path replica_path w Hdst) as K.
      unfold exec in K.
      destruct (Os.copytree source_path replica_path w) as [[[]|[e|msg|msg'|]] w1];
        cbn [snd] in *; try destruct e; try (now apply keeps_emit); exact K.
    + cbn [snd]. apply keeps_refl.
Qed.

Lemma fold_left_keeps {A} (a : loc) (step : world -> A -> world) (w : world) :
  forall items w0,
    keeps a w w0 ->
    (forall w' x, In x items -> cwd w' = cwd w -> keeps a w' (step w' x)) ->
    keeps a w (fold_left step items w0).
Proof.
  induction items as [|x items IH]; intros w0 K Hstep; [exact K|].
  cbn [fold_left]. apply IH.
  - apply (keeps_trans a w w0); [exact K|].
    apply Hstep; [now left|apply K].
  - intros w' y Hy. apply Hstep. now right.
Qed.

End Untouched.

Lemma diverge_app (b a p : loc) :
  diverge b a = true -> diverge (b ++ p) a = true.
Proof.
  revert a. induction b as [|x b IH]; intros [|y a] Hd; try discriminate.
  cbn in *. destruct (String.eqb x y); [now apply IH|reflexivity].
Qed.

(** The entries of a well-named tree are built from valid names. *)
Lemma entries_valid (w : world) (folder_path : string) (n : node) (item : string) :
  Os.stat_path w folder_path = Found n ->
  well_named n = true ->
  In item (entries w folder_path) ->
  exists r x, item = entry_of (r ++ [x]) /\ valid_names r /\ valid_name x = true.
Proof.
  intros Hstat Hwn Hin.
  rewrite (entries_by_names w folder_path n Hstat Hwn) in Hin.
  apply in_flat_map in Hin as ([[r ds] fs] & Ht & Hin).
  apply in_map_iff in Hin as (x & E & Hx).
  pose proof (walk_names_valid n Hwn [] (Forall_nil _)) as Hvalid.
  rewrite Forall_forall in Hvalid.
  destruct (Hvalid _ Ht) as (Hr & Hds & Hfs). cbn [fst snd] in *.
  exists r, x. split; [now symmetry|]. split; [exact Hr|].
  unfold valid_names in Hds, Hfs. apply in_app_or in Hx as [Hx|Hx];
    [rewrite Forall_forall in Hfs; now apply Hfs
    |rewrite Forall_forall in Hds; now apply Hds].
Qed.

(** The base name of the path of an entry is its last name. *)
Lemma basename_entry (folder_path : string) (r : list string) (x : string) :
  folder_path <> "" -> valid_names r -> valid_name x = true ->
  PosixPath.basename (os_path_join folder_path (entry_of (r ++ [x]))) = x.
Proof.
  intros Hf Hr Hx. unfold PosixPath.basename, os_path_join.
  destruct (entry_of_relative r x Hr Hx) as [Hrel _].
  destruct (split_join_relative folder_path (entry_of (r ++ [x])) Hf Hrel)
    as (comps & -> & _).
  rewrite entry_of_snoc. unfold os_path_join.
  destruct (split_join (relative_dir r) x (relative_dir_nonempty r Hr) Hx)
    as (comps' & -> & _).
  now rewrite app_assoc, last_last.
Qed.

Lemma entries_valid_at (w : world) (folder_path item : string) :
  well_named_at w folder_path = true ->
  In item (entries w folder_path) ->
  exists r x, item = entry_of (r ++ [x]) /\ valid_names r /\ valid_name x = true.
Proof.
  unfold well_named_at. intros Hwn Hin.
  destruct (Os.stat_path w folder_path) as [n| |] eqn:Hstat.
  - now apply (entries_valid w folder_path n).
  - unfold entries in Hin. now rewrite Hstat in Hin.
  - unfold entries in Hin. now rewrite Hstat in Hin.
Qed.

Lemma locate_nonempty (w : world) (p : string) (l : loc) :
  Os.locate w p = Some l -> p <> "".
Proof. unfold Os.locate. intros Hl ->. discriminate. Qed.

Section OutsideTheReplica.

Context `{Hashlib}.

Variables (source_folder replica_folder : string) (w : world).
Variables (at_source at_replica : loc).
Hypothesis replica_absolute : PosixPath.isabs replica_folder = true.
Hypothesis source_located : Os.locate w source_folder = Some at_source.
Hypothesis replica_located : Os.locate w replica_folder = Some at_replica.

Lemma entry_in_replica_apart (a : loc) (w' : world) (r : list string) (x : string) :
  diverge at_replica a = true ->
  cwd w' = cwd w -> valid_names r -> valid_name x = true ->
  forall l,
    Os.locate w' (os_path_join replica_folder (entry_of (r ++ [x]))) = Some l ->
    diverge l a = true.
Proof.
  intros Ha Hcwd Hr Hx l Hl. rewrite (locate_cwd w w' _ Hcwd) in Hl.
  rewrite (locate_entry w replica_folder at_replica r x replica_located Hr Hx) in Hl.
  inversion Hl; subst l. now apply diverge_app.
Qed.

Lemma delete_steps_keep (a : loc) (items : list string) (w0 : world) :
  diverge at_replica a = true ->
  keeps a w w0 ->
  (forall item, In item items ->
     exists r x, item = entry_of (r ++ [x]) /\ valid_names r /\ valid_name x = true) ->
  keeps a w (fold_left (delete_step replica_folder) items w0).
Proof.
  intros Ha K Hitems. apply fold_left_keeps; [exact K|].
  intros w' item Hin Hcwd. unfold delete_step.
  destruct (Hitems item Hin) as (r & x & -> & Hr & Hx).
  apply delete_item_keeps. now apply entry_in_replica_apart.
Qed.

Lemma copy_steps_keep (a : loc) (items : list string) (w0 : world) :
  diverge at_replica a = true ->
  keeps a w w0 ->
  (forall item, In item items ->
     exists r x, item = entry_of (r ++ [x]) /\ valid_names r /\ valid_name x = true) ->
  keeps a w (fold_left (copy_step source_folder replica_folder) items w0).
Proof.
  intros Ha K Hitems. apply fold_left_keeps; [exact K|].
  intros w' item Hin Hcwd. unfold copy_step. cbv zeta.
  destruct (Hitems item Hin) as (r & x & -> & Hr & Hx).
  destruct (entry_of_relative r x Hr Hx) as [Hrel _].
  rewrite destination_absolute_root by assumption.
  apply copy_item_keeps; [now apply entry_in_replica_apart|].
  rewrite (basename_entry source_folder r x
             (locate_nonempty w source_folder at_source source_located) Hr Hx).
  intros l Hl. rewrite (locate_cwd w w' _ Hcwd) in Hl.
  pose proof (locate_entry w replica_folder at_replica r x replica_located Hr Hx)
    as Hdst.
  unfold Os.locate in Hdst, Hl.
  destruct (String.eqb_spec (os_path_join replica_folder (entry_of (r ++ [x]))) "")
    as [|Hne]; [discriminate|].
  destruct (String.eqb _ "") in Hl; [discriminate|].
  rewrite (abs_components_join (cwd w) _ x Hne Hx) in Hl.
  inversion Hdst as [E]. rewrite E in Hl. inversion Hl; subst l.
  rewrite <- app_assoc. now apply diverge_app.
Qed.

(** X19: a cycle changes nothing outside the replica.  With an absolute
    replica root and two well-named trees that lie apart, the source
    folder holds after a cycle what it held before (every file and
    directory below it, with its bytes), and so does every other location
    that lies apart from the replica folder, whatever the environment made
    fail. *)
Theorem cycle_changes_nothing_outside_the_replica :
  diverge at_replica at_source = true ->
  well_named_at w source_folder = true ->
  well_named_at w replica_folder = true ->
  let w' := exec (sync_cycle source_folder replica_folder) w in
  Os.stat_path w' source_folder = Os.stat_path w source_folder /\
  forall a, diverge at_replica a = true -> stat a (root w') = stat a (root w).
Proof.
  intros Hapart Hws Hwr. cbv zeta.
  assert (K : forall a, diverge at_replica a = true ->
                keeps a w (exec (sync_cycle source_folder replica_folder) w)).
  { intros a Ha. unfold exec. rewrite sync_cycle_spec. cbn [snd]. unfold exec.
    rewrite delete_phase_spec. cbn [snd].
    set (w1 := fold_left (delete_step replica_folder)
                         (extra w source_folder replica_folder) _).
    assert (K1 : forall b, diverge at_replica b = true -> keeps b w w1).
    { intros b Hb. apply delete_steps_keep; [exact Hb|now split|].
      intros item Hin. unfold extra in Hin. apply filter_In in Hin as [Hin _].
      now apply (entries_valid_at w replica_folder). }
    rewrite copy_phase_spec. cbn [snd].
    apply copy_steps_keep; [exact Ha|destruct (K1 a Ha); now split|].
    intros item Hin. unfold missing in Hin. apply filter_In in Hin as [Hin _].
    assert (E : entries w1 source_folder = entries w source_folder).
    { destruct (K1 at_source Hapart) as [Hroot Hcwd]. unfold entries, Os.stat_path.
      rewrite (locate_cwd w w1 _ Hcwd), source_located, Hroot, Hcwd.
      reflexivity. }
    rewrite E in Hin. now apply (entries_valid_at w source_folder). }
  split; [|intros a Ha; now apply K].
  destruct (K at_source Hapart) as [Hroot Hcwd]. unfold Os.stat_path.
  now rewrite (locate_cwd w _ _ Hcwd), source_located, Hroot.
Qed.

End OutsideTheReplica.

Lemma every_entry_exists_witness :
  Os.path_exists nested (os_path_join "/s" "dir1/b.txt") = true.
Proof.
  apply (every_entry_exists nested "/s"
           (Dir [("dir1", Dir [("b.txt", File (bytes "B"))])]));
    try reflexivity.
  right. left. reflexivity.
Defined.

Lemma cycle_changes_nothing_outside_the_replica_witness :
  Os.stat_path (exec (sync_cycle "/s" "/r") nested) "/s"
  = Found (Dir [("dir1", Dir [("b.txt", File (bytes "B"))])]).
Proof.
  rewrite (proj1 (cycle_changes_nothing_outside_the_replica
                    "/s" "/r" nested ["s"] ["r"]
                    eq_refl eq_refl eq_refl eq_refl eq_refl eq_refl)).
  reflexivity.
Defined.

(** ** Names and removal *)

Lemma existsb_eqb_In (x : string) (l : list string) :
  existsb (String.eqb x) l = true <-> In x l.
Proof.
  rewrite existsb_exists. split.
  - intros (y & Hy & E). apply String.eqb_eq in E. now subst.
  - intros Hin. exists x. split; [exact Hin|apply String.eqb_refl].
Qed.

Lemma unique_names_spec (es : list (string * node)) :
  unique_names (Dir es) = true <->
  NoDup (map fst es) /\ Forall (fun e => unique_names (snd e) = true) es.
Proof.
  induction es as [|[name child] es IH].
  - split; [intros _; split; constructor|reflexivity].
  - change (unique_names (Dir ((name, child) :: es)))
      with (negb (existsb (String.eqb name) (map fst es))
            && unique_names child && unique_names (Dir es))%bool.
    rewrite !andb_true_iff, negb_true_iff, IH. cbn [map fst].
    rewrite <- not_true_iff_false, existsb_eqb_In, NoDup_cons_iff, Forall_cons_iff.
    cbn [snd]. tauto.
Qed.

Lemma well_named_spec (es : list (string * node)) :
  well_named (Dir es) = true <->
  Forall (fun e => valid_name (fst e) = true /\ well_named (snd e) = true) es.
Proof.
  induction es as [|[name child] es IH].
  - split; [constructor|reflexivity].
  - change (well_named (Dir ((name, child) :: es)))
      with (valid_name name && well_named child && well_named (Dir es))%bool.
    rewrite !andb_true_iff, IH, Forall_cons_iff. cbn [fst snd]. tauto.
Qed.

Lemma assoc_In_entry (es : list (string * node)) (x : string) (c : node) :
  assoc x es = Some c -> In (x, c) es.
Proof.
  induction es as [|[n c'] es IH]; cbn [assoc]; [discriminate|].
  destruct (String.eqb_spec n x) as [->|_].
  - intros E. inversion E. now left.
  - intros E. right. now apply IH.
Qed.

Lemma names_set_entry (es : list (string * node)) (x : string) (c new : node) :
  assoc x es = Some c -> map fst (set_entry x new es) = map fst es.
Proof.
  induction es as [|[n c'] es IH]; cbn [assoc set_entry]; [discriminate|].
  destruct (String.eqb_spec n x) as [->|_]; [reflexivity|].
  intros E. cbn [map fst]. now rewrite IH.
Qed.

Lemma Forall_set_entry (P : string * node -> Prop) (es : list (string * node))
      (x : string) (new : node) :
  Forall P es -> P (x, new) -> Forall P (set_entry x new es).
Proof.
  intros Hes Hnew. induction es as [|[n c] es IH]; cbn [set_entry].
  - now constructor.
  - inversion Hes; subst. destruct (String.eqb_spec n x) as [->|_].
    + now constructor.
    + constructor; [assumption|now apply IH].
Qed.

Lemma In_remove_entry (es : list (string * node)) (x : string) (e : string * node) :
  In e (remove_entry x es) -> In e es.
Proof.
  induction es as [|[n c] es IH]; cbn [remove_entry]; [contradiction|].
  destruct (String.eqb n x); [now right|].
  intros [E|Hin]; [now left|right; now apply IH].
Qed.

Lemma Forall_remove_entry (P : string * node -> Prop) (es : list (string * node))
      (x : string) :
  Forall P es -> Forall P (remove_entry x es).
Proof.
  rewrite !Forall_forall. intros H e He. apply H. now apply In_remove_entry in He.
Qed.

Lemma NoDup_remove_entry (es : list (string * node)) (x : string) :
  NoDup (map fst es) -> NoDup (map fst (remove_entry x es)).
Proof.
  induction es as [|[n c] es IH]; cbn [remove_entry map fst]; [constructor|].
  intros Hnd. inversion Hnd as [|? ? Hn Hrest]; subst.
  destruct (String.eqb n x); [exact Hrest|].
  cbn [map fst]. constructor; [|now apply IH].
  intros Hin. apply Hn. apply in_map_iff in Hin as (e & E & He).
  apply in_map_iff. exists e. split; [exact E|now apply In_remove_entry in He].
Qed.

(** Removing keeps a tree well named, with one object per name. *)
Lemma remove_at_keeps_names :
  forall l n,
    (unique_names n = true -> unique_names (remove_at l n) = true) /\
    (well_named n = true -> well_named (remove_at l n) = true).
Proof.
  induction l as [|x l IH]; intros n; [now destruct n|].
  destruct n as [data|es]; [now destruct l|].
  destruct l as [|y l].
  - cbn [remove_at]. split.
    + rewrite !unique_names_spec. intros [Hnd Hall].
      split; [now apply NoDup_remove_entry|now apply Forall_remove_entry].
    + rewrite !well_named_spec. now apply Forall_remove_entry.
  - cbn [remove_at]. destruct (assoc x es) as [c|] eqn:Hx; [|tauto].
    destruct (IH c) as [IHu IHw].
    pose proof (assoc_In_entry es x c Hx) as Hin. split.
    + rewrite !unique_names_spec. intros [Hnd Hall].
      rewrite (names_set_entry es x c _ Hx). split; [exact Hnd|].
      apply Forall_set_entry; [exact Hall|]. cbn [snd]. apply IHu.
      rewrite Forall_forall in Hall. now apply (Hall (x, c)).
    + rewrite !well_named_spec. intros Hall.
      apply Forall_set_entry; [exact Hall|]. cbn [fst snd].
      rewrite Forall_forall in Hall. destruct (Hall (x, c) Hin) as [Hv Hc].
      split; [exact Hv|now apply IHw].
Qed.

Lemma assoc_remove_entry_absent (es : list (string * node)) (x : string) :
  assoc x es = None -> assoc x (remove_entry x es) = None.
Proof.
  induction es as [|[n c] es IH]; cbn [assoc remove_entry]; [reflexivity|].
  destruct (String.eqb n x) eqn:E; [discriminate|].
  intros Hx. cbn [assoc]. rewrite E. now apply IH.
Qed.

(** Removing creates nothing: what is found afterwards was there before. *)
Lemma stat_remove_at_found :
  forall l q n c',
    unique_names n = true ->
    stat q (remove_at l n) = Found c' -> exists c, stat q n = Found c.
Proof.
  induction l as [|x l IH]; intros q n c' Hu Hs; [now destruct n; eauto|].
  destruct q as [|y q]; [now eexists|].
  destruct n as [data|es]; [destruct l; eauto|].
  destruct (String.eqb_spec x y) as [<-|Hxy].
  - destruct l as [|z l].
    + cbn [remove_at stat] in Hs.
      destruct (assoc x es) as [c|] eqn:Hx.
      * destruct (unique_names_dir es x c Hu Hx) as [_ Hgone].
        now rewrite Hgone in Hs.
      * rewrite assoc_remove_entry_absent in Hs; [discriminate|exact Hx].
    + cbn [remove_at] in Hs. cbn [stat].
      destruct (assoc x es) as [c|] eqn:Hx.
      * cbn [stat] in Hs. rewrite assoc_set_entry in Hs.
        apply (IH q c c'); [|exact Hs]. now apply (unique_names_dir es x c).
      * cbn [stat] in Hs. rewrite Hx in Hs. discriminate.
  - destruct l as [|z l]; cbn [remove_at] in Hs.
    + cbn [stat] in *. rewrite assoc_remove_entry_other in Hs by assumption. eauto.
    + destruct (assoc x es) as [c|]; [|eauto].
      cbn [stat] in *. rewrite assoc_set_entry_other in Hs by assumption. eauto.
Qed.

(** ** The entries of a tree, from the objects found in it *)

Lemma walk_names_sub (rel : list string) (es : list (string * node))
      (name : string) (es' : list (string * node)) :
  In (name, Dir es') es ->
  forall t, In t (walk_names (rel ++ [name]) (Dir es')) ->
            In t (walk_names rel (Dir es)).
Proof.
  intros Hes t Ht. cbn [walk_names]. right.
  induction es as [|[name' child] es IHes]; [contradiction|].
  destruct Hes as [E|Hes].
  - inversion E; subst. apply in_or_app. now left.
  - apply in_or_app. right. now apply IHes.
Qed.

(** A walk visits every directory of the tree. *)
Lemma walk_names_visits :
  forall r n rel es,
    stat r n = Found (Dir es) ->
    In (rel ++ r, dirnames es, filenames es) (walk_names rel n).
Proof.
  induction r as [|x r IH]; intros n rel es Hs.
  - cbn in Hs. inversion Hs; subst. rewrite app_nil_r. now left.
  - destruct n as [data|es0]; [discriminate|]. cbn [stat] in Hs.
    destruct (assoc x es0) as [c|] eqn:Hx; [|discriminate].
    destruct c as [data|es1]; [destruct r; discriminate|].
    apply (walk_names_sub rel es0 x es1 (assoc_In_entry _ _ _ Hx)).
    replace (rel ++ x :: r) with ((rel ++ [x]) ++ r) by now rewrite <- app_assoc.
    now apply IH.
Qed.

Lemma listed (es : list (string * node)) (x : string) (c : node) :
  In (x, c) es -> In x (filenames es ++ dirnames es).
Proof.
  intros Hin. apply in_or_app. unfold filenames, dirnames.
  destruct (Tree.is_dir c) eqn:Hc; [right|left];
    apply in_map_iff; exists (x, c); (split; [reflexivity|]);
    apply filter_In; (split; [exact Hin|]); cbn [snd]; now rewrite Hc.
Qed.

(** Every object found below the folder is among its entries. *)
Lemma entries_complete (w : world) (folder_path : string) (n : node)
      (r : list string) (x : string) (c : node) :
  Os.stat_path w folder_path = Found n ->
  well_named n = true ->
  stat (r ++ [x]) n = Found c ->
  In (entry_of (r ++ [x])) (entries w folder_path).
Proof.
  intros Hstat Hwn Hs.
  rewrite (entries_by_names w folder_path n Hstat Hwn).
  rewrite stat_app in Hs.
  destruct (stat r n) as [[data|es]| |] eqn:Hr; try discriminate.
  cbn [stat] in Hs. destruct (assoc x es) as [c'|] eqn:Hx; [|discriminate].
  apply in_flat_map. exists (r, dirnames es, filenames es). split.
  - exact (walk_names_visits r n [] es Hr).
  - apply in_map_iff. exists x. split; [reflexivity|].
    apply (listed es x c'). now apply assoc_In_entry.
Qed.

Lemma well_named_stat :
  forall q n m, well_named n = true -> stat q n = Found m ->
                well_named m = true /\ valid_names q.
Proof.
  induction q as [|x q IH]; intros n m Hwn Hs.
  - cbn in Hs. inversion Hs; subst. split; [exact Hwn|constructor].
  - destruct n as [data|es]; [discriminate|]. cbn [stat] in Hs.
    destruct (assoc x es) as [c|] eqn:Hx; [|discriminate].
    apply well_named_spec in Hwn. rewrite Forall_forall in Hwn.
    destruct (Hwn (x, c) (assoc_In_entry _ _ _ Hx)) as [Hv Hc].
    destruct (IH c m Hc Hs) as [Hm Hq]. split; [exact Hm|now constructor].
Qed.

(** ** What the delete phase achieves *)

Lemma delete_item_done (item_path : string) (w : world) (l : loc) (found : node) :
  Os.locate w item_path = Some l -> l <> [] ->
  stat l (root w) = Found found ->
  (forall q, Os.fault_at (l ++ q) (faults w) = None) ->
  delete_item item_path w
  = (Return tt,
     Os.emit ("[-] Item " ++ item_path ++ " removed successfully")
             (Os.set_root (remove_at l (root w))
                (Os.record (match found with
                            | File _ => Remove item_path
                            | Dir _ => Rmtree item_path
                            end) w))).
Proof.
  intros Hl Hne Hs Hf.
  pose proof (Hf []) as Htop. rewrite app_nil_r in Htop.
  assert (Hfile : Os.is_file w item_path
                    = match found with File _ => true | Dir _ => false end).
  { unfold Os.is_file, Os.stat_path. now rewrite Hl, Hs. }
  assert (Hdir : Os.is_dir w item_path
                   = match found with File _ => false | Dir _ => true end).
  { unfold Os.is_dir, Os.stat_path. now rewrite Hl, Hs. }
  cbv beta iota delta [delete_item try_except bind os_path_isfile os_path_isdir
                       gets logging_info].
  rewrite Hfile. destruct found as [data|es]; cbv beta iota.
  - now rewrite (remove_ok item_path w l data Hl Hs Htop).
  - rewrite Hdir. cbv beta iota.
    now rewrite (rmtree_ok item_path w l es Hl Hne Hs Hf).
Qed.

Lemma delete_item_nothing_there (item_path : string) (w : world) :
  Os.path_exists w item_path = false ->
  delete_item item_path w
  = (Return tt, Os.emit ("[-] Item " ++ item_path ++ " removed successfully") w).
Proof.
  intros Habs. destruct (absent_is_neither _ _ Habs) as (Hf & Hd).
  cbv beta delta [delete_item try_except bind os_path_isfile os_path_isdir
                  gets logging_info ret].
  now rewrite Hf, Hd.
Qed.

Lemma delete_item_effect (here : loc) (item_path : string) (w : world) (l : loc) :
  benign here w ->
  Os.locate w item_path = Some l -> l <> [] ->
  let w' := exec (delete_item item_path) w in
  benign here w' /\ nothing_new w w' /\ (forall c, stat l (root w') <> Found c).
Proof.
  intros (Hf & Hcwd & Hu & Hwn) Hl Hne. cbv zeta. unfold exec.
  destruct (stat l (root w)) as [found| |] eqn:Hs.
  - rewrite (delete_item_done item_path w l found Hl Hne Hs)
      by (intros q; rewrite Hf; reflexivity).
    cbn [snd]. unfold benign, nothing_new. cbn [faults cwd root Os.emit Os.set_root Os.record].
    destruct (remove_at_keeps_names l (root w)) as [Ku Kw].
    repeat split; auto.
    + intros q c' Hq. now apply (stat_remove_at_found l q (root w) c').
    + intros c. now rewrite (stat_remove_at l (root w) found Hu Hne Hs).
  - rewrite delete_item_nothing_there
      by (unfold Os.path_exists, Os.stat_path; now rewrite Hl, Hs).
    cbn [snd]. unfold benign, nothing_new. cbn [faults cwd root Os.emit].
    repeat split; auto; [eauto|]. intros c. now rewrite Hs.
  - rewrite delete_item_nothing_there
      by (unfold Os.path_exists, Os.stat_path; now rewrite Hl, Hs).
    cbn [snd]. unfold benign, nothing_new. cbn [faults cwd root Os.emit].
    repeat split; auto; [eauto|]. intros c. now rewrite Hs.
Qed.

Lemma delete_steps_effect (here : loc) (replica_folder : string) :
  forall items w0,
    benign here w0 ->
    (forall item, In item items ->
       exists l, PosixPath.abs_components here (os_path_join replica_folder item) = l
                 /\ l <> [] /\ os_path_join replica_folder item <> "") ->
    let w1 := fold_left (delete_step replica_folder) items w0 in
    benign here w1 /\ nothing_new w0 w1 /\
    (forall item c, In item items ->
       stat (PosixPath.abs_components here (os_path_join replica_folder item))
            (root w1) <> Found c).
Proof.
  induction items as [|item items IH]; intros w0 Hb Hloc; cbv zeta.
  - cbn [fold_left]. split; [exact Hb|]. split; [intros q c' Hq; eauto|].
    intros item c [].
  - cbn [fold_left].
    destruct (Hloc item (or_introl eq_refl)) as (l & El & Hne & Hpath).
    assert (Hl : Os.locate w0 (os_path_join replica_folder item) = Some l).
    { unfold Os.locate. destruct (String.eqb_spec (os_path_join replica_folder item) "");
        [contradiction|]. destruct Hb as (_ & -> & _). now rewrite El. }
    destruct (delete_item_effect here (os_path_join replica_folder item) w0 l Hb Hl Hne)
      as (Hb' & Hnew & Hgone).
    fold (delete_step replica_folder w0 item) in Hb', Hnew, Hgone.
    destruct (IH (delete_step replica_folder w0 item) Hb'
                 (fun i Hi => Hloc i (or_intror Hi)))
      as (Hb1 & Hnew1 & Hgone1).
    split; [exact Hb1|]. split.
    + intros q c' Hq. destruct (Hnew1 q c' Hq) as (c & Hc). now apply (Hnew q c).
    + intros i c [<-|Hi].
      * intros Hfound. rewrite El in Hfound.
        destruct (Hnew1 l c Hfound) as (c0 & Hc0). now apply (Hgone c0).
      * now apply Hgone1.
Qed.

Lemma locate_inv (w : world) (p : string) (l : loc) :
  Os.locate w p = Some l -> p <> "" /\ PosixPath.abs_components (cwd w) p = l.
Proof.
  unfold Os.locate. destruct (String.eqb_spec p ""); [discriminate|].
  intros E. inversion E. now split.
Qed.

(** X20. In an environment that refuses nothing, over a file system
    with well-formed names and one object per name, the delete phase leaves
    the replica with entries of the source only: every entry
    [walk_folder_content] lists in the replica afterwards was an entry of
    the source. *)
Theorem delete_phase_leaves_only_source_entries
        (source_folder replica_folder : string) (w : world) :
  faults w = [] ->
  well_named (root w) = true ->
  unique_names (root w) = true ->
  forall item,
    In item (entries (exec (delete_extra_items_from_replica
                              source_folder replica_folder) w)
                     replica_folder) ->
    In item (entries w source_folder).
Proof.
  intros Hf Hwn Hu item Hin. unfold exec in Hin.
  rewrite delete_phase_spec in Hin. cbn [snd] in Hin.
  set (w0 := Os.record (Walk replica_folder) (Os.record (Walk source_folder) w)) in *.
  set (w1 := fold_left (delete_step replica_folder)
                       (extra w source_folder replica_folder) w0) in *.
  assert (Hb0 : benign (cwd w) w0) by (unfold benign; cbn; auto).
  destruct (Os.locate w replica_folder) as [B|] eqn:HB.
  2:{ (* an empty path has no entries, before or after *)
      unfold entries, Os.stat_path in Hin.
      assert (E : Os.locate w1 replica_folder = None).
      { unfold Os.locate in *. destruct (String.eqb replica_folder ""); [reflexivity|discriminate]. }
      rewrite E in Hin. contradiction. }
  destruct (stat B (root w)) as [n| |] eqn:Hn.
  - assert (Hstat : Os.stat_path w replica_folder = Found n)
      by (unfold Os.stat_path; now rewrite HB).
    destruct (well_named_stat B (root w) n Hwn Hn) as [Hwn_n _].
    pose proof (unique_names_stat B (root w) n Hu Hn) as Hu_n.
    assert (Hloc : forall i, In i (extra w source_folder replica_folder) ->
              exists l, PosixPath.abs_components (cwd w) (os_path_join replica_folder i) = l
                        /\ l <> [] /\ os_path_join replica_folder i <> "").
    { intros i Hi. apply filter_In in Hi as [Hi _].
      destruct (entries_found w replica_folder n i Hstat Hwn_n Hu_n Hi)
        as (r & x & c & -> & Hr & Hx & _).
      pose proof (locate_entry w replica_folder B r x HB Hr Hx) as Hl.
      apply locate_inv in Hl as [Hne El].
      exists (B ++ r ++ [x])%list. split; [exact El|]. split; [|exact Hne].
      intros E. apply app_eq_nil in E as [_ E]. apply app_eq_nil in E as [_ E].
      discriminate. }
    destruct (delete_steps_effect (cwd w) replica_folder
                (extra w source_folder replica_folder) w0 Hb0 Hloc)
      as ((Hf1 & Hcwd1 & Hu1 & Hwn1) & Hnew & Hgone).
    fold w1 in Hf1, Hcwd1, Hu1, Hwn1, Hnew, Hgone.
    assert (HB1 : Os.locate w1 replica_folder = Some B).
    { unfold Os.locate in *. rewrite Hcwd1. exact HB. }
    destruct (stat B (root w1)) as [n1| |] eqn:Hn1.
    2,3: unfold entries, Os.stat_path in Hin; rewrite HB1, Hn1 in Hin; contradiction.
    assert (Hstat1 : Os.stat_path w1 replica_folder = Found n1)
      by (unfold Os.stat_path; now rewrite HB1).
    destruct (well_named_stat B (root w1) n1 Hwn1 Hn1) as [Hwn_n1 _].
    pose proof (unique_names_stat B (root w1) n1 Hu1 Hn1) as Hu_n1.
    destruct (entries_found w1 replica_folder n1 item Hstat1 Hwn_n1 Hu_n1 Hin)
      as (r & x & c & -> & Hr & Hx & Hc).
    assert (Hc1 : stat (B ++ r ++ [x]) (root w1) = Found c)
      by (now rewrite stat_app, Hn1).
    destruct (Hnew _ _ Hc1) as (c0 & Hc0).
    change (root w0) with (root w) in Hc0.
    rewrite stat_app, Hn in Hc0.
    pose proof (entries_complete w replica_folder n r x c0 Hstat Hwn_n Hc0) as Hrep.
    destruct (contains (entries w source_folder) (entry_of (r ++ [x]))) eqn:Hsrc.
    + now apply contains_In.
    + exfalso. apply (Hgone (entry_of (r ++ [x])) c).
      * apply filter_In. split; [exact Hrep|]. now rewrite Hsrc.
      * pose proof (locate_entry w replica_folder B r x HB Hr Hx) as Hl.
        apply locate_inv in Hl as [_ ->]. exact Hc1.
  - assert (E : extra w source_folder replica_folder = []).
    { unfold extra, entries at 2, Os.stat_path. now rewrite HB, Hn. }
    unfold w1 in Hin. rewrite E in Hin. cbn [fold_left] in Hin.
    unfold w0 in Hin. rewrite !entries_record in Hin.
    unfold entries, Os.stat_path in Hin. rewrite HB, Hn in Hin. contradiction.
  - assert (E : extra w source_folder replica_folder = []).
    { unfold extra, entries at 2, Os.stat_path. now rewrite HB, Hn. }
    unfold w1 in Hin. rewrite E in Hin. cbn [fold_left] in Hin.
    unfold w0 in Hin. rewrite !entries_record in Hin.
    unfold entries, Os.stat_path in Hin. rewrite HB, Hn in Hin. contradiction.
Qed.

Lemma delete_phase_leaves_only_source_entries_witness :
  In "./a.txt" (entries mixed "/s").
Proof.
  apply (delete_phase_leaves_only_source_entries
           "/s" "/r" mixed eq_refl eq_refl eq_refl "./a.txt").
  vm_compute. left. reflexivity.
Defined.

(** ** Putting an object in a tree *)

(** Unless a file stands in the way, the object put at [l] is found there,
    with everything below it. *)
Lemma stat_put_at_reached (new : node) :
  forall l n, l <> [] -> stat l n <> Blocked ->
              stat l (put_at l new n) = Found new.
Proof.
  induction l as [|x l IH]; intros n Hne Hb; [contradiction|].
  destruct n as [data|es]; [now destruct l|].
  destruct l as [|y l].
  - cbn [put_at stat]. now rewrite assoc_set_entry.
  - rewrite put_at_below. cbn [stat]. rewrite assoc_set_entry.
    apply IH; [discriminate|]. cbn [stat] in Hb.
    destruct (assoc x es) as [c|]; [exact Hb|discriminate].
Qed.

(** What lies above the place of the new object stays, a directory as
    before. *)
Lemma stat_put_at_above (new : node) :
  forall a b n c,
    b <> [] -> stat a n = Found c ->
    exists c', stat a (put_at (a ++ b) new n) = Found c'
               /\ Tree.is_dir c' = Tree.is_dir c.
Proof.
  induction a as [|x a IH]; intros b n c Hb Hs.
  - cbn in Hs. inversion Hs; subst c. cbn [app stat].
    exists (put_at b new n). split; [reflexivity|].
    destruct b as [|y b]; [contradiction|].
    destruct n as [data|es]; [now destruct b|]. now destruct b.
  - destruct n as [data|es]; [discriminate|]. cbn [stat] in Hs.
    destruct (assoc x es) as [c1|] eqn:Hx; [|discriminate].
    cbn [app]. destruct (a ++ b) as [|z l] eqn:Hab.
    { apply app_eq_nil in Hab as [_ ->]. contradiction. }
    rewrite put_at_below, Hx, <- Hab. cbn [stat]. rewrite assoc_set_entry.
    now apply IH.
Qed.

(** Two locations part ways, or one leads to the other. *)
Lemma diverge_or_prefix :
  forall a b : loc,
    diverge a b = true \/ (exists t, b = a ++ t) \/ (exists t, a = b ++ t /\ t <> []).
Proof.
  induction a as [|x a IH]; intros b.
  - right. left. now exists b.
  - destruct b as [|y b].
    + right. right. exists (x :: a). split; [reflexivity|discriminate].
    + cbn [diverge]. destruct (String.eqb_spec x y) as [<-|Hxy]; [|now left].
      destruct (IH b) as [H|[(t & ->)|(t & -> & Ht)]].
      * now left.
      * right. left. now exists t.
      * right. right. now exists t.
Qed.

Lemma stat_prefix_found :
  forall a b n c, stat (a ++ b) n = Found c -> exists c', stat a n = Found c'.
Proof.
  intros a b n c Hs. rewrite stat_app in Hs.
  destruct (stat a n) as [c'| |]; [now exists c'|discriminate|discriminate].
Qed.

Lemma stat_below_dir (p : loc) (x : string) (n : node) (es : list (string * node)) :
  stat p n = Found (Dir es) -> stat (p ++ [x]) n <> Blocked.
Proof.
  intros Hp. rewrite stat_app, Hp. cbn [stat].
  destruct (assoc x es); discriminate.
Qed.

(** Where the objects found after a put come from: from the new object,
    or from what was there, with its kind. *)
Lemma put_at_origin (new : node) (p : loc) (x : string) (n : node)
      (es : list (string * node)) :
  stat p n = Found (Dir es) ->
  forall q c',
    stat q (put_at (p ++ [x]) new n) = Found c' ->
    (exists t, q = (p ++ [x]) ++ t /\ stat t new = Found c') \/
    (exists c, stat q n = Found c /\ Tree.is_dir c = Tree.is_dir c').
Proof.
  intros Hp q c' Hq.
  destruct (diverge_or_prefix (p ++ [x]) q) as [Hd|[(t & ->)|(t & E & Ht)]].
  - right. exists c'. split; [|reflexivity].
    now rewrite (stat_put_at_other new _ _ n Hd) in Hq.
  - left. exists t. split; [reflexivity|].
    rewrite stat_app, stat_put_at_reached in Hq; [exact Hq| |].
    + intros E. now apply app_eq_nil in E as [_ E].
    + now apply (stat_below_dir p x n es).
  - right.
    assert (Hpre : exists t', p = q ++ t').
    { destruct (exists_last Ht) as (t' & y & ->). exists t'.
      rewrite app_assoc in E. now apply app_inj_tail in E as [-> _]. }
    destruct Hpre as (t' & ->).
    destruct (stat_prefix_found q t' n _ Hp) as (c & Hc).
    destruct (stat_put_at_above new q t n c Ht Hc) as (c'' & Hc'' & Hk).
    rewrite E in Hq. rewrite Hq in Hc''. inversion Hc''; subst c''.
    exists c. split; [exact Hc|now symmetry].
Qed.

(** What was found before a put is found after it, with its kind, when the
    new object takes a free place or a file replaces a file. *)
Lemma put_at_keeps_found (new : node) (l : loc) (n : node) :
  (stat l n = Missing \/
   exists d d', stat l n = Found (File d) /\ new = File d') ->
  l <> [] ->
  forall q c,
    stat q n = Found c ->
    exists c', stat q (put_at l new n) = Found c'
               /\ Tree.is_dir c' = Tree.is_dir c.
Proof.
  intros Hl Hne q c Hq.
  destruct (diverge_or_prefix l q) as [Hd|[(t & ->)|(t & -> & Ht)]].
  - exists c. split; [|reflexivity]. now rewrite stat_put_at_other.
  - rewrite stat_app in Hq. destruct Hl as [Hl|(d & d' & Hl & ->)];
      rewrite Hl in Hq; [discriminate|].
    destruct t as [|y t]; [|discriminate]. cbn in Hq. inversion Hq; subst c.
    exists (File d'). split; [|reflexivity]. rewrite app_nil_r.
    apply stat_put_at_reached; [exact Hne|]. now rewrite Hl.
  - now apply stat_put_at_above.
Qed.

Lemma assoc_none_names (es : list (string * node)) (x : string) :
  assoc x es = None -> ~ In x (map fst es).
Proof.
  induction es as [|[n c] es IH]; cbn [assoc map fst]; [intros _ []|].
  destruct (String.eqb_spec n x) as [->|Hn]; [discriminate|].
  intros E [H|H]; [contradiction|now apply IH].
Qed.

Lemma names_set_entry_new (es : list (string * node)) (x : string) (new : node) :
  assoc x es = None -> map fst (set_entry x new es) = (map fst es ++ [x])%list.
Proof.
  induction es as [|[n c] es IH]; cbn [assoc set_entry map fst app]; [reflexivity|].
  destruct (String.eqb_spec n x) as [->|_]; [discriminate|].
  intros E. cbn [map fst]. now rewrite IH.
Qed.

Lemma NoDup_set_entry (es : list (string * node)) (x : string) (new : node) :
  NoDup (map fst es) -> NoDup (map fst (set_entry x new es)).
Proof.
  intros Hnd. destruct (assoc x es) as [c|] eqn:Hx.
  - now rewrite (names_set_entry es x c new Hx).
  - rewrite (names_set_entry_new es x new Hx).
    apply NoDup_app; [exact Hnd|repeat constructor; intros []|].
    intros y Hy [E|[]]. subst y. now apply (assoc_none_names es x).
Qed.

(** A put keeps the names unique and well formed, when the new object and
    the names of its place are. *)
Lemma put_at_keeps_names (new : node) :
  forall l n,
    (unique_names new = true -> unique_names n = true ->
     unique_names (put_at l new n) = true) /\
    (well_named new = true -> valid_names l -> well_named n = true ->
     well_named (put_at l new n) = true).
Proof.
  induction l as [|x l IH]; intros n; [now destruct n|].
  destruct n as [data|es]; [now destruct l|].
  destruct l as [|y l].
  - cbn [put_at]. split.
    + intros Hnew Hu. apply unique_names_spec in Hu as [Hnd Hall].
      apply unique_names_spec. split; [now apply NoDup_set_entry|].
      now apply Forall_set_entry.
    + intros Hnew Hl Hwn. apply well_named_spec in Hwn.
      apply well_named_spec. apply Forall_set_entry; [exact Hwn|].
      inversion Hl; subst. now split.
  - rewrite put_at_below.
    set (child := match assoc x es with Some c => c | None => Dir [] end).
    destruct (IH child) as [IHu IHw]. split.
    + intros Hnew Hu.
      assert (Hc : unique_names child = true).
      { unfold child. destruct (assoc x es) as [c|] eqn:Hx; [|reflexivity].
        now apply (unique_names_dir es x c). }
      apply unique_names_spec in Hu as [Hnd Hall].
      apply unique_names_spec. split; [now apply NoDup_set_entry|].
      apply Forall_set_entry; [exact Hall|]. cbn [snd]. now apply IHu.
    + intros Hnew Hl Hwn. inversion Hl as [|? ? Hx Hl']; subst.
      apply well_named_spec in Hwn.
      assert (Hc : well_named child = true).
      { unfold child. destruct (assoc x es) as [c|] eqn:Hxe; [|reflexivity].
        rewrite Forall_forall in Hwn.
        now destruct (Hwn (x, c) (assoc_In_entry _ _ _ Hxe)). }
      apply well_named_spec. apply Forall_set_entry; [exact Hwn|].
      cbn [fst snd]. split; [exact Hx|]. now apply IHw.
Qed.

(** ** The order of the entries *)

Lemma entries_as_names (w : world) (folder_path : string) (n : node) :
  Os.stat_path w folder_path = Found n ->
  well_named n = true ->
  entries w folder_path = map entry_of (names_of (walk_names [] n)).
Proof.
  intros Hstat Hwn. rewrite (entries_by_names w folder_path n Hstat Hwn).
  unfold names_of. induction (walk_names [] n) as [|[[r ds] fs] ts IH];
    [reflexivity|].
  cbn [flat_map]. rewrite (map_app entry_of), (map_map _ entry_of), IH.
  reflexivity.
Qed.

Lemma parents_first_weaken (seen seen' : list loc) :
  forall qs,
    incl seen seen' -> parents_first seen qs -> parents_first seen' qs.
Proof.
  intros qs. revert seen seen'.
  induction qs as [|q qs IH]; intros seen seen' Hincl H; [exact I|].
  destruct H as [Hq H]. split; [now apply Hincl|].
  apply (IH (q :: seen)); [|exact H].
  intros p [<-|Hp]; [now left|right; now apply Hincl].
Qed.

Lemma parents_first_app (a b : list loc) :
  forall seen,
    parents_first seen a -> parents_first (a ++ seen) b ->
    parents_first seen (a ++ b).
Proof.
  induction a as [|q a IH]; intros seen Ha Hb; [exact Hb|].
  destruct Ha as [Hq Ha]. split; [exact Hq|].
  apply IH; [exact Ha|].
  apply (parents_first_weaken ((q :: a) ++ seen)); [|exact Hb].
  intros p Hp. apply in_or_app. cbn [app] in Hp.
  destruct Hp as [<-|Hp]; [right; now left|].
  apply in_app_or in Hp as [Hp|Hp]; [now left|right; now right].
Qed.

Lemma parents_first_children (rel : loc) (xs : list string) :
  forall seen,
    In rel seen -> parents_first seen (map (fun x => rel ++ [x]) xs).
Proof.
  induction xs as [|x xs IH]; intros seen Hrel; [exact I|].
  cbn [map]. split; [now rewrite removelast_last|].
  apply IH. now right.
Qed.

(** [os.walk] is top-down: a directory is listed before what it holds. *)
Lemma walk_names_parents_first (n : node) :
  forall rel seen,
    In rel seen -> parents_first seen (names_of (walk_names rel n)).
Proof.
  induction n as [data|es IH] using node_ind'; intros rel seen Hrel; [exact I|].
  cbn [walk_names]. unfold names_of. cbn [flat_map]. fold names_of.
  apply parents_first_app; [now apply parents_first_children|].
  match goal with
  | |- parents_first ?s _ =>
      assert (Hdirs : forall name es', In (name, Dir es') es -> In (rel ++ [name]) s)
        by (intros name es' Hin; apply in_or_app; left;
            apply (in_map (fun x => rel ++ [x])%list);
            now apply (listed es name (Dir es')));
      generalize dependent s
  end.
  clear Hrel.
  induction es as [|[name child] es IHes]; intros seen' Hdirs; [exact I|].
  inversion IH as [|? ? Hc Hes]; subst. cbn [snd] in Hc.
  unfold names_of. rewrite flat_map_app. fold names_of.
  apply parents_first_app.
  - destruct child as [data|es']; [exact I|].
    apply Hc. apply (Hdirs name es'). now left.
  - apply IHes; [exact Hes|].
    intros name' es' Hin. apply in_or_app. right.
    apply (Hdirs name' es'). now right.
Qed.

(** ** Copying where nothing fails *)

Section CopyEffects.

Context `{Hashlib}.

Lemma copy2_done (source_path replica_path : string) (w : world) (ls ld : loc)
      (data : content) :
  Os.locate w source_path = Some ls ->
  stat ls (root w) = Found (File data) ->
  Os.locate w replica_path = Some ld ->
  diverge ls ld = true ->
  faults w = [] ->
  (stat ld (root w) = Missing /\
   exists es, stat (removelast ld) (root w) = Found (Dir es)) \/
  (exists d, stat ld (root w) = Found (File d)) ->
  exists stored,
    Os.copy2 source_path replica_path w
    = (Return tt,
       Os.set_root (put_at ld (File stored) (root w))
                   (Os.record (Copy2 source_path replica_path) w)).
Proof.
  intros Hls Hs Hld Hdiv Hf Hd.
  exists (match Os.tamper_at ld (tamper w) with Some d => d | None => data end).
  cbv beta delta [Os.copy2 bind Os.read_binary Os.write_binary] zeta.
  unfold Os.is_dir, Os.path_exists. rewrite !stat_path_record.
  unfold Os.stat_path.
  change (Os.locate (Os.record (Copy2 source_path replica_path) w))
    with (Os.locate w).
  cbn [faults tamper root Os.record]. rewrite Hf. cbn [Os.fault_at].
  destruct Hd as [(Hd & es & Hp)|(d & Hd)].
  - rewrite Hld, Hd, Hls, Hs. cbv beta iota. rewrite Hld.
    rewrite (diverge_not_equal _ _ Hdiv). cbn [andb]. cbv beta iota.
    change (Os.locate (Os.record (Copy2 source_path replica_path) w))
      with (Os.locate w).
    cbn [faults tamper root Os.record].
    rewrite Hld, Hd, Hp, ?Hf. reflexivity.
  - rewrite Hld, Hd, Hls, Hs. cbv beta iota. rewrite Hld.
    rewrite (diverge_not_equal _ _ Hdiv). cbn [andb]. cbv beta iota.
    change (Os.locate (Os.record (Copy2 source_path replica_path) w))
      with (Os.locate w).
    cbn [faults tamper root Os.record].
    rewrite Hld, Hd, ?Hf. reflexivity.
Qed.

(** [copy_item] on a file, towards a free name in a directory or onto a
    file: the destination becomes a file; one line is logged. *)
Lemma copy_item_file_done (source_path replica_path : string) (w : world)
      (ls ld : loc) (data : content) :
  Os.locate w source_path = Some ls ->
  stat ls (root w) = Found (File data) ->
  Os.locate w replica_path = Some ld ->
  diverge ls ld = true ->
  faults w = [] ->
  (stat ld (root w) = Missing /\
   exists es, stat (removelast ld) (root w) = Found (Dir es)) \/
  (exists d, stat ld (root w) = Found (File d)) ->
  exists stored line,
    copy_item source_path replica_path w
    = (Return tt,
       Os.emit line
         (Os.set_root (put_at ld (File stored) (root w))
                      (Os.record (Copy2 source_path replica_path) w))).
Proof.
  intros Hls Hs Hld Hdiv Hf Hd.
  destruct (copy2_done source_path replica_path w ls ld data Hls Hs Hld Hdiv Hf Hd)
    as (stored & Hcopy).
  set (w1 := Os.set_root (put_at ld (File stored) (root w))
                         (Os.record (Copy2 source_path replica_path) w)) in *.
  pose proof (diverge_nonempty ls ld Hdiv) as Hne.
  assert (Hdst : stat ld (root w1) = Found (File stored)).
  { unfold w1. cbn [root Os.set_root Os.record].
    apply stat_put_at_reached; [exact Hne|].
    destruct Hd as [(Hd & _)|(d & Hd)]; now rewrite Hd. }
  assert (Hsrc : stat ls (root w1) = Found (File data)).
  { unfold w1. cbn [root Os.set_root Os.record].
    rewrite stat_put_at_other; [exact Hs|]. now rewrite diverge_sym. }
  assert (Hf1 : forall l, Os.fault_at l (faults w1) = None).
  { intros l. unfold w1. cbn [faults Os.set_root Os.record]. now rewrite Hf. }
  exists stored.
  exists (if String.eqb (hexdigest (read_loop (S (length data)) data md5))
                        (hexdigest (read_loop (S (length stored)) stored md5))
          then ("[+] Item " ++ source_path ++ " copied [Integrity verified]")%string
          else ("[!] Item " ++ source_path ++ " copied [Integrity compromised]")%string).
  cbv beta delta [copy_item try_except bind os_path_isfile gets logging_info].
  unfold Os.is_file at 1. unfold Os.stat_path at 1. rewrite Hls, Hs, Hcopy.
  rewrite (digest_of_file source_path w1 ls data) by auto.
  rewrite (digest_of_file replica_path w1 ld stored) by auto.
  now destruct (String.eqb _ _).
Qed.

(** [copy_item] on a directory: a free destination receives the tree of the
    source; a destination that exists makes [shutil.copytree] fail, which
    is logged, and nothing changes. *)
Lemma copy_item_dir_done (source_path replica_path : string) (w : world)
      (ls ld : loc) (es : list (string * node)) :
  Os.locate w source_path = Some ls ->
  stat ls (root w) = Found (Dir es) ->
  Os.locate w replica_path = Some ld ->
  faults w = [] ->
  stat ld (root w) <> Blocked ->
  exists line,
    copy_item source_path replica_path w
    = (Return tt,
       Os.emit line
         (match stat ld (root w) with
          | Missing =>
              Os.set_root (put_at ld (Dir es) (root w))
                          (Os.record (Copytree source_path replica_path) w)
          | _ => Os.record (Copytree source_path replica_path) w
          end)).
Proof.
  intros Hls Hs Hld Hf Hb.
  cbv beta delta [copy_item try_except bind os_path_isfile os_path_isdir gets
                  logging_info].
  unfold Os.is_file at 1. unfold Os.stat_path at 1. rewrite Hls, Hs.
  cbv beta iota.
  unfold Os.is_dir at 1. unfold Os.stat_path at 1. rewrite Hls, Hs.
  cbv beta iota.
  cbv beta delta [Os.copytree] zeta. rewrite !stat_path_record.
  unfold Os.stat_path.
  change (Os.locate (Os.record (Copytree source_path replica_path) w))
    with (Os.locate w).
  cbn [faults root Os.record]. rewrite Hls, Hs, Hld, Hf. cbn [Os.fault_at].
  destruct (stat ld (root w)) as [c| |]; [| |contradiction]; eexists; reflexivity.
Qed.

End CopyEffects.

Lemma grows_refl (w : world) : grows w w.
Proof. intros q c Hq. now exists c. Qed.

Lemma grows_trans (w1 w2 w3 : world) : grows w1 w2 -> grows w2 w3 -> grows w1 w3.
Proof.
  intros H12 H23 q c Hq. destruct (H12 q c Hq) as (c' & Hc' & K').
  destruct (H23 q c' Hc') as (c'' & Hc'' & K''). exists c''.
  split; [exact Hc''|congruence].
Qed.

Lemma stat_parent_dir (r : loc) (x : string) (n c : node) :
  stat (r ++ [x]) n = Found c -> exists es, stat r n = Found (Dir es).
Proof.
  rewrite stat_app. destruct (stat r n) as [[d|es]| |]; try discriminate.
  intros _. now exists es.
Qed.

Lemma fold_left_over_map {A B C} (f : A -> B -> A) (h : C -> B) :
  forall l a, fold_left f (map h l) a = fold_left (fun a x => f a (h x)) l a.
Proof. induction l as [|x l IH]; intros a; [reflexivity|apply IH]. Qed.

(** The objects a walk lists are found in the tree, under valid names. *)
Lemma names_of_found (n : node) (q : loc) :
  well_named n = true -> unique_names n = true ->
  In q (names_of (walk_names [] n)) ->
  exists r x c,
    q = (r ++ [x])%list /\ valid_names r /\ valid_name x = true /\
    stat q n = Found c.
Proof.
  intros Hwn Hu Hin. unfold names_of in Hin.
  apply in_flat_map in Hin as ([[r ds] fs] & Ht & Hin).
  apply in_map_iff in Hin as (x & E & Hx).
  pose proof (walk_names_valid n Hwn [] (Forall_nil _)) as Hvalid.
  rewrite Forall_forall in Hvalid.
  destruct (Hvalid _ Ht) as (Hr & Hds & Hfs). cbn [fst snd] in *.
  assert (Hxv : valid_name x = true).
  { unfold valid_names in Hds, Hfs. apply in_app_or in Hx as [Hx|Hx];
      [rewrite Forall_forall in Hfs; now apply Hfs
      |rewrite Forall_forall in Hds; now apply Hds]. }
  destruct (walk_names_stat n Hu [] r ds fs Ht) as (q' & es & Hq & Hs & -> & ->).
  cbn [app] in Hq. subst q'.
  destruct (listed_name es x Hx) as (c & Hc).
  exists r, x, c. split; [now symmetry|]. split; [exact Hr|]. split; [exact Hxv|].
  subst q. rewrite stat_app, Hs. cbn [stat].
  rewrite (assoc_In es x c); [reflexivity| |exact Hc].
  now apply (unique_names_stat r n).
Qed.


Section Delivery.

Context `{Hashlib}.

Variables (source_folder replica_folder : string) (w : world).
Variables (at_source at_replica : loc) (ss rs : list (string * node)).
Hypothesis nothing_fails : faults w = [].
Hypothesis names_valid : well_named (root w) = true.
Hypothesis names_unique : unique_names (root w) = true.
Hypothesis absolute_replica : PosixPath.isabs replica_folder = true.
Hypothesis source_at : Os.locate w source_folder = Some at_source.
Hypothesis replica_at : Os.locate w replica_folder = Some at_replica.
Hypothesis roots_apart : diverge at_source at_replica = true.
Hypothesis source_tree : stat at_source (root w) = Found (Dir ss).
Hypothesis replica_tree : stat at_replica (root w) = Found (Dir rs).
Hypothesis no_file_for_directory :
  forall q d es,
    stat q (Dir rs) = Found (File d) -> stat q (Dir ss) = Found (Dir es) -> False.

Lemma copying_start (w0 : world) :
  root w0 = root w -> cwd w0 = cwd w -> faults w0 = faults w ->
  copying w at_source at_replica (Dir ss) (Dir rs) w0.
Proof.
  intros Hroot Hcwd Hf. unfold copying. rewrite Hroot, Hf.
  repeat split; auto.
  - intros q c Hq. rewrite Hroot. now exists c.
  - intros q c Hq. left. rewrite Hroot, stat_app, replica_tree in Hq.
    now exists c.
Qed.

(** The step of the copy phase that puts [new], an object of the kind and
    contents of the source's, at the place of the entry [r ++ [x]]. *)
Lemma put_step (w' w'' : world) (r : list string) (x : string) (cs new : node)
      (ps : list (string * node)) :
  copying w at_source at_replica (Dir ss) (Dir rs) w' ->
  valid_names r -> valid_name x = true ->
  stat (r ++ [x]) (Dir ss) = Found cs ->
  stat (at_replica ++ r) (root w') = Found (Dir ps) ->
  (forall t c', stat t new = Found c' ->
                exists c, stat t cs = Found c /\ Tree.is_dir c = Tree.is_dir c') ->
  well_named new = true -> unique_names new = true ->
  (stat (at_replica ++ r ++ [x]) (root w') = Missing \/
   exists d d', stat (at_replica ++ r ++ [x]) (root w') = Found (File d)
                /\ new = File d') ->
  root w'' = put_at (at_replica ++ r ++ [x]) new (root w') ->
  faults w'' = faults w' -> cwd w'' = cwd w' ->
  copying w at_source at_replica (Dir ss) (Dir rs) w'' /\ grows w' w'' /\
  exists c, stat (at_replica ++ r ++ [x]) (root w'') = Found c.
Proof.
  intros (Hf & Hcwd & Hsrc & Hwn & Hu & Hg & Hm) Hr Hx Hcs Hparent Hnew Hwnew
         Hunew Htarget Hroot Hf' Hcwd'.
  assert (Hne : at_replica ++ r ++ [x] <> []).
  { intros E. apply app_eq_nil in E as [_ E]. now apply app_eq_nil in E as [_ E]. }
  destruct (well_named_stat at_replica (root w) (Dir rs) names_valid replica_tree)
    as [_ Hvalid].
  assert (Hgrow : grows w' w'').
  { intros q c Hq. rewrite Hroot. now apply put_at_keeps_found. }
  split; [|split; [exact Hgrow|]].
  - unfold copying. rewrite Hf', Hcwd', Hroot.
    destruct (put_at_keeps_names new (at_replica ++ r ++ [x]) (root w')) as [Ku Kw].
    split; [exact Hf|]. split; [exact Hcwd|]. split.
    { rewrite stat_put_at_other; [exact Hsrc|].
      apply diverge_app. now rewrite diverge_sym. }
    split.
    { apply Kw; [exact Hwnew| |exact Hwn].
      apply Forall_app. split; [exact Hvalid|].
      apply Forall_app. split; [exact Hr|now constructor]. }
    split; [now apply Ku|].
    split; [now apply (grows_trans w w' w'')|].
    intros q c' Hq. rewrite Hroot in Hq.
    replace (at_replica ++ r ++ [x])%list with ((at_replica ++ r) ++ [x])%list in Hq
      by now rewrite <- app_assoc.
    destruct (put_at_origin new (at_replica ++ r) x (root w') ps Hparent _ _ Hq)
      as [(t & E & Ht)|(c & Hc & Hk)].
    + right. rewrite <- !app_assoc in E. apply app_inv_head in E. subst q.
      destruct (Hnew t c' Ht) as (c & Hc & Hk). exists c. split; [|exact Hk].
      now rewrite app_assoc, stat_app, Hcs.
    + destruct (Hm q c Hc) as [(c0 & Hc0 & K)|(c1 & Hc1 & K)].
      * left. exists c0. split; [exact Hc0|congruence].
      * right. exists c1. split; [exact Hc1|congruence].
  - exists new. rewrite Hroot. apply stat_put_at_reached; [exact Hne|].
    destruct Htarget as [E|(d & d' & E & _)]; now rewrite E.
Qed.

(** One step of the copy loop, on an entry of the source that the replica
    lacked when the phase began, whose directory is already in the replica:
    afterwards the entry is there. *)
Lemma copy_step_effect (w' : world) (r : list string) (x : string) (cs : node) :
  copying w at_source at_replica (Dir ss) (Dir rs) w' ->
  valid_names r -> valid_name x = true ->
  stat (r ++ [x]) (Dir ss) = Found cs ->
  (exists c, stat (at_replica ++ r) (root w') = Found c) ->
  ~ In (entry_of (r ++ [x])) (entries w replica_folder) ->
  let w'' := copy_step source_folder replica_folder w' (entry_of (r ++ [x])) in
  copying w at_source at_replica (Dir ss) (Dir rs) w'' /\ grows w' w'' /\
  exists c, stat (at_replica ++ r ++ [x]) (root w'') = Found c.
Proof.
  intros Hinv Hr Hx Hcs (c & Hparent) Hnot. cbv zeta.
  pose proof Hinv as (Hf & Hcwd & Hsrc & Hwn & Hu & Hg & Hm).
  destruct (well_named_stat at_source (root w) (Dir ss) names_valid source_tree)
    as [Hwn_s _].
  destruct (well_named_stat at_replica (root w) (Dir rs) names_valid replica_tree)
    as [Hwn_r _].
  pose proof (unique_names_stat at_source (root w) (Dir ss) names_unique source_tree)
    as Hu_s.
  assert (Hstat_r : Os.stat_path w replica_folder = Found (Dir rs))
    by (unfold Os.stat_path; now rewrite replica_at).
  (* the paths of the step *)
  assert (Hls : Os.locate w' (os_path_join source_folder (entry_of (r ++ [x])))
                = Some (at_source ++ r ++ [x])).
  { rewrite (locate_cwd w w' _ Hcwd). now apply locate_entry. }
  assert (Hld : Os.locate w' (os_path_join replica_folder (entry_of (r ++ [x])))
                = Some (at_replica ++ r ++ [x])).
  { rewrite (locate_cwd w w' _ Hcwd). now apply locate_entry. }
  assert (Hs : stat (at_source ++ r ++ [x]) (root w') = Found cs).
  { now rewrite stat_app, Hsrc. }
  assert (Hdiv : diverge (at_source ++ r ++ [x]) (at_replica ++ r ++ [x]) = true).
  { apply diverge_app. rewrite diverge_sym. apply diverge_app.
    now rewrite diverge_sym. }
  unfold copy_step.
  rewrite destination_absolute_root;
    [|exact absolute_replica|apply (entry_of_relative r x Hr Hx)].
  (* the directory of the entry is a directory of the replica *)
  destruct (stat_parent_dir r x (Dir ss) cs Hcs) as (es_r & Hsr).
  assert (Hpdir : exists ps, c = Dir ps).
  { destruct c as [d|ps]; [exfalso|now exists ps].
    destruct (Hm r (File d) Hparent) as [(c0 & Hc0 & K)|(c1 & Hc1 & K)].
    - destruct c0 as [d0|]; [|discriminate].
      exact (no_file_for_directory r d0 es_r Hc0 Hsr).
    - rewrite Hsr in Hc1. inversion Hc1; subst c1. discriminate. }
  destruct Hpdir as (ps & ->).
  assert (Hparent' : stat (removelast (at_replica ++ r ++ [x])) (root w')
                     = Found (Dir ps)).
  { now rewrite app_assoc, removelast_last. }
  assert (Hnb : stat (at_replica ++ r ++ [x]) (root w') <> Blocked).
  { rewrite app_assoc. now apply (stat_below_dir _ x _ ps). }
  (* what is at the destination is not from the replica of the beginning *)
  assert (Hfresh : forall c_t, stat (at_replica ++ r ++ [x]) (root w') = Found c_t ->
                               Tree.is_dir c_t = Tree.is_dir cs).
  { intros c_t Ht.
    destruct (Hm (r ++ [x])%list c_t Ht) as [(c0 & Hc0 & K)|(c1 & Hc1 & K)].
    - exfalso. apply Hnot.
      now apply (entries_complete w replica_folder (Dir rs) r x c0).
    - rewrite Hcs in Hc1. now inversion Hc1; subst c1. }
  destruct cs as [data|es].
  - (* a file *)
    assert (Htarget :
      (stat (at_replica ++ r ++ [x]) (root w') = Missing /\
       exists es, stat (removelast (at_replica ++ r ++ [x])) (root w')
                  = Found (Dir es)) \/
      (exists d, stat (at_replica ++ r ++ [x]) (root w') = Found (File d))).
    { destruct (stat (at_replica ++ r ++ [x]) (root w')) as [c_t| |] eqn:Ht.
      - right. specialize (Hfresh c_t eq_refl).
        destruct c_t as [d|]; [now exists d|discriminate].
      - left. split; [reflexivity|now exists ps].
      - contradiction. }
    destruct (copy_item_file_done _ _ w' _ _ data Hls Hs Hld Hdiv Hf Htarget)
      as (stored & line & E).
    unfold exec. rewrite E. cbn [snd].
    apply (put_step w' _ r x (File data) (File stored) ps); auto.
    + intros t c' Ht. destruct t; [|discriminate]. cbn in Ht.
      inversion Ht; subst c'. now exists (File data).
    + destruct Htarget as [[Ht _]|(d & Ht)]; [now left|right].
      now exists d, stored.
  - (* a directory *)
    destruct (copy_item_dir_done _ _ w' _ _ es Hls Hs Hld Hf Hnb) as (line & E).
    unfold exec. rewrite E. cbn [snd].
    destruct (stat (at_replica ++ r ++ [x]) (root w')) as [c_t| |] eqn:Ht.
    + split; [|split].
      * destruct Hinv as (I1 & I2 & I3 & I4 & I5 & I6 & I7).
        unfold copying. cbn [faults cwd root Os.emit Os.record].
        repeat split; auto.
      * intros q c0 Hq. now exists c0.
      * now exists c_t.
    + apply (put_step w' _ r x (Dir es) (Dir es) ps); auto.
      * intros t c' Ht'. now exists c'.
      * rewrite <- (app_nil_l (r ++ [x])) in Hcs.
        now destruct (well_named_stat _ _ _ Hwn_s Hcs).
      * now apply (unique_names_stat (r ++ [x]) (Dir ss)).
    + contradiction.
Qed.

(** The copy loop over the entries of the source in the order of the walk,
    the entries of the replica skipped. *)
Lemma copy_steps_effect :
  forall qs seen w',
    copying w at_source at_replica (Dir ss) (Dir rs) w' ->
    parents_first seen qs ->
    (forall q, In q qs ->
       exists r x cs, q = (r ++ [x])%list /\ valid_names r /\ valid_name x = true /\
                      stat q (Dir ss) = Found cs) ->
    (forall p, In p seen -> exists c, stat (at_replica ++ p) (root w') = Found c) ->
    let w1 := fold_left
                (fun w' q =>
                   if negb (contains (entries w replica_folder) (entry_of q))
                   then copy_step source_folder replica_folder w' (entry_of q)
                   else w')
                qs w' in
    copying w at_source at_replica (Dir ss) (Dir rs) w1 /\ grows w' w1 /\
    forall q, In q qs -> exists c, stat (at_replica ++ q) (root w1) = Found c.
Proof.
  induction qs as [|q qs IH]; intros seen w' Hinv Hpf Hqs Hseen; cbv zeta.
  - cbn [fold_left]. split; [exact Hinv|]. split; [apply grows_refl|intros q []].
  - cbn [fold_left]. destruct Hpf as [Hparent Hpf].
    destruct (Hqs q (or_introl eq_refl)) as (r & x & cs & -> & Hr & Hx & Hcs).
    rewrite removelast_last in Hparent.
    set (w'' := if negb (contains (entries w replica_folder) (entry_of (r ++ [x])))
                then copy_step source_folder replica_folder w' (entry_of (r ++ [x]))
                else w').
    assert (Hstep :
      copying w at_source at_replica (Dir ss) (Dir rs) w'' /\ grows w' w'' /\
      exists c, stat (at_replica ++ r ++ [x]) (root w'') = Found c).
    { unfold w''.
      destruct (contains (entries w replica_folder) (entry_of (r ++ [x]))) eqn:G;
        cbn [negb].
      - split; [exact Hinv|]. split; [apply grows_refl|].
        apply contains_In in G.
        destruct (well_named_stat at_replica (root w) (Dir rs) names_valid replica_tree)
          as [Hwn_r _].
        pose proof (unique_names_stat at_replica (root w) (Dir rs) names_unique
                                      replica_tree) as Hu_r.
        assert (Hstat_r : Os.stat_path w replica_folder = Found (Dir rs))
          by (unfold Os.stat_path; now rewrite replica_at).
        destruct (entries_found w replica_folder (Dir rs) _ Hstat_r Hwn_r Hu_r G)
          as (r' & x' & c & E & Hr' & Hx' & Hc).
        apply entry_of_injective in E as [-> ->]; try assumption.
        destruct Hinv as (_ & _ & _ & _ & _ & Hg & _).
        destruct (Hg (at_replica ++ r' ++ [x'])%list c) as (c' & Hc' & _).
        + now rewrite stat_app, replica_tree.
        + now exists c'.
      - apply (copy_step_effect w' r x cs); auto.
        intros Hin. apply contains_In in Hin. congruence. }
    destruct Hstep as (Hinv' & Hgrow & c & Hc).
    destruct (IH ((r ++ [x])%list :: seen) w'' Hinv' Hpf
                 (fun q Hq => Hqs q (or_intror Hq)))
      as (Hinv1 & Hgrow1 & Hfound).
    { intros p [<-|Hp]; [now exists c|].
      destruct (Hseen p Hp) as (c0 & Hc0).
      destruct (Hgrow _ _ Hc0) as (c1 & Hc1 & _). now exists c1. }
    split; [exact Hinv1|]. split; [now apply (grows_trans w' w'')|].
    intros q [<-|Hq]; [|now apply Hfound].
    destruct (Hgrow1 _ _ Hc) as (c1 & Hc1 & _). now exists c1.
Qed.

(** The copy phase as a whole: its last world is one of the worlds of the
    phase, and holds every object the walk of the source listed. *)
Lemma copy_phase_effect :
  let w1 := exec (copy_new_from_source_to_replica source_folder replica_folder) w in
  copying w at_source at_replica (Dir ss) (Dir rs) w1 /\
  forall q, In q (names_of (walk_names [] (Dir ss))) ->
            exists c, stat (at_replica ++ q) (root w1) = Found c.
Proof.
  cbv zeta. unfold exec. rewrite copy_phase_spec. cbn [snd].
  set (w0 := Os.record (Walk replica_folder) (Os.record (Walk source_folder) w)).
  destruct (well_named_stat at_source (root w) (Dir ss) names_valid source_tree)
    as [Hwn_s _].
  pose proof (unique_names_stat at_source (root w) (Dir ss) names_unique source_tree)
    as Hu_s.
  assert (Hstat_s : Os.stat_path w source_folder = Found (Dir ss))
    by (unfold Os.stat_path; now rewrite source_at).
  unfold missing.
  rewrite (entries_as_names w source_folder (Dir ss) Hstat_s Hwn_s).
  rewrite <- (fold_left_guarded
                (fun item => negb (contains (entries w replica_folder) item))
                (copy_step source_folder replica_folder)).
  rewrite fold_left_over_map.
  destruct (copy_steps_effect (names_of (walk_names [] (Dir ss))) [[]] w0)
    as (Hinv1 & Hgrow & Hfound).
  { now apply copying_start. }
  { apply walk_names_parents_first. now left. }
  { intros q Hq. destruct (names_of_found (Dir ss) q Hwn_s Hu_s Hq)
      as (r & x & c & E & Hr & Hx & Hc). now exists r, x, c. }
  { intros p [<-|[]]. rewrite app_nil_r. exists (Dir rs). exact replica_tree. }
  split; [exact Hinv1|exact Hfound].
Qed.

(** X21. In an environment that makes no operation fail, with an
    absolute replica root, two trees that lie apart, names that are well
    formed and unique, and no file of the replica standing where the source
    has a directory, the copy phase delivers the source: every entry of the
    source is afterwards an entry of the replica. *)
Theorem copy_phase_delivers_every_source_entry (item : string) :
  In item (entries w source_folder) ->
  In item (entries (exec (copy_new_from_source_to_replica
                            source_folder replica_folder) w)
                   replica_folder).
Proof.
  intros Hin. destruct copy_phase_effect as (Hinv1 & Hfound).
  set (w1 := exec (copy_new_from_source_to_replica source_folder replica_folder) w)
    in *.
  destruct (well_named_stat at_source (root w) (Dir ss) names_valid source_tree)
    as [Hwn_s _].
  pose proof (unique_names_stat at_source (root w) (Dir ss) names_unique source_tree)
    as Hu_s.
  assert (Hstat_s : Os.stat_path w source_folder = Found (Dir ss))
    by (unfold Os.stat_path; now rewrite source_at).
  rewrite (entries_as_names w source_folder (Dir ss) Hstat_s Hwn_s) in Hin.
  apply in_map_iff in Hin as (q & <- & Hq).
  destruct (Hfound q Hq) as (c & Hc).
  destruct (names_of_found (Dir ss) q Hwn_s Hu_s Hq)
    as (r & x & _ & -> & Hr & Hx & _).
  destruct Hinv1 as (_ & Hcwd1 & _ & Hwn1 & _ & _ & _).
  destruct (stat_prefix_found at_replica (r ++ [x]) (root w1) c Hc) as (n1 & Hn1).
  destruct (well_named_stat at_replica (root w1) n1 Hwn1 Hn1) as [Hwn_n1 _].
  apply (entries_complete w1 replica_folder n1 r x c).
  - unfold Os.stat_path. rewrite (locate_cwd w w1 _ Hcwd1), replica_at. exact Hn1.
  - exact Hwn_n1.
  - now rewrite stat_app, Hn1 in Hc.
Qed.

End Delivery.

Lemma copy_phase_delivers_every_source_entry_witness :
  In "dir1/b.txt"
     (entries (exec (copy_new_from_source_to_replica "/s" "/r") nested) "/r").
Proof.
  apply (copy_phase_delivers_every_source_entry
           "/s" "/r" nested ["s"] ["r"]
           [("dir1", Dir [("b.txt", File (bytes "B"))])] []
           eq_refl eq_refl eq_refl eq_refl eq_refl eq_refl eq_refl eq_refl eq_refl).
  - intros [|x q] d es Hq; discriminate.
  - vm_compute. right. left. reflexivity.
Defined.

(** ** One cycle, where nothing fails *)

Lemma remove_at_kind (l : loc) (n : node) :
  Tree.is_dir (remove_at l n) = Tree.is_dir n.
Proof.
  destruct l as [|x l]; [now destruct n|].
  destruct n as [data|es]; [now destruct l|].
  destruct l as [|y l]; [reflexivity|].
  cbn [remove_at]. now destruct (assoc x es).
Qed.

(** Removing creates nothing and turns no directory into a file. *)
Lemma stat_remove_at_kind :
  forall l q n c',
    unique_names n = true ->
    stat q (remove_at l n) = Found c' ->
    exists c, stat q n = Found c /\ Tree.is_dir c = Tree.is_dir c'.
Proof.
  induction l as [|x l IH]; intros q n c' Hu Hs.
  { exists c'. split; [now destruct n|reflexivity]. }
  destruct q as [|y q].
  { cbn [stat] in *. exists n. split; [reflexivity|].
    assert (E : c' = remove_at (x :: l) n) by congruence.
    rewrite E. symmetry. apply remove_at_kind. }
  destruct n as [data|es].
  { exists c'. split; [now destruct l|reflexivity]. }
  destruct (String.eqb_spec x y) as [<-|Hxy].
  - destruct l as [|z l].
    + cbn [remove_at stat] in Hs.
      destruct (assoc x es) as [c|] eqn:Hx.
      * destruct (unique_names_dir es x c Hu Hx) as [_ Hgone].
        now rewrite Hgone in Hs.
      * rewrite assoc_remove_entry_absent in Hs; [discriminate|exact Hx].
    + cbn [remove_at] in Hs. cbn [stat].
      destruct (assoc x es) as [c|] eqn:Hx.
      * cbn [stat] in Hs. rewrite assoc_set_entry in Hs.
        apply (IH q c c'); [|exact Hs]. now apply (unique_names_dir es x c).
      * cbn [stat] in Hs. rewrite Hx in Hs. discriminate.
  - exists c'. split; [|reflexivity].
    destruct l as [|z l]; cbn [remove_at] in Hs.
    + cbn [stat] in *. now rewrite assoc_remove_entry_other in Hs by assumption.
    + destruct (assoc x es) as [c|]; [|exact Hs].
      cbn [stat] in *. now rewrite assoc_set_entry_other in Hs by assumption.
Qed.

Lemma remove_at_below (x z : string) (l : loc) (es : list (string * node)) :
  remove_at (x :: z :: l) (Dir es)
  = match assoc x es with
    | Some c => Dir (set_entry x (remove_at (z :: l) c) es)
    | None => Dir es
    end.
Proof. reflexivity. Qed.

(** What lies above the removed object stays. *)
Lemma stat_remove_at_above :
  forall a b n c,
    b <> [] -> stat a n = Found c ->
    exists c', stat a (remove_at (a ++ b) n) = Found c'
               /\ Tree.is_dir c' = Tree.is_dir c.
Proof.
  induction a as [|x a IH]; intros b n c Hb Hs.
  - cbn in Hs. inversion Hs; subst c. cbn [app stat].
    exists (remove_at b n). split; [reflexivity|apply remove_at_kind].
  - destruct n as [data|es]; [discriminate|]. cbn [stat] in Hs.
    destruct (assoc x es) as [c1|] eqn:Hx; [|discriminate].
    cbn [app]. destruct (a ++ b) as [|z l] eqn:Hab.
    { apply app_eq_nil in Hab as [_ ->]. contradiction. }
    rewrite remove_at_below, Hx, <- Hab. cbn [stat]. rewrite assoc_set_entry.
    now apply IH.
Qed.

(** [delete_item] where nothing fails: nothing appears, no directory turns
    into a file, and what lies above the item stays. *)
Lemma delete_item_shrinks (here : loc) (item_path : string) (w : world)
      (a b : loc) (c : node) :
  benign here w ->
  Os.locate w item_path = Some (a ++ b) -> b <> [] ->
  stat a (root w) = Found c ->
  let w' := exec (delete_item item_path) w in
  grows w' w /\
  exists c', stat a (root w') = Found c' /\ Tree.is_dir c' = Tree.is_dir c.
Proof.
  intros (Hf & Hcwd & Hu & Hwn) Hl Hb Ha. cbv zeta. unfold exec.
  assert (Hne : (a ++ b)%list <> []).
  { intros E. now apply app_eq_nil in E as [_ E]. }
  destruct (stat (a ++ b) (root w)) as [found| |] eqn:Hs.
  - rewrite (delete_item_done item_path w (a ++ b) found Hl Hne Hs)
      by (intros q; rewrite Hf; reflexivity).
    cbn [snd root Os.emit Os.set_root Os.record]. split.
    + intros q c' Hq. cbn [root Os.emit Os.set_root Os.record] in Hq.
      destruct (stat_remove_at_kind (a ++ b) q (root w) c' Hu Hq) as (c0 & Hc0 & K).
      exists c0. split; [exact Hc0|exact K].
    + now apply stat_remove_at_above.
  - rewrite delete_item_nothing_there
      by (unfold Os.path_exists, Os.stat_path; now rewrite Hl, Hs).
    cbn [snd root Os.emit]. split; [|now exists c].
    intros q c' Hq. now exists c'.
  - rewrite delete_item_nothing_there
      by (unfold Os.path_exists, Os.stat_path; now rewrite Hl, Hs).
    cbn [snd root Os.emit]. split; [|now exists c].
    intros q c' Hq. now exists c'.
Qed.

Lemma delete_steps_shrink (here : loc) (replica_folder : string) (a : loc) :
  forall items w0 c,
    benign here w0 ->
    (forall item, In item items ->
       os_path_join replica_folder item <> "" /\
       exists b, b <> [] /\
                 PosixPath.abs_components here (os_path_join replica_folder item)
                 = (a ++ b)%list) ->
    stat a (root w0) = Found c ->
    let w1 := fold_left (delete_step replica_folder) items w0 in
    grows w1 w0 /\
    exists c', stat a (root w1) = Found c' /\ Tree.is_dir c' = Tree.is_dir c.
Proof.
  induction items as [|item items IH]; intros w0 c Hb Hloc Ha; cbv zeta.
  - cbn [fold_left]. split; [apply grows_refl|now exists c].
  - cbn [fold_left].
    destruct (Hloc item (or_introl eq_refl)) as (Hpath & b & Hne & El).
    assert (Hl : Os.locate w0 (os_path_join replica_folder item) = Some (a ++ b)%list).
    { unfold Os.locate. destruct (String.eqb_spec (os_path_join replica_folder item) "");
        [contradiction|]. destruct Hb as (_ & -> & _). now rewrite El. }
    assert (Hne' : (a ++ b)%list <> []).
    { intros E. now apply app_eq_nil in E as [_ E]. }
    destruct (delete_item_effect here _ w0 _ Hb Hl Hne') as (Hb' & _ & _).
    destruct (delete_item_shrinks here _ w0 a b c Hb Hl Hne Ha)
      as (Hshrink & c1 & Hc1 & K1).
    fold (delete_step replica_folder w0 item) in Hb', Hshrink, Hc1.
    destruct (IH (delete_step replica_folder w0 item) c1 Hb'
                 (fun i Hi => Hloc i (or_intror Hi)) Hc1)
      as (Hshrink1 & c2 & Hc2 & K2).
    split; [now apply (grows_trans _ (delete_step replica_folder w0 item))|].
    exists c2. split; [exact Hc2|congruence].
Qed.

(** What is found below the folder at [at_folder] is among its entries. *)
Lemma found_is_entry (w w' : world) (folder_path : string) (at_folder : loc)
      (r : list string) (x : string) (c : node) :
  Os.locate w folder_path = Some at_folder ->
  cwd w' = cwd w -> well_named (root w') = true ->
  stat (at_folder ++ r ++ [x]) (root w') = Found c ->
  In (entry_of (r ++ [x])) (entries w' folder_path).
Proof.
  intros Hl Hcwd Hwn Hc.
  destruct (stat_prefix_found at_folder (r ++ [x]) (root w') c Hc) as (n & Hn).
  destruct (well_named_stat at_folder (root w') n Hwn Hn) as [Hwn_n _].
  apply (entries_complete w' folder_path n r x c).
  - unfold Os.stat_path. rewrite (locate_cwd w w' _ Hcwd), Hl. exact Hn.
  - exact Hwn_n.
  - now rewrite stat_app, Hn in Hc.
Qed.

Section Convergence.

Context `{Hashlib}.

Variables (source_folder replica_folder : string) (w : world).
Variables (at_source at_replica : loc) (ss rs : list (string * node)).
Hypothesis nothing_fails : faults w = [].
Hypothesis names_valid : well_named (root w) = true.
Hypothesis names_unique : unique_names (root w) = true.
Hypothesis absolute_replica : PosixPath.isabs replica_folder = true.
Hypothesis source_at : Os.locate w source_folder = Some at_source.
Hypothesis replica_at : Os.locate w replica_folder = Some at_replica.
Hypothesis roots_apart : diverge at_source at_replica = true.
Hypothesis source_tree : stat at_source (root w) = Found (Dir ss).
Hypothesis replica_tree : stat at_replica (root w) = Found (Dir rs).
Hypothesis no_file_for_directory :
  forall q d es,
    stat q (Dir rs) = Found (File d) -> stat q (Dir ss) = Found (Dir es) -> False.

(** The delete phase as a whole: nothing fails afterwards either, the
    names stay well formed and unique, the source is as it was, the replica
    folder is still a directory, nothing has appeared, and what the replica
    still holds is an entry of the source. *)
Lemma delete_phase_effect :
  let w1 := exec (delete_extra_items_from_replica source_folder replica_folder) w in
  benign (cwd w) w1 /\
  stat at_source (root w1) = Found (Dir ss) /\
  (exists rs1, stat at_replica (root w1) = Found (Dir rs1)) /\
  grows w1 w /\
  (forall r x c,
     valid_names r -> valid_name x = true ->
     stat (at_replica ++ r ++ [x]) (root w1) = Found c ->
     In (entry_of (r ++ [x])) (entries w source_folder)).
Proof.
  cbv zeta. unfold exec. rewrite delete_phase_spec. cbn [snd].
  set (w0 := Os.record (Walk replica_folder) (Os.record (Walk source_folder) w)).
  set (w1 := fold_left (delete_step replica_folder)
                       (extra w source_folder replica_folder) w0).
  assert (Hb0 : benign (cwd w) w0) by (unfold benign; cbn; auto).
  destruct (well_named_stat at_replica (root w) (Dir rs) names_valid replica_tree)
    as [Hwn_r _].
  pose proof (unique_names_stat at_replica (root w) (Dir rs) names_unique replica_tree)
    as Hu_r.
  assert (Hstat_r : Os.stat_path w replica_folder = Found (Dir rs))
    by (unfold Os.stat_path; now rewrite replica_at).
  assert (Hitems : forall i, In i (extra w source_folder replica_folder) ->
            exists r x, i = entry_of (r ++ [x]) /\ valid_names r /\ valid_name x = true).
  { intros i Hi. apply filter_In in Hi as [Hi _].
    destruct (entries_found w replica_folder (Dir rs) i Hstat_r Hwn_r Hu_r Hi)
      as (r & x & c & -> & Hr & Hx & _). now exists r, x. }
  assert (Hwhere : forall r x, valid_names r -> valid_name x = true ->
            os_path_join replica_folder (entry_of (r ++ [x])) <> "" /\
            PosixPath.abs_components (cwd w)
              (os_path_join replica_folder (entry_of (r ++ [x])))
            = (at_replica ++ r ++ [x])%list).
  { intros r x Hr Hx.
    now apply locate_inv, (locate_entry w replica_folder at_replica r x). }
  destruct (delete_steps_effect (cwd w) replica_folder
              (extra w source_folder replica_folder) w0 Hb0)
    as (Hb1 & _ & Hgone).
  { intros i Hi. destruct (Hitems i Hi) as (r & x & -> & Hr & Hx).
    destruct (Hwhere r x Hr Hx) as [Hne El].
    exists (at_replica ++ r ++ [x])%list. split; [exact El|]. split; [|exact Hne].
    intros E. apply app_eq_nil in E as [_ E]. now apply app_eq_nil in E as [_ E]. }
  destruct (delete_steps_shrink (cwd w) replica_folder at_replica
              (extra w source_folder replica_folder) w0 (Dir rs) Hb0)
    as (Hshrink & c1 & Hc1 & K1).
  { intros i Hi. destruct (Hitems i Hi) as (r & x & -> & Hr & Hx).
    destruct (Hwhere r x Hr Hx) as [Hne El]. split; [exact Hne|].
    exists (r ++ [x])%list. split; [|exact El].
    intros E. now apply app_eq_nil in E as [_ E]. }
  { exact replica_tree. }
  fold w1 in Hb1, Hgone, Hshrink, Hc1.
  destruct (delete_steps_keep replica_folder w at_replica replica_at at_source
              (extra w source_folder replica_folder) w0) as [Hkept _].
  { now rewrite diverge_sym. }
  { split; reflexivity. }
  { exact Hitems. }
  fold w1 in Hkept.
  split; [exact Hb1|]. split; [now rewrite Hkept|]. split.
  { destruct c1 as [d|rs1]; [discriminate|]. now exists rs1. }
  split; [exact Hshrink|].
  intros r x c Hr Hx Hc.
  destruct (Hshrink _ _ Hc) as (c0 & Hc0 & _).
  change (root w0) with (root w) in Hc0. rewrite stat_app, replica_tree in Hc0.
  pose proof (entries_complete w replica_folder (Dir rs) r x c0 Hstat_r Hwn_r Hc0)
    as Hrep.
  destruct (contains (entries w source_folder) (entry_of (r ++ [x]))) eqn:Hsrc.
  - now apply contains_In.
  - exfalso. apply (Hgone (entry_of (r ++ [x])) c).
    + apply filter_In. split; [exact Hrep|]. now rewrite Hsrc.
    + destruct (Hwhere r x Hr Hx) as [_ ->]. exact Hc.
Qed.

(** One cycle as a whole: the working directory and the source are as
    they were, and the replica has the entries of the source, all of them
    and no other. *)
Lemma cycle_effect :
  let w2 := exec (sync_cycle source_folder replica_folder) w in
  cwd w2 = cwd w /\
  stat at_source (root w2) = Found (Dir ss) /\
  (forall item, In item (entries w2 replica_folder) ->
                In item (entries w source_folder)) /\
  (forall item, In item (entries w source_folder) ->
                In item (entries w2 replica_folder)).
Proof.
  assert (E : exec (sync_cycle source_folder replica_folder) w
              = exec (copy_new_from_source_to_replica source_folder replica_folder)
                     (exec (delete_extra_items_from_replica
                              source_folder replica_folder) w))
    by (unfold exec at 1; now rewrite sync_cycle_spec).
  cbv zeta. rewrite E. clear E.
  destruct delete_phase_effect
    as ((Hf1 & Hcwd1 & Hu1 & Hwn1) & Hsrc1 & (rs1 & Hrep1) & Hshrink & Hleft).
  set (w1 := exec (delete_extra_items_from_replica source_folder replica_folder) w)
    in *.
  assert (Hno : forall q d es,
            stat q (Dir rs1) = Found (File d) ->
            stat q (Dir ss) = Found (Dir es) -> False).
  { intros q d es Hq Hs.
    destruct (Hshrink (at_replica ++ q)%list (File d)) as (c0 & Hc0 & K).
    - now rewrite stat_app, Hrep1.
    - rewrite stat_app, replica_tree in Hc0.
      destruct c0 as [d0|]; [|discriminate].
      exact (no_file_for_directory q d0 es Hc0 Hs). }
  destruct (copy_phase_effect source_folder replica_folder w1 at_source at_replica
              ss rs1 Hf1 Hwn1 Hu1 absolute_replica)
    as ((Hf2 & Hcwd2 & Hsrc2 & Hwn2 & Hu2 & Hgrow & Hmirror) & Hfound);
    try assumption.
  { now rewrite (locate_cwd w w1 _ Hcwd1). }
  { now rewrite (locate_cwd w w1 _ Hcwd1). }
  set (w2 := exec (copy_new_from_source_to_replica source_folder replica_folder) w1)
    in *.
  destruct (well_named_stat at_source (root w) (Dir ss) names_valid source_tree)
    as [Hwn_s _].
  pose proof (unique_names_stat at_source (root w) (Dir ss) names_unique source_tree)
    as Hu_s.
  assert (Hstat_s : Os.stat_path w source_folder = Found (Dir ss))
    by (unfold Os.stat_path; now rewrite source_at).
  assert (Hcwd : cwd w2 = cwd w) by congruence.
  split; [exact Hcwd|]. split; [exact Hsrc2|]. split; intros item.
  - intros Hin.
    destruct (stat at_replica (root w2)) as [n2| |] eqn:Hn2.
    2,3: unfold entries, Os.stat_path in Hin;
         rewrite (locate_cwd w w2 _ Hcwd), replica_at, Hn2 in Hin; contradiction.
    assert (Hstat2 : Os.stat_path w2 replica_folder = Found n2).
    { unfold Os.stat_path. now rewrite (locate_cwd w w2 _ Hcwd), replica_at. }
    destruct (well_named_stat at_replica (root w2) n2 Hwn2 Hn2) as [Hwn_n2 _].
    pose proof (unique_names_stat at_replica (root w2) n2 Hu2 Hn2) as Hu_n2.
    destruct (entries_found w2 replica_folder n2 item Hstat2 Hwn_n2 Hu_n2 Hin)
      as (r & x & c & -> & Hr & Hx & Hc).
    assert (Hc2 : stat (at_replica ++ r ++ [x]) (root w2) = Found c)
      by (now rewrite stat_app, Hn2).
    destruct (Hmirror (r ++ [x])%list c Hc2) as [(c0 & Hc0 & _)|(cs & Hcs & _)].
    + apply (Hleft r x c0 Hr Hx). now rewrite stat_app, Hrep1.
    + now apply (entries_complete w source_folder (Dir ss) r x cs).
  - intros Hin.
    rewrite (entries_as_names w source_folder (Dir ss) Hstat_s Hwn_s) in Hin.
    apply in_map_iff in Hin as (q & <- & Hq).
    destruct (Hfound q Hq) as (c & Hc).
    destruct (names_of_found (Dir ss) q Hwn_s Hu_s Hq)
      as (r & x & _ & -> & Hr & Hx & _).
    now apply (found_is_entry w w2 replica_folder at_replica r x c).
Qed.

(** X22. One cycle makes the entries equal.  In an environment that
    makes no operation fail, with an absolute replica root, source and
    replica trees that lie apart, names that are well formed and unique,
    and no file of the replica standing where the source has a directory:
    after [sync_cycle] the entries of the replica are the entries of the
    source. *)
Theorem cycle_makes_the_entries_equal (item : string) :
  In item (entries (exec (sync_cycle source_folder replica_folder) w)
                   replica_folder)
  <-> In item (entries w source_folder).
Proof.
  destruct cycle_effect as (_ & _ & Honly & Hall).
  split; [apply Honly|apply Hall].
Qed.

(** The entries of a folder are read off the working directory and the
    tree found at the folder. *)
Lemma entries_same (w1 w2 : world) (folder_path : string) :
  cwd w2 = cwd w1 ->
  Os.stat_path w2 folder_path = Os.stat_path w1 folder_path ->
  entries w2 folder_path = entries w1 folder_path.
Proof. intros Hcwd Hstat. unfold entries. now rewrite Hstat, Hcwd. Qed.

(** X23. After one cycle the two folders are in sync as far as the
    program can tell: under the conditions of X22, a second cycle
    deletes nothing, copies nothing and logs nothing. *)
Theorem second_cycle_changes_nothing :
  let w1 := exec (sync_cycle source_folder replica_folder) w in
  let w2 := exec (sync_cycle source_folder replica_folder) w1 in
  root w2 = root w1 /\ log w2 = log w1 /\
  calls w2 = (calls w1 ++ [Walk source_folder; Walk replica_folder;
                           Walk source_folder; Walk replica_folder])%list.
Proof.
  cbv zeta. destruct cycle_effect as (Hcwd & Hsrc & Honly & Hall).
  set (w1 := exec (sync_cycle source_folder replica_folder) w) in *.
  assert (Hsame : entries w1 source_folder = entries w source_folder).
  { apply entries_same; [exact Hcwd|]. unfold Os.stat_path.
    now rewrite (locate_cwd w w1 _ Hcwd), source_at, Hsrc, source_tree. }
  assert (E : exec (sync_cycle source_folder replica_folder) w1
              = exec (copy_new_from_source_to_replica source_folder replica_folder)
                     (exec (delete_extra_items_from_replica
                              source_folder replica_folder) w1))
    by (unfold exec at 1; now rewrite sync_cycle_spec).
  rewrite E. clear E. unfold exec at 1 2 3 4 5 6.
  rewrite delete_phase_spec, no_extra
    by (intros item Hin; rewrite Hsame; now apply Honly).
  cbn [snd fold_left].
  rewrite copy_phase_spec, no_missing
    by (intros item; rewrite !entries_record, Hsame; now apply Hall).
  cbn [snd fold_left root log calls Os.record]. repeat split.
  now rewrite <- !app_assoc.
Qed.

End Convergence.

Lemma cycle_makes_the_entries_equal_witness :
  In "d/b.txt" (entries (exec (sync_cycle "/s" "/r") drifted) "/r").
Proof.
  apply (cycle_makes_the_entries_equal
           "/s" "/r" drifted ["s"] ["r"]
           [("a.txt", File (bytes "A")); ("d", Dir [("b.txt", File (bytes "B"))])]
           [("a.txt", File (bytes "A")); ("old.txt", File (bytes "O"));
            ("stale", Dir [("x", File (bytes "X"))])]
           eq_refl eq_refl eq_refl eq_refl eq_refl eq_refl eq_refl eq_refl eq_refl).
  - intros [|x q] d es Hq Hs; [discriminate|].
    cbn [stat assoc] in Hs.
    destruct (String.eqb_spec "a.txt" x) as [<-|_]; [destruct q; discriminate|].
    destruct (String.eqb_spec "d" x) as [<-|_]; [|discriminate].
    vm_compute in Hq. discriminate.
  - vm_compute. right. right. left. reflexivity.
Defined.

Lemma second_cycle_changes_nothing_witness :
  root (exec (sync_cycle "/s" "/r") (exec (sync_cycle "/s" "/r") drifted))
  = root (exec (sync_cycle "/s" "/r") drifted).
Proof.
  apply (second_cycle_changes_nothing
           "/s" "/r" drifted ["s"] ["r"]
           [("a.txt", File (bytes "A")); ("d", Dir [("b.txt", File (bytes "B"))])]
           [("a.txt", File (bytes "A")); ("old.txt", File (bytes "O"));
            ("stale", Dir [("x", File (bytes "X"))])]
           eq_refl eq_refl eq_refl eq_refl eq_refl eq_refl eq_refl eq_refl eq_refl).
  intros [|x q] d es Hq Hs; [discriminate|].
  cbn [stat assoc] in Hs.
  destruct (String.eqb_spec "a.txt" x) as [<-|_]; [destruct q; discriminate|].
  destruct (String.eqb_spec "d" x) as [<-|_]; [|discriminate].
  vm_compute in Hq. discriminate.
Defined.

(** ** The run, where nothing fails *)

Lemma entries_of_same_tree (w w' : world) (folder_path : string) :
  root w' = root w -> cwd w' = cwd w ->
  entries w' folder_path = entries w folder_path.
Proof.
  intros Hroot Hcwd. apply entries_same; [exact Hcwd|].
  unfold Os.stat_path. now rewrite (locate_cwd w w' _ Hcwd), Hroot.
Qed.

Section Runs.

Context `{Hashlib}.

(** A cycle over two folders with the same entries leaves the file system
    and the log as they are. *)
Lemma cycle_in_sync (source_folder replica_folder : string) (w1 : world) :
  (forall item, In item (entries w1 source_folder) <->
                In item (entries w1 replica_folder)) ->
  let w2 := exec (sync_cycle source_folder replica_folder) w1 in
  root w2 = root w1 /\ cwd w2 = cwd w1 /\ log w2 = log w1.
Proof.
  intros Hsame. cbv zeta. unfold exec. rewrite sync_cycle_spec. cbn [snd].
  unfold exec.
  rewrite delete_phase_spec, no_extra by (intros; now apply Hsame).
  cbn [snd fold_left].
  rewrite copy_phase_spec, no_missing
    by (intros item; rewrite !entries_record; now apply Hsame).
  cbn [snd fold_left root cwd log Os.record]. now repeat split.
Qed.

(** [time.sleep] changes the history only, whether it returns or raises. *)
Lemma sleep_world (seconds : Z) (w : world) :
  exec (Os.sleep seconds) w = Os.record (Sleep seconds) w.
Proof.
  unfold exec, Os.sleep.
  destruct (_ || _)%bool; [reflexivity|]. now destruct (_ <? _)%Z.
Qed.

(** So do all the cycles of a loop that starts there, however it ends. *)
Lemma sync_loop_in_sync (source_folder replica_folder : string)
      (sync_interval : option Z) :
  forall more w1,
    (forall item, In item (entries w1 source_folder) <->
                  In item (entries w1 replica_folder)) ->
    let w2 := exec (sync_loop more source_folder replica_folder sync_interval) w1 in
    root w2 = root w1 /\ cwd w2 = cwd w1 /\ log w2 = log w1.
Proof.
  induction more as [|more IH]; intros w1 Hsame; cbv zeta;
    destruct (cycle_in_sync source_folder replica_folder w1 Hsame)
      as (Hroot & Hcwd & Hlog);
    set (w2 := exec (sync_cycle source_folder replica_folder) w1) in *;
    assert (E : sync_cycle source_folder replica_folder w1 = (Return tt, w2))
      by (unfold w2, exec; now rewrite sync_cycle_spec);
    unfold exec; cbn [sync_loop]; unfold bind at 1 3 5; rewrite E;
    (destruct sync_interval as [seconds|]; [|cbn [snd ret]; now auto]);
    unfold bind at 1 2 3;
    pose proof (sleep_world seconds w2) as Hslept; unfold exec in Hslept;
    destruct (Os.sleep seconds w2) as [[[]|e] w3]; cbn [snd] in Hslept;
    subst w3; cbn [snd raise root cwd log Os.record]; auto.
  set (w2' := Os.record (Sleep seconds) w2).
  destruct (IH w2') as (Hroot' & Hcwd' & Hlog').
  { intros item.
    rewrite (entries_of_same_tree w1 w2' source_folder) by assumption.
    rewrite (entries_of_same_tree w1 w2' replica_folder) by assumption.
    apply Hsame. }
  unfold exec in Hroot', Hcwd', Hlog'.
  rewrite Hroot', Hcwd', Hlog'. auto.
Qed.

(** A loop whose first cycle brings the folders in sync ends in the file
    system and the log of that cycle. *)
Lemma sync_loop_after_first_cycle (source_folder replica_folder : string)
      (sync_interval : option Z) (more : nat) (w : world) :
  let w1 := exec (sync_cycle source_folder replica_folder) w in
  (forall item, In item (entries w1 source_folder) <->
                In item (entries w1 replica_folder)) ->
  let w' := exec (sync_loop more source_folder replica_folder sync_interval) w in
  root w' = root w1 /\ cwd w' = cwd w1 /\ log w' = log w1.
Proof.
  cbv zeta. intros Hsame.
  set (w1 := exec (sync_cycle source_folder replica_folder) w) in *.
  assert (E : sync_cycle source_folder replica_folder w = (Return tt, w1))
    by (unfold w1, exec; now rewrite sync_cycle_spec).
  unfold exec.
  destruct more as [|more]; cbn [sync_loop]; unfold bind at 1 3 5; rewrite E;
    (destruct sync_interval as [seconds|]; [|cbn [snd ret]; now auto]);
    unfold bind at 1 2 3;
    pose proof (sleep_world seconds w1) as Hslept; unfold exec in Hslept;
    destruct (Os.sleep seconds w1) as [[[]|e] w3]; cbn [snd] in Hslept;
    subst w3; cbn [snd raise root cwd log Os.record]; auto.
  set (w1' := Os.record (Sleep seconds) w1).
  destruct (sync_loop_in_sync source_folder replica_folder (Some seconds)
                              more w1') as (Hroot' & Hcwd' & Hlog').
  { intros item.
    rewrite (entries_of_same_tree w1 w1' source_folder) by reflexivity.
    rewrite (entries_of_same_tree w1 w1' replica_folder) by reflexivity.
    apply Hsame. }
  unfold exec in Hroot', Hcwd', Hlog'.
  rewrite Hroot', Hcwd', Hlog'. auto.
Qed.

Variables (source_folder replica_folder : string) (w : world).
Variables (at_source at_replica : loc) (ss rs : list (string * node)).
Hypothesis nothing_fails : faults w = [].
Hypothesis names_valid : well_named (root w) = true.
Hypothesis names_unique : unique_names (root w) = true.
Hypothesis absolute_replica : PosixPath.isabs replica_folder = true.
Hypothesis source_at : Os.locate w source_folder = Some at_source.
Hypothesis replica_at : Os.locate w replica_folder = Some at_replica.
Hypothesis roots_apart : diverge at_source at_replica = true.
Hypothesis source_tree : stat at_source (root w) = Found (Dir ss).
Hypothesis replica_tree : stat at_replica (root w) = Found (Dir rs).
Hypothesis no_file_for_directory :
  forall q d es,
    stat q (Dir rs) = Found (File d) -> stat q (Dir ss) = Found (Dir es) -> False.

(** X24. A run where nothing fails.  With an absolute replica root,
    source and replica directories that lie apart, names that are well
    formed and unique, and no file of the replica standing where the source
    has a directory, [sync_folders] ends, with or without an interval and
    however many cycles it runs, in the file system and the log its first
    cycle produced, and the entries of the replica are then the entries of
    the source. *)
Theorem run_ends_in_sync (more : nat) (sync_interval : option Z) :
  let w1 := exec (sync_cycle source_folder replica_folder) w in
  let w' := exec (sync_folders more source_folder replica_folder sync_interval) w in
  root w' = root w1 /\ log w' = log w1 /\
  forall item, In item (entries w' replica_folder)
               <-> In item (entries w source_folder).
Proof.
  cbv zeta.
  destruct (cycle_effect source_folder replica_folder w at_source at_replica ss rs)
    as (Hcwd & Hsrc & Honly & Hall); try assumption.
  set (w1 := exec (sync_cycle source_folder replica_folder) w) in *.
  assert (Hsame : forall item, In item (entries w1 source_folder) <->
                               In item (entries w1 replica_folder)).
  { intros item.
    assert (E : entries w1 source_folder = entries w source_folder).
    { apply entries_same; [exact Hcwd|]. unfold Os.stat_path.
      now rewrite (locate_cwd w w1 _ Hcwd), source_at, Hsrc, source_tree. }
    rewrite E. split; [apply Hall|apply Honly]. }
  assert (Hrest : root (exec (sync_folders more source_folder replica_folder
                                sync_interval) w) = root w1 /\
                  cwd (exec (sync_folders more source_folder replica_folder
                               sync_interval) w) = cwd w1 /\
                  log (exec (sync_folders more source_folder replica_folder
                               sync_interval) w) = log w1).
  { unfold exec at 1 2 3. rewrite sync_folders_valid.
    2,3: unfold Os.is_dir, Os.stat_path.
    2: now rewrite source_at, source_tree.
    2: now rewrite replica_at, replica_tree.
    exact (sync_loop_after_first_cycle source_folder replica_folder
             sync_interval more w Hsame). }
  destruct Hrest as (Hroot' & Hcwd' & Hlog').
  split; [exact Hroot'|]. split; [exact Hlog'|]. intros item.
  rewrite (entries_of_same_tree w1 _ replica_folder Hroot' Hcwd').
  split; [apply Honly|apply Hall].
Qed.

End Runs.

Lemma run_ends_in_sync_witness :
  In "d/b.txt" (entries (exec (sync_folders 2 "/s" "/r" (Some 5%Z)) drifted) "/r").
Proof.
  assert (Hno : forall q d es,
            stat q (Dir [("a.txt", File (bytes "A")); ("old.txt", File (bytes "O"));
                         ("stale", Dir [("x", File (bytes "X"))])])
            = Found (File d) ->
            stat q (Dir [("a.txt", File (bytes "A"));
                         ("d", Dir [("b.txt", File (bytes "B"))])])
            = Found (Dir es) -> False).
  { intros [|x q] d es Hq Hs; [discriminate|].
    cbn [stat assoc] in Hs.
    destruct (String.eqb_spec "a.txt" x) as [<-|_]; [destruct q; discriminate|].
    destruct (String.eqb_spec "d" x) as [<-|_]; [|discriminate].
    vm_compute in Hq. discriminate. }
  apply (proj2 (proj2 (run_ends_in_sync
                         "/s" "/r" drifted ["s"] ["r"] _ _
                         eq_refl eq_refl eq_refl eq_refl eq_refl eq_refl eq_refl
                         eq_refl eq_refl Hno 2 (Some 5%Z)))).
  vm_compute. right. right. left. reflexivity.
Defined.

Lemma sync_folders_reports_first_invalid_root_witness :
  sync_folders 0 "/nope" "/r" None new_dir
  = (Return tt,
     Os.emit ("Error: Folder '/nope' does not exist. " ++ call_to_action) new_dir).
Proof.
  exact (proj1 (sync_folders_reports_first_invalid_root 0 "/nope" "/r" None new_dir)
               eq_refl).
Defined.
